(** * Polygon.IO: serialisation and rendering export of polygons

    A shallow embedding of [Polygon/IO.py]: the binary codec
    ([encodeBinary], [decodeBinary]), the stream resolvers
    ([getWritableObject], [getReadableObject]), the style ring buffer
    ([__RingBuffer]), the gnuplot, SVG, XML and PDF writers and the XML
    reader, together with the properties the specification states about
    them.

    Python exceptions are values of [error]; a computation that may raise
    returns a [result]; code that touches streams or polygon objects runs
    in the state-and-error monad [M] over a [world] of stream and polygon
    objects addressed by handles. *)

From Stdlib Require Import ZArith Floats Lia.
From Stdlib.Strings Require Import Byte Ascii.
From stdpp Require Import base tactics option list numbers strings pretty gmap.

Set Warnings "-register-all,-inexact-float".

Open Scope Z_scope.

(** ** Python exceptions and fallible computations *)

Module Py.

(** The three [assert] statements of [readXML]. *)
Inductive assertion :=
  | TagIsContour      (* assert sn.tagName == 'contour' *)
  | PointsDeclared    (* assert int(sn.getAttribute('points')) == len(polist) *)
  | ContoursDeclared. (* assert int(pn.getAttribute('contours')) == len(p) *)

(** Every way the code of [IO.py] raises, one constructor per raise site or
    per exception class of the Python runtime.  The names of the
    specification's taxonomy are kept where it has one. *)
Inductive error :=
  | UnsupportedDestination (* raise Exception("Can't make a writable object ...") *)
  | UnsupportedSource      (* raise Exception("Can't make a readable object ...") *)
  | OSError                (* open(name, 'w') failed *)
  | TruncatedInput         (* struct.error: unpack needs a buffer of calcsize bytes *)
  | PackError              (* struct.error raised by pack: argument out of range or count *)
  | AssertionError (a : assertion)
  | ValueError             (* int() or float() of a malformed literal *)
  | ParseError             (* xml.parsers.expat.ExpatError from parseString *)
  | ClosedStream           (* ValueError: I/O operation on closed file *)
  | IndexError             (* sequence index out of range *)
  | ZeroDivisionError      (* float division by zero *)
  | FormatError            (* '%d' of a NaN or an infinity *)
  | DegenerateExtent       (* raise Error("Polygons have no extent in one direction!") *)
  | LabelCountMismatch     (* raise Error("The number of labels must either be zero, ...") *)
  | LabelCoordMismatch     (* raise Error("The number of label coordinates must be ...") *)
  | TypeError              (* an operand of the wrong type, such as None *)
  | BadHandle.             (* a handle that names no object of the world *)

(** [StructuralMismatch] of the specification: a declared count that
    disagrees with what was read. *)
Definition StructuralMismatch (e : error) : Prop :=
  e = AssertionError PointsDeclared \/ e = AssertionError ContoursDeclared.

Definition is_assertion_error (e : error) : bool :=
  match e with AssertionError _ => true | _ => false end.

Inductive result (A : Type) :=
  | Ok (a : A)
  | Err (e : error).
Arguments Ok {A} a.
Arguments Err {A} e.

Definition is_ok {A} (r : result A) : bool :=
  match r with Ok _ => true | Err _ => false end.

#[export] Instance result_ret : MRet result := fun A a => Ok a.
#[export] Instance result_bind : MBind result := fun A B f r =>
  match r with
  | Ok a => f a
  | Err e => Err e
  end.

(** [s[i]] on a tuple or list. *)
Definition index {A} (s : list A) (i : nat) : result A :=
  match s !! i with
  | Some a => Ok a
  | None => Err IndexError
  end.

End Py.
Export Py.

(** ** The polygon model *)

Module Model.

(** Modelled from the spec: the polygon class [Polygon.cPolygon.Polygon]
    is the external geometry engine; section 3 of the specification gives
    its data: a point is a pair of coordinates, a contour an ordered
    sequence of points tagged with a hole flag, a polygon an ordered
    sequence of contours.  The coordinate type is a parameter: the binary
    codec sees a double as its 64-bit pattern, the renderers compute with
    floats. *)
Definition Point (A : Type) : Type := A * A.

Record Contour (A : Type) := mkContour {
  points : list (Point A);
  hole : bool
}.
Arguments mkContour {A} points hole.
Arguments points {A} c.
Arguments hole {A} c.

Definition Polygon (A : Type) : Type := list (Contour A).

Section Engine.
Context {A : Type}.

(** [Polygon()] *)
Definition new_polygon : Polygon A := [].

(** [p.addContour(c, isHole)]: appends a contour. *)
Definition addContour (p : Polygon A) (c : list (Point A)) (isHole : bool) : Polygon A :=
  p ++ [mkContour c isHole].

(** [p.isHole(i)] *)
Definition isHole (p : Polygon A) (i : nat) : result bool :=
  c ← index p i; Ok (hole c).

(** [p.isSolid(i)] *)
Definition isSolid (p : Polygon A) (i : nat) : result bool :=
  c ← index p i; Ok (negb (hole c)).
End Engine.

End Model.
Export Model.

(** ** Big-endian byte strings, [struct.pack] and [struct.unpack] *)

Module Struct.

Definition byte_of_Z (z : Z) : byte :=
  match Byte.of_N (Z.to_N (z mod 256)) with
  | Some b => b
  | None => x00
  end.

Definition Z_of_byte (b : byte) : Z := Z.of_N (Byte.to_N b).

(** The [k] low-order bytes of [x], most significant first. *)
Fixpoint be_bytes (k : nat) (x : Z) : list byte :=
  match k with
  | O => []
  | S k' => byte_of_Z (x / 256 ^ Z.of_nat k') :: be_bytes k' x
  end.

Definition be_value (bs : list byte) : Z :=
  fold_left (fun acc b => acc * 256 + Z_of_byte b) bs 0.

(** The format strings [IO.py] uses: ['!I'], ['!l'] and ['!%dd' % n]. *)
Inductive format :=
  | FmtI
  | Fmtl
  | Fmtd (n : Z).

Definition calcsize (f : format) : Z :=
  match f with
  | FmtI => 4
  | Fmtl => 4
  | Fmtd n => 8 * n
  end.

(** A double is its IEEE-754 binary64 bit pattern, [0 <= d < 2^64];
    ['!d'] writes that pattern most significant byte first. *)
Abbreviation double := Z (only parsing).

Definition is_double (d : double) : Prop := 0 <= d < 2 ^ 64.

Definition pack (f : format) (vs : list Z) : result (list byte) :=
  match f, vs with
  | FmtI, [v] =>
      if (0 <=? v) && (v <? 2 ^ 32) then Ok (be_bytes 4 v) else Err PackError
  | Fmtl, [v] =>
      if (- 2 ^ 31 <=? v) && (v <? 2 ^ 31) then Ok (be_bytes 4 (v mod 2 ^ 32))
      else Err PackError
  | Fmtd n, _ =>
      if Z.of_nat (length vs) =? n then Ok (concat (map (be_bytes 8) vs))
      else Err PackError
  | _, _ => Err PackError
  end.

(** Signed reading of a 32-bit pattern. *)
Definition signed32 (u : Z) : Z := if u <? 2 ^ 31 then u else u - 2 ^ 32.

Fixpoint unpack_doubles (n : nat) (b : list byte) : list double :=
  match n with
  | O => []
  | S n' => be_value (take 8 b) :: unpack_doubles n' (drop 8 b)
  end.

(** [unpack(f, b)] raises unless [b] has exactly [calcsize(f)] bytes. *)
Definition unpack (f : format) (b : list byte) : result (list Z) :=
  if Z.of_nat (length b) =? calcsize f then
    match f with
    | FmtI => Ok [be_value b]
    | Fmtl => Ok [signed32 (be_value b)]
    | Fmtd n => Ok (unpack_doubles (Z.to_nat n) b)
    end
  else Err TruncatedInput.

End Struct.
Export Struct.

(** ** The binary codec *)

Module Codec.

(** [__flatten(s)] *)
Definition __flatten {A} (s : list (Point A)) : list A :=
  flat_map (fun a => [a.1; a.2]) s.

(** [__couples(s)]: [s[i], s[i+1]] for [i] in [range(0, len(s), 2)]. *)
Fixpoint __couples {A} (s : list A) : result (list (Point A)) :=
  match s with
  | [] => Ok []
  | x :: s' =>
      match s' with
      | [] => Err IndexError
      | y :: s'' => r ← __couples s''; Ok ((x, y) :: r)
      end
  end.

(** [__unpack(f, b)]: [s = calcsize(f)]; [unpack(f, b[:s]), b[s:]]. *)
Definition __unpack (f : format) (b : list byte) : result (list Z * list byte) :=
  let s := Z.to_nat (calcsize f) in
  v ← unpack f (take s b);
  Ok (v, drop s b).

(** The body of the loop of [decodeBinary], [k] iterations left. *)
Fixpoint decode_contours (k : nat) (b : list byte) (p : Polygon double)
  : result (Polygon double) :=
  match k with
  | O => Ok p
  | S k' =>
      '(x, b) ← __unpack Fmtl b;
      x0 ← index x 0;
      let hs : bool * Z := if x0 <? 0 then (true, -2 * x0) else (false, 2 * x0) in
      '(flat, b) ← __unpack (Fmtd hs.2) b;
      c ← __couples flat;
      decode_contours k' b (addContour p c hs.1)
  end.

Definition decodeBinary (bin : list byte) : result (Polygon double) :=
  '(nC, b) ← __unpack FmtI bin;
  n ← index nC 0;
  decode_contours (Z.to_nat n) b new_polygon.

(** The loop of [encodeBinary] over [enumerate(p)], from index [i] on;
    [cs] are the contours still to come. *)
Fixpoint encode_contours (p : Polygon double) (i : nat) (cs : list (Contour double))
  : result (list (list byte)) :=
  match cs with
  | [] => Ok []
  | c :: cs' =>
      h ← isHole p i;
      let n := Z.of_nat (length (points c)) in
      a ← pack Fmtl [n * (if (h : bool) then -1 else 1)];
      d ← pack (Fmtd (2 * n)) (__flatten (points c));
      r ← encode_contours p (S i) cs';
      Ok (a :: d :: r)
  end.

Definition encodeBinary (p : Polygon double) : result (list byte) :=
  h ← pack FmtI [Z.of_nat (length p)];
  l ← encode_contours p 0 p;
  Ok (concat (h :: l)).

End Codec.

(** ** The pickling support of [Polygon/__init__.py] *)

Module Pickle.

(** [__createPolygon(contour, hole)]: one [addContour] for each pair of
    [zip(contour, hole)]. *)
Definition __createPolygon {A} (contour : list (list (Point A))) (hole : list bool)
  : Polygon A :=
  fold_left (fun p ch => addContour p ch.1 ch.2) (zip contour hole) new_polygon.

(** [__tuples(a)]: [tuple(tuple(i) for i in a)]. *)
Definition __tuples {A} (a : list (Point A)) : list (Point A) :=
  map (fun i => (i.1, i.2)) a.

(** [__reducePolygon(p)]: the arguments [copyreg] keeps for
    [__createPolygon].  Iterating a polygon gives its contours as
    sequences of points, and [p.isHole()] without an index the hole flags
    of all its contours. *)
Definition __reducePolygon {A} (p : Polygon A) : list (list (Point A)) * list bool :=
  (map (fun x => __tuples (points x)) p, map hole p).

End Pickle.

(** ** The style ring buffer *)

Module RingBuffer.

(** [class __RingBuffer]: the backing sequence [s], the cursor [i] and the
    length [l] taken at construction. *)
Record __RingBuffer (A : Type) := mk {
  s : list A;
  i : nat;
  l : nat
}.
Arguments mk {A} s i l.
Arguments s {A} _.
Arguments i {A} _.
Arguments l {A} _.

(** [__init__(self, seq)] *)
Definition __init__ {A} (seq : list A) : __RingBuffer A :=
  mk seq 0 (length seq).

(** [__call__(self)]: the value returned and the buffer afterwards. *)
Definition __call__ {A} (self : __RingBuffer A) : result (A * __RingBuffer A) :=
  o ← index (s self) (i self);
  let i1 := (i self + 1)%nat in
  let i2 := if Nat.eqb i1 (l self) then 0%nat else i1 in
  Ok (o, mk (s self) i2 (l self)).

(** The buffer after [n] invocations. *)
Fixpoint after {A} (n : nat) (self : __RingBuffer A) : result (__RingBuffer A) :=
  match n with
  | O => Ok self
  | S n' => '(_, self') ← __call__ self; after n' self'
  end.

End RingBuffer.

(** ** Streams, polygon objects and the monad of effects *)

Module World.

(** Objects are named by their position in the world. *)
Abbreviation handle := nat (only parsing).

(** A text stream (an open file or a [StringIO]): the text it holds and
    the number of [close()] calls it has received.  What a written file
    holds on disk afterwards is not tracked. *)
Record stream := mkStream {
  content : string;
  closes : nat
}.

Definition closed (st : stream) : bool := negb (Nat.eqb (closes st) 0).

(** The objects a call can reach: streams and polygon objects by handle,
    the readable files by path, and the paths [open(_, 'w')] fails on. *)
Record world := mkWorld {
  streams : list stream;
  polys : list (Polygon float);
  files : gmap string string;
  readonly : gset string
}.

Definition M (A : Type) : Type := world -> result A * world.

Definition retM {A} (a : A) : M A := fun w => (Ok a, w).

Definition bindM {A B} (m : M A) (k : A -> M B) : M B := fun w =>
  match m w with
  | (Ok a, w') => k a w'
  | (Err e, w') => (Err e, w')
  end.

Definition raise {A} (e : error) : M A := fun w => (Err e, w).

Definition lift {A} (r : result A) : M A := fun w => (r, w).

Notation "'let!' x ':=' m 'in' k" := (bindM m (fun x => k))
  (at level 10, x pattern, m at level 200, k at level 200).

Fixpoint mapM {A B} (f : A -> M B) (xs : list A) : M (list B) :=
  match xs with
  | [] => retM []
  | x :: xs' => let! y := f x in let! ys := mapM f xs' in retM (y :: ys)
  end.

(** A [for] loop whose body returns nothing. *)
Fixpoint forM {A} (xs : list A) (f : A -> M unit) : M unit :=
  match xs with
  | [] => retM tt
  | x :: xs' => let! _ := f x in forM xs' f
  end.

Definition with_streams (w : world) (ss : list stream) : world :=
  mkWorld ss (polys w) (files w) (readonly w).

Definition with_polys (w : world) (ps : list (Polygon float)) : world :=
  mkWorld (streams w) ps (files w) (readonly w).

(** A new stream object holding [text]. *)
Definition new_stream (text : string) : M handle := fun w =>
  (Ok (length (streams w)), with_streams w (streams w ++ [mkStream text 0])).

(** [StringIO()] and [StringIO(text)] *)
Definition StringIO (text : string) : M handle := new_stream text.

(** [open(name, 'w')] *)
Definition open_w (name : string) : M handle := fun w =>
  if decide (name ∈ readonly w) then (Err OSError, w) else new_stream "" w.

(** [open(name, 'r')] *)
Definition open_r (name : string) : M handle := fun w =>
  match files w !! name with
  | Some text => new_stream text w
  | None => (Err OSError, w)
  end.

(** [f.write(text)] *)
Definition write (f : handle) (text : string) : M unit := fun w =>
  match streams w !! f with
  | None => (Err BadHandle, w)
  | Some st =>
      if closed st then (Err ClosedStream, w)
      else (Ok tt, with_streams w (<[f := mkStream (content st +:+ text) (closes st)]> (streams w)))
  end.

(** [f.read()] *)
Definition read (f : handle) : M string := fun w =>
  match streams w !! f with
  | None => (Err BadHandle, w)
  | Some st => if closed st then (Err ClosedStream, w) else (Ok (content st), w)
  end.

(** [f.close()]; closing a closed stream is allowed. *)
Definition close (f : handle) : M unit := fun w =>
  match streams w !! f with
  | None => (Err BadHandle, w)
  | Some st => (Ok tt, with_streams w (<[f := mkStream (content st) (S (closes st))]> (streams w)))
  end.

(** The polygon object behind a handle. *)
Definition get (p : handle) : M (Polygon float) := fun w =>
  match polys w !! p with
  | Some v => (Ok v, w)
  | None => (Err BadHandle, w)
  end.

(** Modelled from the spec: [Polygon(p)], the copy constructor of the
    external engine, makes a new polygon object with the contours of [p]
    (section 6: clone, a deep copy). *)
Definition clone (p : handle) : M handle := fun w =>
  match polys w !! p with
  | Some v => (Ok (length (polys w)), with_polys w (polys w ++ [v]))
  | None => (Err BadHandle, w)
  end.

(** A method of the engine that changes the polygon object in place. *)
Definition mutate (p : handle) (f : Polygon float -> Polygon float) : M unit := fun w =>
  match polys w !! p with
  | Some v => (Ok tt, with_polys w (<[p := f v]> (polys w)))
  | None => (Err BadHandle, w)
  end.

(** What a caller passes as [ofile] or [ifile]. *)
Inductive pyarg :=
  | PyNone
  | PyStr (name : string)
  | PyStream (f : handle)  (* an object with the [write] / [read] attribute *)
  | PyOther.               (* any other object *)

Definition getWritableObject (ofile : pyarg) : M (handle * bool) :=
  match ofile with
  | PyNone => let! f := StringIO "" in retM (f, false)
  | PyStr name => let! f := open_w name in retM (f, true)
  | PyStream f => retM (f, false)
  | PyOther => raise UnsupportedDestination
  end.

Definition getReadableObject (ifile : pyarg) : M (handle * bool) :=
  match ifile with
  | PyStr name => fun w =>
      match open_r name w with
      | (Ok f, w') => (Ok (f, true), w')
      | (Err _, _) => (let! f := StringIO name in retM (f, true)) w
      end
  | PyStream f => retM (f, false)
  | PyNone | PyOther => raise UnsupportedSource
  end.

End World.

(** ** The writers and the reader of [IO.py] *)

Module IO.
Import World.

(** A bounding box as the engine returns it: [(xMin, xMax, yMin, yMax)]. *)
Record bbox := mkBBox {
  bb0 : float;
  bb1 : float;
  bb2 : float;
  bb3 : float
}.

(** The methods of the external geometry engine that [IO.py] calls, as
    functions on polygon values (section 6 of the specification). *)
Class Engine := {
  flop : float -> Polygon float -> Polygon float;              (* p.flop(y) *)
  warpToBox : float -> float -> float -> float ->
              Polygon float -> Polygon float;                  (* p.warpToBox(x0, x1, y0, y1) *)
  boundingBox : Polygon float -> bbox;                         (* p.boundingBox() *)
  boundingBox_at : Polygon float -> nat -> bbox;               (* p.boundingBox(i) *)
  area : Polygon float -> float;                               (* p.area() *)
  area_at : Polygon float -> nat -> float;                     (* p.area(i) *)
  center : Polygon float -> float * float;                     (* p.center() *)
  triStrip : Polygon float -> list (list (Point float))        (* p.triStrip() *)
}.

(** A DOM node of [xml.dom.minidom]. *)
Inductive node :=
  | Element (tagName : string) (attributes : list (string * string)) (childNodes : list node)
  | Text (data : string)
  | Comment (data : string)
  | ProcessingInstruction (data : string).

Definition is_element (n : node) : bool :=
  match n with Element _ _ _ => true | _ => false end.

(** The children of the document node. *)
Definition document := list node.

(** The conversions of the Python runtime: the [%] directives and
    [str.format] on numbers, [int()] and [float()] on strings, and the
    parser of [xml.dom.minidom]. *)
Class Runtime := {
  fmt_g : float -> string;             (* '%g' % x *)
  fmt_d : float -> option string;      (* '%d' % x, which raises on NaN and infinities *)
  fmt_int : Z -> string;               (* '%d' % n for an int n *)
  fmt_str : float -> string;           (* '{0}'.format(x) *)
  py_int : string -> option Z;         (* int(s) *)
  py_float : string -> option float;   (* float(s) *)
  parseString : string -> option document
}.

(** The elements named [name] at and below [n], in document order. *)
Fixpoint elements_by_tag (name : string) (n : node) : list node :=
  match n with
  | Element t _ cs =>
      (if bool_decide (t = name) then [n] else []) ++ flat_map (elements_by_tag name) cs
  | _ => []
  end.

(** [d.getElementsByTagName(name)] *)
Definition getElementsByTagName (d : document) (name : string) : list node :=
  flat_map (elements_by_tag name) d.

Definition tagName_of (n : node) : string :=
  match n with Element t _ _ => t | _ => "" end.

Definition childNodes_of (n : node) : list node :=
  match n with Element _ _ cs => cs | _ => [] end.

(** [n.getAttribute(name)]: the empty string when the attribute is absent. *)
Definition getAttribute (n : node) (name : string) : string :=
  match n with
  | Element _ attrs _ =>
      match list_find (fun kv => kv.1 = name) attrs with
      | Some (_, kv) => kv.2
      | None => ""
      end
  | _ => ""
  end.

(** Python's truth value of a float, of an optional number and of an
    optional sequence. *)
Definition truthy (x : float) : bool := negb (x =? 0)%float.

Definition truthy_opt (x : option float) : bool :=
  match x with Some v => truthy v | None => false end.

Definition truthy_seq {A} (x : option (list A)) : bool :=
  match x with Some (_ :: _) => true | _ => false end.

(** [x or y] on floats. *)
Definition py_or (x y : float) : float := if truthy x then x else y.

(** [x / y] on floats. *)
Definition py_div (x y : float) : result float :=
  if (y =? 0)%float then Err ZeroDivisionError else Ok (x / y)%float.

(** [min(l)] and [max(l)]: the first of the smallest, of the largest. *)
Definition py_min (l : list float) : result float :=
  match l with
  | [] => Err ValueError
  | x :: r => Ok (fold_left (fun cur y => if (y <? cur)%float then y else cur) r x)
  end.

Definition py_max (l : list float) : result float :=
  match l with
  | [] => Err ValueError
  | x :: r => Ok (fold_left (fun cur y => if (cur <? y)%float then y else cur) r x)
  end.

(** The transposition [zip] makes of the bounding boxes: one list per
    component, and no list at all when there is no box. *)
Definition zip_star (bbs : list bbox) : list (list float) :=
  match bbs with
  | [] => []
  | _ => [map bb0 bbs; map bb1 bbs; map bb2 bbs; map bb3 bbs]
  end.

(** The value of an optional number where a number is needed. *)
Definition num (x : option float) : result float :=
  match x with Some v => Ok v | None => Err TypeError end.

Definition of_option {A} (e : error) (x : option A) : result A :=
  match x with Some v => Ok v | None => Err e end.

Fixpoint mapR {A B} (f : A -> result B) (xs : list A) : result (list B) :=
  match xs with
  | [] => Ok []
  | x :: xs' => y ← f x; ys ← mapR f xs'; Ok (y :: ys)
  end.

(** The characters a string literal of this file cannot hold. *)
Definition dq : string := String (Ascii.ascii_of_nat 34) EmptyString.
Definition nl : string := String (Ascii.ascii_of_nat 10) EmptyString.

(** [name="value"] *)
Definition attr (name value : string) : string := name +:+ "=" +:+ dq +:+ value +:+ dq.

Section Writers.
Context `{Engine} `{Runtime}.

(** ['%g %g' % tuple(j)] followed by [tail]. *)
Definition gnuplot_line (j : Point float) (tail : string) : string :=
  fmt_g j.1 +:+ " " +:+ fmt_g j.2 +:+ tail.

(** The body of the loop over the contours of [writeGnuplot]. *)
Definition gnuplot_contour (f : handle) (vl : list (Point float)) : M unit :=
  let! _ := forM vl (fun j => write f (gnuplot_line j nl)) in
  let! first := lift (index vl 0) in
  write f (gnuplot_line first (nl +:+ nl)).

Definition writeGnuplot (ofile : pyarg) (polylist : list handle) : M handle :=
  let! (f, cl) := getWritableObject ofile in
  let! _ := forM polylist (fun p =>
    let! v := get p in
    forM v (fun c => gnuplot_contour f (points c))) in
  let! _ := (if cl : bool then close f else retM tt) in
  retM f.

(** The text written for the triangle at [j] of the strip [vl]. *)
Definition gnuplot_triangle (vl : list (Point float)) (j : nat) : result string :=
  a ← index vl j;
  b ← index vl (j + 1);
  c ← index vl (j + 2);
  Ok (fmt_g a.1 +:+ " " +:+ fmt_g a.2 +:+ " " +:+ nl +:+ " " +:+
      fmt_g b.1 +:+ " " +:+ fmt_g b.2 +:+ " " +:+ nl +:+ " " +:+
      fmt_g c.1 +:+ " " +:+ fmt_g c.2 +:+ " " +:+ nl +:+ " " +:+
      fmt_g a.1 +:+ " " +:+ fmt_g a.2 +:+ nl +:+ nl).

Definition writeGnuplotTriangles (ofile : pyarg) (polylist : list handle) : M unit :=
  let! (f, cl) := getWritableObject ofile in
  let! _ := forM polylist (fun p =>
    let! v := get p in
    forM (triStrip v) (fun vl =>
      let! _ := forM (seq 0 (length vl - 2)) (fun j =>
        let! text := lift (gnuplot_triangle vl j) in
        write f text) in
      write f nl)) in
  let! _ := (if cl : bool then close f else retM tt) in
  close f.

(** The [xMin], [xMax], [yMin] and [yMax] attributes of a bounding box. *)
Definition xml_bbox (bb : bbox) : string :=
  " " +:+ attr "xMin" (fmt_g (bb0 bb)) +:+ " " +:+ attr "xMax" (fmt_g (bb1 bb)) +:+
  " " +:+ attr "yMin" (fmt_g (bb2 bb)) +:+ " " +:+ attr "yMax" (fmt_g (bb3 bb)).

(** The lines [writeXML] makes of the contour [c] at index [i] of [p]. *)
Definition xml_contour (p : Polygon float) (i : nat) (c : Contour float)
  : result (list string) :=
  h ← isHole p i;
  Ok (["  <contour " +:+ attr "points" (fmt_int (Z.of_nat (length (points c)))) +:+
       " " +:+ attr "isHole" (fmt_int (if h : bool then 1 else 0)) +:+
       " " +:+ attr "area" (fmt_g (area_at p i)) +:+ xml_bbox (boundingBox_at p i) +:+ ">"]
      ++ map (fun po => "    <p " +:+ attr "x" (fmt_g po.1) +:+ " " +:+
                        attr "y" (fmt_g po.2) +:+ "/>") (points c)
      ++ ["  </contour>"]).

(** The lines [l] of one polygon. *)
Definition xml_polygon (p : Polygon float) : result (list string) :=
  cs ← mapR (fun ic => xml_contour p ic.1 ic.2) (imap (fun i c => (i, c)) p);
  Ok (["<polygon " +:+ attr "contours" (fmt_int (Z.of_nat (length p))) +:+
       " " +:+ attr "area" (fmt_g (area p)) +:+ xml_bbox (boundingBox p) +:+ ">"]
      ++ concat cs ++ ["</polygon>" +:+ nl]).

Definition xml_header : string :=
  "<?xml " +:+ attr "version" "1.0" +:+ " " +:+ attr "encoding" "iso-8859-1" +:+
  " " +:+ attr "standalone" "no" +:+ "?>" +:+ nl.

Definition writeXML (ofile : pyarg) (polylist : list handle) (withHeader : bool) : M handle :=
  let! (f, cl) := getWritableObject ofile in
  let! _ := (if withHeader then write f xml_header else retM tt) in
  let! _ := forM polylist (fun p =>
    let! v := get p in
    let! l := lift (xml_polygon v) in
    write f (String.concat nl l)) in
  let! _ := (if cl : bool then close f else retM tt) in
  retM f.

(** The loop of [readXML] over the children of a contour element: the
    points read so far are [polist]. *)
Fixpoint read_points (pons : list node) (polist : list (Point float))
  : result (list (Point float)) :=
  match pons with
  | [] => Ok polist
  | pon :: pons' =>
      if negb (is_element pon) then read_points pons' polist
      else
        x ← of_option ValueError (py_float (getAttribute pon "x"));
        y ← of_option ValueError (py_float (getAttribute pon "y"));
        read_points pons' (polist ++ [(x, y)])
  end.

(** The loop of [readXML] over the children of a polygon element. *)
Fixpoint read_contours (sns : list node) (p : Polygon float) : result (Polygon float) :=
  match sns with
  | [] => Ok p
  | sn :: sns' =>
      if negb (is_element sn) then read_contours sns' p
      else if negb (bool_decide (tagName_of sn = "contour"))
      then Err (AssertionError TagIsContour)
      else
        polist ← read_points (childNodes_of sn) [];
        n ← of_option ValueError (py_int (getAttribute sn "points"));
        if negb (n =? Z.of_nat (length polist)) then Err (AssertionError PointsDeclared)
        else
          h ← of_option ValueError (py_int (getAttribute sn "isHole"));
          read_contours sns' (addContour p polist (negb (h =? 0)))
  end.

(** The body of the loop of [readXML] over the polygon elements. *)
Definition read_polygon (pn : node) : result (Polygon float) :=
  p ← read_contours (childNodes_of pn) new_polygon;
  n ← of_option ValueError (py_int (getAttribute pn "contours"));
  if negb (n =? Z.of_nat (length p)) then Err (AssertionError ContoursDeclared)
  else Ok p.

(** The polygons of a parsed document. *)
Definition read_document (d : document) : result (list (Polygon float)) :=
  mapR read_polygon (getElementsByTagName d "polygon").

Definition readXML (ifile : pyarg) : M (list (Polygon float)) :=
  let! (f, cl) := getReadableObject ifile in
  let! text := read f in
  let! d := lift (of_option ParseError (parseString text)) in
  let! _ := (if cl : bool then close f else retM tt) in
  lift (read_document d).

(** *** The layout shared by [writeSVG] and [writePDF] *)

(** The clones, their bounding boxes and the aggregate extent: lines
    227-236 of [writeSVG] and, without the flop, lines 386-394 of
    [writePDF]. *)
Record layout_result := mkLayout {
  pp : list handle;
  bbs : list bbox;
  minx : float;
  miny : float;
  xdim : float;
  ydim : float
}.

Definition layout (flip : bool) (polylist : list handle) : M layout_result :=
  let! pp := mapM clone polylist in
  let! _ := (if flip then forM pp (fun p => mutate p (flop 0)) else retM tt) in
  let! bbs := mapM (fun p => let! v := get p in retM (boundingBox v)) pp in
  let bbs2 := zip_star bbs in
  let! minx := lift (c ← index bbs2 0; py_min c) in
  let! maxx := lift (c ← index bbs2 1; py_max c) in
  let! miny := lift (c ← index bbs2 2; py_min c) in
  let! maxy := lift (c ← index bbs2 3; py_max c) in
  let xdim := (maxx - minx)%float in
  let ydim := (maxy - miny)%float in
  retM (mkLayout pp bbs minx miny xdim ydim).

(** [if not (xdim or ydim): raise Error(...)] *)
Definition check_extent (lay : layout_result) : result unit :=
  if negb (truthy (py_or (xdim lay) (ydim lay))) then Err DegenerateExtent else Ok tt.

(** [p.warpToBox(...)] on the clone at index [i]: the four bounds are
    evaluated from left to right. *)
Definition warp (lay : layout_result) (width height : float) (i : nat) : M handle :=
  let! p := lift (index (pp lay) i) in
  let! bb := lift (index (bbs lay) i) in
  let! x0 := lift (py_div (width * (bb0 bb - minx lay)) (xdim lay)) in
  let! x1 := lift (py_div (width * (bb1 bb - minx lay)) (xdim lay)) in
  let! y0 := lift (py_div (height * (bb2 bb - miny lay)) (ydim lay)) in
  let! y1 := lift (py_div (height * (bb3 bb - miny lay)) (ydim lay)) in
  let! _ := mutate p (warpToBox x0 x1 y0 y1) in
  retM p.

(** *** [writeSVG] *)

(** Lines 240-248: the width and the height after the defaults. *)
Definition svg_size (a : float) (width height : option float)
  : result (option float * option float) :=
  let wh : option float * option float :=
    if negb (truthy_opt width) && negb (truthy_opt height)
    then (if (a <? 1)%float then (Some 300%float, height) else (width, Some 300%float))
    else (width, height) in
  height ← (if truthy_opt wh.1 && negb (truthy_opt wh.2)
            then w ← num wh.1; Ok (Some (w * a)%float)
            else Ok wh.2);
  width ← (if truthy_opt height && negb (truthy_opt wh.1)
           then h ← num height; q ← py_div h a; Ok (Some q)
           else Ok wh.1);
  Ok (width, height).

(** What the label arguments become: the labels in use, [str_dy] and
    [str_anchor]. *)
Record label_setup := mkLabels {
  labels_used : option (list string);
  str_dy : string;
  str_anchor : string
}.

(** Lines 250-263. *)
Definition svg_labels (npoly : nat) (labels : option (list string))
    (labels_coords : option (list (Point float))) (labels_centered : bool)
  : result label_setup :=
  if truthy_seq labels then
    let nlabels := length (default [] labels) in
    if Nat.eqb nlabels 0 then Ok (mkLabels None "" "")
    else if negb (Nat.eqb nlabels npoly) then Err LabelCountMismatch
    else if truthy_seq labels_coords
            && negb (Nat.eqb (length (default [] labels_coords)) nlabels)
    then Err LabelCoordMismatch
    else if labels_centered
    then Ok (mkLabels labels (attr "dy" "0.3em" +:+ " ")
                      "text-anchor:middle;text-align:center")
    else Ok (mkLabels labels "" "")
  else Ok (mkLabels labels "" "").

(** A style value is kept as the text [str()] makes of it, which is all
    [writeSVG] uses of it. *)
Definition default_colors : list string :=
  ["(27, 158, 119)"; "(217, 95, 2)"; "(117, 112, 179)"; "(231, 41, 138)";
   "(102, 166, 30)"; "(230, 171, 2)"; "(166, 118, 29)"; "(102, 102, 102)"].

(** [seq or fallback] *)
Definition seq_or {A} (x : option (list A)) (fallback : list A) : list A :=
  if truthy_seq x then default [] x else fallback.

(** The four cyclers of [writeSVG]. *)
Record cyclers := mkCyclers {
  fill_color : RingBuffer.__RingBuffer string;
  fill_opacity : RingBuffer.__RingBuffer string;
  stroke_color : RingBuffer.__RingBuffer string;
  stroke_width : RingBuffer.__RingBuffer string
}.

(** ['M %g, %g %s z '] for the contour [c]. *)
Definition svg_subpath (c : Contour float) : result string :=
  c0 ← index (points c) 0;
  Ok ("M " +:+ fmt_g c0.1 +:+ ", " +:+ fmt_g c0.2 +:+ " " +:+
      String.concat " " (map (fun ab => "L " +:+ fmt_g ab.1 +:+ ", " +:+ fmt_g ab.2)
                             (drop 1 (points c))) +:+ " z ").

(** The [<text>] element of a label. *)
Definition label_svg (coord_x coord_y : float) (lab : label_setup) (text : string) : string :=
  "<text " +:+ attr "x" (fmt_str coord_x) +:+ " " +:+ attr "y" (fmt_str coord_y) +:+ " " +:+
  str_dy lab +:+ attr "style" ("font-size:10px;fill:black;font-family:Sans;" +:+ str_anchor lab)
  +:+ ">" +:+ text +:+ "</text>".

(** Where the label of the polygon at index [i] goes: lines 283-289. *)
Definition label_anchor (lay : layout_result) (width height : float)
    (labels_coords : option (list (Point float))) (i : nat) (warped : Polygon float)
  : result (float * float) :=
  if truthy_seq labels_coords then
    lc ← index (default [] labels_coords) i;
    coord_x ← py_div (width * (lc.1 - minx lay)) (xdim lay);
    coord_y ← py_div (height * (lc.2 - miny lay)) (ydim lay);
    Ok (coord_x, coord_y)
  else Ok (center warped).

(** The body of the loop over [range(npoly)]: lines 273-296.  [st] holds
    the cyclers and the lines [s] made so far. *)
Definition svg_polygon (lay : layout_result) (width height : float) (lab : label_setup)
    (labels_coords : option (list (Point float)))
    (st : cyclers * list string) (i : nat) : M (cyclers * list string) :=
  let! p := warp lay width height i in
  let! (fc, fill_color) := lift (RingBuffer.__call__ (fill_color st.1)) in
  let! (fo, fill_opacity) := lift (RingBuffer.__call__ (fill_opacity st.1)) in
  let! (sc, stroke_color) := lift (RingBuffer.__call__ (stroke_color st.1)) in
  let! (sw, stroke_width) := lift (RingBuffer.__call__ (stroke_width st.1)) in
  let rings := mkCyclers fill_color fill_opacity stroke_color stroke_width in
  let! v := get p in
  let! subpaths := lift (mapR svg_subpath v) in
  let subl :=
    ["<path style=" +:+ dq +:+ "fill:rgb" +:+ fc +:+ ";fill-opacity:" +:+ fo +:+
     ";fill-rule:evenodd;stroke:rgb" +:+ sc +:+ ";stroke-width:" +:+ sw +:+ ";" +:+ dq +:+
     " d=" +:+ dq] ++ subpaths ++ [dq +:+ "/>"] in
  if truthy_seq (labels_used lab) then
    let! xy := lift (label_anchor lay width height labels_coords i v) in
    let! text := lift (index (default [] (labels_used lab)) i) in
    retM (rings, st.2 ++ ["<g>"; String.concat "" subl; label_svg xy.1 xy.2 lab text; "</g>"])
  else retM (rings, st.2 ++ [String.concat "" subl]).

Fixpoint svg_polygons (lay : layout_result) (width height : float) (lab : label_setup)
    (labels_coords : option (list (Point float)))
    (st : cyclers * list string) (range : list nat) : M (cyclers * list string) :=
  match range with
  | [] => retM st
  | i :: range' =>
      let! st' := svg_polygon lay width height lab labels_coords st i in
      svg_polygons lay width height lab labels_coords st' range'
  end.

(** The first three lines of the document. *)
Definition svg_head (width height : option float) : result (list string) :=
  w ← num width;
  wd ← of_option FormatError (fmt_d w);
  h ← num height;
  hd ← of_option FormatError (fmt_d h);
  Ok ["<?xml " +:+ attr "version" "1.0" +:+ " " +:+ attr "encoding" "iso-8859-1" +:+
      " " +:+ attr "standalone" "no" +:+ "?>";
      "<!DOCTYPE svg PUBLIC " +:+ dq +:+ "-//W3C//DTD SVG 1.0//EN" +:+ dq +:+ " " +:+
      dq +:+ "http://www.w3.org/TR/2001/REC-SVG-20010904/DTD/svg10.dtd" +:+ dq +:+ ">";
      "<svg " +:+ attr "xmlns" "http://www.w3.org/2000/svg" +:+ " " +:+
      attr "width" wd +:+ " " +:+ attr "height" hd +:+ ">"].

(** What lines 226-248 of [writeSVG] establish: the stream and its
    ownership, the layout, and the size of the drawing. *)
Record svg_setup_result := mkSetup {
  su_f : handle;
  su_cl : bool;
  su_lay : layout_result;
  su_width : option float;
  su_height : option float
}.

Definition svg_setup (ofile : pyarg) (polylist : list handle) (width height : option float)
  : M svg_setup_result :=
  let! (f, cl) := getWritableObject ofile in
  let! lay := layout true polylist in
  let! _ := lift (check_extent lay) in
  let! a := lift (py_div (ydim lay) (xdim lay)) in
  let! (width, height) := lift (svg_size a width height) in
  retM (mkSetup f cl lay width height).

(** Lines 264-300: the cyclers, the document, the write and the release
    of the stream. *)
Definition svg_body (su : svg_setup_result) (lab : label_setup)
    (fill_color fill_opacity stroke_color stroke_width : option (list string))
    (labels_coords : option (list (Point float))) : M handle :=
  let npoly := length (pp (su_lay su)) in
  let rings := mkCyclers
    (RingBuffer.__init__ (seq_or fill_color default_colors))
    (RingBuffer.__init__ (seq_or fill_opacity ["1.0"]))
    (RingBuffer.__init__ (seq_or stroke_color ["(0, 0, 0)"]))
    (RingBuffer.__init__ (seq_or stroke_width ["1.0"])) in
  let! s := lift (svg_head (su_width su) (su_height su)) in
  let! w := lift (num (su_width su)) in
  let! h := lift (num (su_height su)) in
  let! (_, s) := svg_polygons (su_lay su) w h lab labels_coords (rings, s) (seq 0 npoly) in
  let s := s ++ ["</svg>"] in
  let! _ := write (su_f su) (String.concat nl s) in
  let! _ := (if su_cl su then close (su_f su) else retM tt) in
  retM (su_f su).

Definition writeSVG (ofile : pyarg) (polylist : list handle)
    (width height : option float)
    (fill_color fill_opacity stroke_color stroke_width : option (list string))
    (labels : option (list string)) (labels_coords : option (list (Point float)))
    (labels_centered : bool) : M handle :=
  let! su := svg_setup ofile polylist width height in
  let npoly := length (pp (su_lay su)) in
  let! lab := lift (svg_labels npoly labels labels_coords labels_centered) in
  svg_body su lab fill_color fill_opacity stroke_color stroke_width labels_coords.

(** *** [writePDF] *)

(** The calls made on the [reportlab] canvas and on its paths, in order;
    the canvas itself is outside this repository. *)
Inductive path_op :=
  | MoveTo (x y : float)
  | LineTo (x y : float)
  | ClosePath.

Inductive canvas_op :=
  | NewCanvas (ofile : pyarg) (pagesize : float * float)
  | SetLineWidth (w : float)
  | SetFillColor (c : string)
  | DrawPath (p : list path_op)
  | ShowPage
  | Save.

(** [reportlab.lib.pagesizes.A4], in points. *)
Definition A4 : float * float :=
  let mm := (72 / 2.54 * 0.1)%float in ((210 * mm)%float, (297 * mm)%float).

(** The path drawn for one contour. *)
Definition pdf_path (c : Contour float) : result canvas_op :=
  c0 ← index (points c) 0;
  Ok (DrawPath ([MoveTo c0.1 c0.2] ++ map (fun ab => LineTo ab.1 ab.2) (drop 1 (points c))
                ++ [ClosePath])).

(** [[poly[i] for i in range(len(poly)) if test(i)]] *)
Definition contours_where (test : Polygon float -> nat -> result bool) (poly : Polygon float)
  : result (list (Contour float)) :=
  r ← mapR (fun i => b ← test poly i; c ← index poly i; Ok (b, c)) (seq 0 (length poly));
  Ok (map snd (filter (fun bc => fst bc = true) r)).

(** The body of the loop over the warped clones: the solid contours in
    the next colour, then the holes in white. *)
Definition pdf_polygon (st : RingBuffer.__RingBuffer string * list canvas_op) (poly : handle)
  : M (RingBuffer.__RingBuffer string * list canvas_op) :=
  let! v := get poly in
  let! solids := lift (contours_where isSolid v) in
  let! (col, ring) := lift (RingBuffer.__call__ st.1) in
  let! ps := lift (mapR pdf_path solids) in
  let! holes := lift (contours_where isHole v) in
  let! hs := lift (mapR pdf_path holes) in
  retM (ring, st.2 ++ [SetFillColor col] ++ ps ++ [SetFillColor "white"] ++ hs).

Fixpoint pdf_polygons (st : RingBuffer.__RingBuffer string * list canvas_op)
    (polys : list handle) : M (RingBuffer.__RingBuffer string * list canvas_op) :=
  match polys with
  | [] => retM st
  | poly :: polys' => let! st' := pdf_polygon st poly in pdf_polygons st' polys'
  end.

(** [writePDF]; the result is what the canvas was asked to do. *)
Definition writePDF (ofile : pyarg) (polylist : list handle)
    (pagesize : option (float * float)) (linewidth : float)
    (fill_color : option (list string)) : M (list canvas_op) :=
  let pagesize := default A4 pagesize in
  let can := [NewCanvas ofile pagesize; SetLineWidth linewidth] in
  let! lay := layout false polylist in
  let! _ := lift (check_extent lay) in
  let! a := lift (py_div (ydim lay) (xdim lay)) in
  let width := pagesize.1 in
  let height := pagesize.2 in
  let! r := lift (py_div height width) in
  let! wh := lift (if (r <? a)%float
                   then w ← py_div height a; Ok (w, height)
                   else Ok (width, (width * a)%float)) in
  let npoly := length (pp lay) in
  let ring := RingBuffer.__init__ (seq_or fill_color ["red"; "green"; "blue"; "yellow"]) in
  let! _ := forM (seq 0 npoly) (fun i => let! _ := warp lay wh.1 wh.2 i in retM tt) in
  let! (_, can) := pdf_polygons (ring, can) (pp lay) in
  retM (can ++ [ShowPage; Save]).

End Writers.

End IO.

(** ** An engine and a runtime to run the model on *)

Module Demo.
Import World IO.

Open Scope float_scope.

Definition fmin (x y : float) : float := if y <? x then y else x.
Definition fmax (x y : float) : float := if x <? y then y else x.

(** Modelled from the spec: the geometry engine [Polygon.cPolygon] is not
    among the sources; section 6 of the specification names what it
    offers.  The bounding box is the smallest axis-aligned rectangle
    around the points, [flop] mirrors the y coordinates around a line,
    [warpToBox] maps the bounding box onto a target rectangle axis by
    axis, the area is the shoelace sum with holes counted negative, the
    centre is the area-weighted centroid, and a triangle strip is made of
    each contour's points. *)
Definition box_of (pts : list (Point float)) : bbox :=
  match pts with
  | [] => mkBBox 0 0 0 0
  | (x, y) :: r =>
      fold_left (fun bb xy => mkBBox (fmin (bb0 bb) xy.1) (fmax (bb1 bb) xy.1)
                                     (fmin (bb2 bb) xy.2) (fmax (bb3 bb) xy.2))
                r (mkBBox x x y y)
  end.

Definition map_points (f : Point float -> Point float) (p : Polygon float) : Polygon float :=
  map (fun c => mkContour (map f (points c)) (hole c)) p.

Definition demo_boundingBox (p : Polygon float) : bbox :=
  box_of (flat_map points p).

Definition demo_flop (y : float) (p : Polygon float) : Polygon float :=
  map_points (fun xy => (xy.1, 2 * y - xy.2)) p.

Definition demo_warpToBox (x0 x1 y0 y1 : float) (p : Polygon float) : Polygon float :=
  let bb := demo_boundingBox p in
  let xscale := if bb0 bb <? bb1 bb then (x1 - x0) / (bb1 bb - bb0 bb) else 1 in
  let yscale := if bb2 bb <? bb3 bb then (y1 - y0) / (bb3 bb - bb2 bb) else 1 in
  map_points (fun xy => (x0 + (xy.1 - bb0 bb) * xscale, y0 + (xy.2 - bb2 bb) * yscale)) p.

(** Twice the signed area of a closed polyline, and the sums its centroid
    is made of. *)
Fixpoint shoelace (first : Point float) (pts : list (Point float)) : float * float * float :=
  match pts with
  | [] => (0, 0, 0)
  | a :: r =>
      let b := match r with [] => first | b :: _ => b end in
      let cross := a.1 * b.2 - b.1 * a.2 in
      let '(s, cx, cy) := shoelace first r in
      (s + cross, cx + (a.1 + b.1) * cross, cy + (a.2 + b.2) * cross)
  end.

Definition contour_sums (c : Contour float) : float * float * float :=
  match points c with
  | [] => (0, 0, 0)
  | first :: _ =>
      let '(s, cx, cy) := shoelace first (points c) in
      let sign := if s <? 0 then -1 else 1 in
      let sign := if hole c then - sign else sign in
      (sign * s / 2, sign * cx / 6, sign * cy / 6)
  end.

Definition polygon_sums (p : Polygon float) : float * float * float :=
  fold_left (fun acc c =>
               let '(a, x, y) := acc in
               let '(a', x', y') := contour_sums c in
               (a + a', x + x', y + y')) p (0, 0, 0).

Definition demo_area (p : Polygon float) : float := (polygon_sums p).1.1.

Definition demo_center (p : Polygon float) : float * float :=
  let '(a, x, y) := polygon_sums p in (x / a, y / a).

Definition nth_contour (p : Polygon float) (i : nat) : Polygon float :=
  match p !! i with Some c => [c] | None => [] end.

#[export] Instance demo_engine : Engine := {|
  flop := demo_flop;
  warpToBox := demo_warpToBox;
  boundingBox := demo_boundingBox;
  boundingBox_at p i := demo_boundingBox (nth_contour p i);
  area := demo_area;
  area_at p i := demo_area (nth_contour p i);
  center := demo_center;
  triStrip p := map points p
|}.

Close Scope float_scope.

(** The number a finite float stands for, as [(negative, n, d)] with
    value [n / d]. *)
Definition exact (x : float) : option (bool * Z * Z) :=
  match Prim2SF x with
  | S754_zero sg => Some (sg, 0, 1)
  | S754_finite sg m e =>
      if 0 <=? e then Some (sg, Z.pos m * 2 ^ e, 1) else Some (sg, Z.pos m, 2 ^ (- e))
  | _ => None
  end.

(** A float as an integer, rounded towards zero. *)
Definition trunc (x : float) : option Z :=
  '(sg, n, d) ← exact x;
  Some (if sg : bool then - (n / d) else n / d).

(** The float nearest to an integer below [2^63] in magnitude. *)
Definition float_of_Z (z : Z) : float :=
  let m := PrimFloat.of_uint63 (Uint63.of_Z (Z.abs z)) in
  if z <? 0 then (- m)%float else m.

(** [n / d] rounded to the nearest integer, ties to even. *)
Definition round_div (n d : Z) : Z :=
  let q := n / d in
  let r := n mod d in
  if 2 * r <? d then q
  else if d <? 2 * r then q + 1
  else if Z.even q then q else q + 1.

(** [n / d * 10 ^ k] rounded. *)
Definition scaled (n d k : Z) : Z :=
  if 0 <=? k then round_div (n * 10 ^ k) d else round_div n (d * 10 ^ (- k)).

(** Whether [n / d * 10 ^ k] is an integer. *)
Definition is_exact (n d k : Z) : bool :=
  if 0 <=? k then scaled n d k * d =? n * 10 ^ k
  else scaled n d k * (d * 10 ^ (- k)) =? n.

(** The largest [E] with [10 ^ E <= n / d], for [n, d > 0]. *)
Definition decimal_exponent (n d : Z) : Z :=
  let e0 := (Z.log2 n - Z.log2 d) * 30103 / 100000 - 2 in
  let fits E := if 0 <=? E then 10 ^ E * d <=? n else d <=? n * 10 ^ (- E) in
  fold_left (fun E _ => if fits (E + 1) then E + 1 else E) (seq 0 6) e0.

(** The digits of [v] after the point, [k] of them, without the zeros at
    the end. *)
Fixpoint strip_zeros (k : nat) (v : Z) : string :=
  match k with
  | O => ""
  | S k' =>
      if v mod 10 ^ Z.of_nat k =? 0 then ""
      else pretty (v / 10 ^ Z.of_nat k' mod 10) +:+ strip_zeros k' v
  end.

Definition with_fraction (int_part : Z) (k : nat) (v : Z) : string :=
  let frac := strip_zeros k v in
  pretty int_part +:+ (if bool_decide (frac = "") then "" else "." +:+ frac).

(** A positive [n / d] with [prec] significant digits, in the manner of
    ['%g']: fixed notation while the exponent is in [[-4, upper)]. *)
Definition significant (prec upper : Z) (n d : Z) : string :=
  let E0 := decimal_exponent n d in
  let D0 := scaled n d (prec - 1 - E0) in
  let E := if 10 ^ prec <=? D0 then E0 + 1 else E0 in
  let D := if 10 ^ prec <=? D0 then 10 ^ (prec - 1) else D0 in
  if (-4 <=? E) && (E <? upper) then
    if prec - 1 <=? E then pretty (D * 10 ^ (E - (prec - 1)))
    else let k := prec - 1 - E in with_fraction (D / 10 ^ k) (Z.to_nat k) (D mod 10 ^ k)
  else
    with_fraction (D / 10 ^ (prec - 1)) (Z.to_nat (prec - 1)) (D mod 10 ^ (prec - 1))
    +:+ "e" +:+ (if E <? 0 then "-" else "+")
    +:+ (if Z.abs E <? 10 then "0" else "") +:+ pretty (Z.abs E).

Definition special (x : float) : string :=
  if PrimFloat.is_nan x then "nan"
  else if (x <? 0)%float then "-inf" else "inf".

(** ['%g' % x] *)
Definition demo_fmt_g (x : float) : string :=
  match exact x with
  | None => special x
  | Some (sg, n, d) =>
      (if sg : bool then "-" else "") +:+ (if n =? 0 then "0" else significant 6 6 n d)
  end.

(** ['%d' % x] *)
Definition demo_fmt_d (x : float) : option string := pretty <$> trunc x.

(** [str(x)]: exact for the values a short decimal denotes, seventeen
    digits for the others, where Python prints the shortest decimal that
    reads back as [x]. *)
Definition demo_fmt_str (x : float) : string :=
  match exact x with
  | None => special x
  | Some (sg, n, d) =>
      let prec :=
        if n =? 0 then 1
        else
          let E := decimal_exponent n d in
          default 17 (head (filter (fun p => is_exact n d (p - 1 - E) = true)
                                   (map Z.of_nat (seq 1 17)))) in
      let body := if n =? 0 then "0" else significant prec 16 n d in
      (if sg : bool then "-" else "") +:+ body +:+
      (if existsb (fun c => bool_decide (c = "."%char) || bool_decide (c = "e"%char))
                  (String.list_ascii_of_string body) then "" else ".0")
  end.

(** The value of a string of decimal digits. *)
Definition digits (cs : list ascii) : option Z :=
  if bool_decide (cs = []) then None
  else fold_left (fun acc c =>
                    a ← acc;
                    let v := Z.of_nat (Ascii.nat_of_ascii c) - 48 in
                    if (0 <=? v) && (v <=? 9) then Some (a * 10 + v) else None)
                 cs (Some 0).

Definition signed (cs : list ascii) : bool * list ascii :=
  match cs with
  | "-"%char :: r => (true, r)
  | "+"%char :: r => (false, r)
  | _ => (false, cs)
  end.

(** [int(s)] on an optional sign and decimal digits. *)
Definition demo_int (s : string) : option Z :=
  let '(neg, cs) := signed (String.list_ascii_of_string s) in
  v ← digits cs;
  Some (if neg : bool then - v else v).

(** The characters before the first point and, if there is one, those
    after it. *)
Fixpoint split_point (cs : list ascii) : list ascii * option (list ascii) :=
  match cs with
  | [] => ([], None)
  | c :: r =>
      if bool_decide (c = "."%char) then ([], Some r)
      else let '(a, b) := split_point r in (c :: a, b)
  end.

(** [float(s)] on an optional sign, decimal digits and an optional
    fraction. *)
Definition demo_float (s : string) : option float :=
  let '(neg, cs) := signed (String.list_ascii_of_string s) in
  let '(int_part, frac) := split_point cs in
  n ← digits (int_part ++ default [] frac);
  let v := (float_of_Z n / float_of_Z (10 ^ Z.of_nat (length (default [] frac))))%float in
  Some (if neg : bool then (- v)%float else v).

(** The text of a DOM tree. *)
Fixpoint node_xml (n : node) : string :=
  match n with
  | Element t attrs cs =>
      "<" +:+ t +:+ String.concat "" (map (fun kv => " " +:+ attr kv.1 kv.2) attrs) +:+
      match cs with
      | [] => "/>"
      | _ => ">" +:+ String.concat "" (map node_xml cs) +:+ "</" +:+ t +:+ ">"
      end
  | Text data => data
  | Comment data => "<!--" +:+ data +:+ "-->"
  | ProcessingInstruction data => "<?" +:+ data +:+ "?>"
  end.

Definition document_xml (d : document) : string := String.concat "" (map node_xml d).

(** A runtime whose XML parser reads the texts of the documents [known]
    back and rejects every other text. *)
Definition demo_runtime (known : list document) : Runtime := {|
  fmt_g := demo_fmt_g;
  fmt_d := demo_fmt_d;
  fmt_int := pretty;
  fmt_str := demo_fmt_str;
  py_int := demo_int;
  py_float := demo_float;
  parseString text := head (filter (fun d => document_xml d = text) known)
|}.

End Demo.

(** * The properties of the specification *)

Import World IO.

(** ** The binary codec *)

(** The polygons of the data model (section 3 of the specification): a
    contour has at least one point, a coordinate is a 64-bit double, and
    the counts are C [int]s, which the 32-bit fields of the wire format
    hold. *)
Definition valid_contour (c : Contour double) : Prop :=
  (1 <= Z.of_nat (length (points c)) < 2 ^ 31)%Z /\
  Forall (fun a => is_double a.1 /\ is_double a.2) (points c).

Definition valid_polygon (p : Polygon double) : Prop :=
  (Z.of_nat (length p) < 2 ^ 32)%Z /\ Forall valid_contour p.

(** What decoding makes of any encoded contour: the low 64 bits of each
    coordinate, and no hole flag on a contour without points, whose
    signed count is zero. *)
Definition wrap64 (d : double) : double := (d mod 2 ^ 64)%Z.

Definition decoded (c : Contour double) : Contour double :=
  mkContour (map (fun a => (wrap64 a.1, wrap64 a.2)) (points c))
            (hole c && negb (Nat.eqb (length (points c)) 0)).

(** ** Streams and polygon objects across a call *)

(** The number of [close()] calls the stream [f] has received. *)
Definition closes_of (w : world) (f : handle) : nat :=
  match streams w !! f with Some st => closes st | None => 0%nat end.

(** [m] starts where [P] holds and ends normally with [Q] or by an
    exception with [E]. *)
Definition hoare {A} (P : world -> Prop) (m : M A) (Q : A -> world -> Prop)
    (E : world -> Prop) : Prop :=
  forall w, P w ->
    match m w with
    | (Ok a, w') => Q a w'
    | (Err _, w') => E w'
    end.

(** [m] keeps the invariant [I] on every exit and returns values in [Q]. *)
Definition keeps {A} (I : world -> Prop) (m : M A) (Q : A -> Prop) : Prop :=
  hoare I m (fun a w => I w /\ Q a) I.

(** What a call may have done to the objects that were there at [w0]:
    closed only streams in [C], and changed no polygon object. *)
Record inv (w0 : world) (C : handle -> Prop) (w : world) : Prop := mkInv {
  inv_closes : forall h, ~ C h -> closes_of w h = closes_of w0 h;
  inv_streams : (length (streams w0) <= length (streams w))%nat;
  inv_length : (length (polys w0) <= length (polys w))%nat;
  inv_polys : forall h, (h < length (polys w0))%nat -> polys w !! h = polys w0 !! h
}.

(** The resolved stream, if it is owned, and nothing else. *)
Definition only_owned (f : handle) (cl : bool) : handle -> Prop :=
  fun h => cl = true /\ h = f.

(** The exit [r] of a call that started at [w0] with the stream [f]
    resolved and the ownership flag [cl]: nothing but an owned [f] was
    closed, no polygon object changed, and after a normal return [f] has
    been closed exactly when it is owned. *)
Definition scoped {A} (w0 : world) (f : handle) (cl : bool) (r : result A * world) : Prop :=
  inv w0 (only_owned f cl) r.2 /\
  (is_ok r.1 = true -> closes_of r.2 f = (closes_of w0 f + (if cl then 1 else 0))%nat).

(** An exit by an exception has not closed [f], owned or not. *)
Definition unreleased {A} (w0 : world) (f : handle) (r : result A * world) : Prop :=
  is_ok r.1 = false -> closes_of r.2 f = closes_of w0 f.

(** The errors of a fallible value, and of a computation, lie in [S]. *)
Definition fails_in {A} (S : error -> Prop) (r : result A) : Prop :=
  forall e, r = Err e -> S e.

Definition raises {A} (S : error -> Prop) (m : M A) : Prop :=
  forall w, fails_in S (m w).1.

(** A computation that never returns normally. *)
Definition fails {A} (m : M A) : Prop := forall w, is_ok (m w).1 = false.

(** The exceptions of the Python runtime and of the object store, as
    opposed to the [raise] statements and the assertions of [IO.py]. *)
Definition runtime_error (e : error) : bool :=
  match e with
  | IndexError | ZeroDivisionError | TypeError | FormatError | ValueError
  | BadHandle | ClosedStream => true
  | _ => false
  end.

Definition label_error (e : error) : Prop :=
  e = LabelCountMismatch \/ e = LabelCoordMismatch.

(** [x == 0] on floats: both zeros, and no NaN. *)
Definition is_zero (x : float) : bool := (x =? 0)%float.

Section Operations.
Context `{Engine} `{Runtime}.

(** The writers and the reader built on the stream resolvers, with all
    their arguments but the stream. *)
Inductive operation :=
  | WriteGnuplot (polylist : list handle)
  | WriteGnuplotTriangles (polylist : list handle)
  | WriteSVG (polylist : list handle) (width height : option float)
      (fill_color fill_opacity stroke_color stroke_width labels : option (list string))
      (labels_coords : option (list (Point float))) (labels_centered : bool)
  | WriteXML (polylist : list handle) (withHeader : bool)
  | ReadXML.

(** The resolver an operation calls on its first argument. *)
Definition resolve (o : operation) : pyarg -> M (handle * bool) :=
  match o with
  | ReadXML => getReadableObject
  | _ => getWritableObject
  end.

(** The operation on the argument [arg], its value dropped. *)
Definition run (o : operation) (arg : pyarg) : M unit :=
  match o with
  | WriteGnuplot polylist => let! _ := writeGnuplot arg polylist in retM tt
  | WriteGnuplotTriangles polylist => writeGnuplotTriangles arg polylist
  | WriteSVG polylist width height fc fo sc sw labels labels_coords labels_centered =>
      let! _ := writeSVG arg polylist width height fc fo sc sw labels labels_coords
                         labels_centered in retM tt
  | WriteXML polylist withHeader => let! _ := writeXML arg polylist withHeader in retM tt
  | ReadXML => let! _ := readXML arg in retM tt
  end.

Definition is_triangles (o : operation) : bool :=
  match o with WriteGnuplotTriangles _ => true | _ => false end.

Definition is_reader (o : operation) : bool :=
  match o with ReadXML => true | _ => false end.

(** At the exit of [o], normal or not, the resolved stream has been
    closed by [o] if and only if the resolver marked it owned. *)
Definition closed_iff_owned (o : operation) (arg : pyarg) (w : world) : Prop :=
  forall f cl w1, resolve o arg w = (Ok (f, cl), w1) ->
    closes_of (run o arg w).2 f = (closes_of w f + (if cl : bool then 1 else 0))%nat.

End Operations.

(** ** The extent and the labels of [writeSVG] *)

(** The extent rule as the specification words it: [DegenerateExtent]
    exactly when both extents are zero, and a normal return when exactly
    one is. *)
Definition extent_rule (xdim ydim : float) (r : result handle) : Prop :=
  (r = Err DegenerateExtent <-> is_zero xdim = true /\ is_zero ydim = true) /\
  (is_zero xdim <> is_zero ydim -> is_ok r = true).

(** The label rule as the specification words it: supplied labels match
    the polygons in number, supplied coordinates match the labels. *)
Definition labels_rule (npoly : nat) (labels : option (list string))
    (labels_coords : option (list (Point float))) (r : result handle) : Prop :=
  (forall ls, labels = Some ls -> length ls <> npoly -> r = Err LabelCountMismatch) /\
  (forall ls cs, labels = Some ls -> labels_coords = Some cs ->
     length cs <> length ls -> r = Err LabelCoordMismatch).

(** ** The declared counts of an XML document *)

Section XmlProperties.
Context `{Runtime}.

(** The element children among [ns]: the nodes [readXML] does not skip. *)
Definition elements (ns : list node) : list node := List.filter is_element ns.

(** The attribute [name] of [n] is the number [k]. *)
Definition declares (n : node) (name : string) (k : nat) : bool :=
  match py_int (getAttribute n name) with
  | Some z => (z =? Z.of_nat k)%Z
  | None => false
  end.

Definition points_agree (sn : node) : bool :=
  declares sn "points" (length (elements (childNodes_of sn))).

Definition contours_agree (pn : node) : bool :=
  declares pn "contours" (length (elements (childNodes_of pn))).

Definition polygon_agrees (pn : node) : bool :=
  contours_agree pn && forallb points_agree (elements (childNodes_of pn)).

(** Every count the document declares is the count of what is read. *)
Definition counts_agree (d : document) : bool :=
  forallb polygon_agrees (getElementsByTagName d "polygon").

(** An element child of a polygon element that is not a contour. *)
Definition foreign (sn : node) : bool :=
  is_element sn && negb (bool_decide (tagName_of sn = "contour")).

Definition has_foreign (d : document) : bool :=
  existsb (fun pn => existsb foreign (childNodes_of pn)) (getElementsByTagName d "polygon").

(** The numbers the reader converts are well-formed literals. *)
Definition numeric_point (pon : node) : bool :=
  bool_decide (is_Some (py_float (getAttribute pon "x")))
  && bool_decide (is_Some (py_float (getAttribute pon "y"))).

Definition numeric_contour (sn : node) : bool :=
  if bool_decide (tagName_of sn = "contour") then
    bool_decide (is_Some (py_int (getAttribute sn "points")))
    && bool_decide (is_Some (py_int (getAttribute sn "isHole")))
    && forallb numeric_point (elements (childNodes_of sn))
  else true.

Definition numeric_polygon (pn : node) : bool :=
  bool_decide (is_Some (py_int (getAttribute pn "contours")))
  && forallb numeric_contour (elements (childNodes_of pn)).

Definition numeric (d : document) : bool :=
  forallb numeric_polygon (getElementsByTagName d "polygon").

(** How the loop over the children of a polygon element ends, started
    with [n0] contours. *)
Definition contours_outcome (sns : list node) (n0 : nat) (r : result (Polygon float)) : Prop :=
  match r with
  | Ok p =>
      length p = (n0 + length (elements sns))%nat /\
      forallb points_agree (elements sns) = true /\ existsb foreign sns = false
  | Err e =>
      (e = AssertionError TagIsContour /\ existsb foreign sns = true) \/
      (e = AssertionError PointsDeclared /\ forallb points_agree (elements sns) = false) \/
      (e = ValueError /\ forallb numeric_contour (elements sns) = false)
  end.

(** How reading polygon elements ends: accepted, or rejected for a
    foreign element, for a count that disagrees, or for a malformed
    number. *)
Definition reading_outcome {A} (has_foreign agree numeric : bool) (r : result A) : Prop :=
  match r with
  | Ok _ => agree = true /\ has_foreign = false
  | Err e =>
      (e = AssertionError TagIsContour /\ has_foreign = true) \/
      (StructuralMismatch e /\ agree = false) \/
      (e = ValueError /\ numeric = false)
  end.

(** The source [ifile] resolves to a stream whose text parses as [d]. *)
Definition parses_to (ifile : pyarg) (w : world) (d : document) : Prop :=
  exists f cl w1 text,
    getReadableObject ifile w = (Ok (f, cl), w1) /\
    read f w1 = (Ok text, w1) /\ parseString text = Some d.

(** The count rule as the specification words it: an accepted document
    has its counts right, and a document with a wrong count is rejected
    with [StructuralMismatch]. *)
Definition counts_rule (d : document) (r : result (list (Polygon float))) : Prop :=
  (is_ok r = true -> counts_agree d = true) /\
  (counts_agree d = false -> exists e, r = Err e /\ StructuralMismatch e).

End XmlProperties.

(** ** Inputs for the examples *)

Module Examples.
Import Demo.

(** The bit pattern of the double [1.0]. *)
Definition one : double := 4607182418800017408%Z.

(** A solid triangle and a square with a triangular hole, coordinates as
    bit patterns. *)
Definition triangle_bits : Polygon double :=
  [mkContour [(0, 0); (one, 0); (0, one)]%Z false].

Definition holed_bits : Polygon double :=
  [mkContour [(0, 0); (one, 0); (one, one); (0, one)]%Z false;
   mkContour [(0, 0); (one, 0); (0, one)]%Z true].

(** The encoding of the triangle, empty if there were none. *)
Definition triangle_bytes : list byte :=
  match Codec.encodeBinary triangle_bits with
  | Ok bs => bs
  | Err _ => []
  end.

Open Scope float_scope.

Definition triangle : Polygon float := [mkContour [(0, 0); (4, 0); (0, 2)] false].

Definition holed_square : Polygon float :=
  [mkContour [(2, 2); (3, 2); (3, 3); (2, 3)] false;
   mkContour [(2.25, 2.25); (2.75, 2.25); (2.5, 2.75)] true].

(** Three equal points: no extent on either axis. *)
Definition point : Polygon float := [mkContour [(1, 1); (1, 1); (1, 1)] false].

(** Three points on a vertical line: no extent in x. *)
Definition upright : Polygon float := [mkContour [(1, 0); (1, 1); (1, 2)] false].

(** Three points on a horizontal line: no extent in y. *)
Definition flat : Polygon float := [mkContour [(0, 1); (1, 1); (2, 1)] false].

Close Scope float_scope.

(** A world that holds the polygon objects [ps], no stream and no file. *)
Definition world_of (ps : list (Polygon float)) : world := mkWorld [] ps ∅ ∅.

(** A world with one open stream, as a caller would pass it. *)
Definition world_with_stream (ps : list (Polygon float)) : world :=
  mkWorld [mkStream "" 0] ps ∅ ∅.

Definition p_element (x y : string) : node := Element "p" [("x", x); ("y", y)] [].

Definition contour_element (declared : string) (children : list node) : node :=
  Element "contour" [("points", declared); ("isHole", "0")] children.

Definition polygon_element (declared : string) (children : list node) : node :=
  Element "polygon" [("contours", declared)] children.

(** A contour that declares three points and holds two [<p>] children. *)
Definition short_document : document :=
  [polygon_element "1"
     [Text nl; contour_element "3" [p_element "0" "0"; Text nl; p_element "1" "0"]; Text nl]].

(** The same with an [x] that is no number. *)
Definition malformed_document : document :=
  [polygon_element "1"
     [Text nl; contour_element "3" [p_element "a" "0"; Text nl; p_element "1" "0"]; Text nl]].

(** A well-counted contour followed by a [<foo/>] element. *)
Definition foreign_document : document :=
  [polygon_element "1"
     [contour_element "3" [p_element "0" "0"; p_element "1" "0"; p_element "0" "1"];
      Element "foo" [] []]].

(** The runtime that knows these documents. *)
Definition runtime : Runtime :=
  demo_runtime [short_document; malformed_document; foreign_document].

End Examples.

(** * Further properties of the code: definitions *)

(** ** The wire format of a contour *)

(** The two byte strings [encodeBinary] makes of a contour: the signed
    number of points, negative for a hole, and the coordinates. *)
Definition wire_record (c : Contour double) : list (list byte) :=
  let n := Z.of_nat (length (points c)) in
  [be_bytes 4 ((n * (if hole c then -1 else 1)) mod 2 ^ 32);
   concat (map (be_bytes 8) (Codec.__flatten (points c)))]%Z.

(** The signed number of points fits the ['!l'] field. *)
Definition fits_wire (c : Contour double) : Prop :=
  (- 2 ^ 31 <= Z.of_nat (length (points c)) * (if hole c then -1 else 1) < 2 ^ 31)%Z.

(** ** What a writer leaves in a stream *)

(** The world after [f.write(t)] on an open stream, and after a sequence
    of writes. *)
Definition put (f : handle) (t : string) (w : world) : world :=
  match streams w !! f with
  | Some st => with_streams w (<[f := mkStream (content st +:+ t) (closes st)]> (streams w))
  | None => w
  end.

Definition puts (f : handle) (ts : list string) (w : world) : world :=
  fold_left (fun w t => put f t w) ts w.

Definition is_open (f : handle) (w : world) : Prop :=
  exists st, streams w !! f = Some st /\ closes st = 0%nat.

(** The destinations for which the resolver makes a stream of its own,
    and whether it is owned: [None], and a name [open] accepts. *)
Definition makes_stream (ofile : pyarg) (w : world) : option bool :=
  match ofile with
  | PyNone => Some false
  | PyStr name => if decide (name ∈ readonly w) then None else Some true
  | _ => None
  end.

Section Texts.
Context `{Engine} `{Runtime}.

(** The lines [writeGnuplot] writes for a contour: one for each point
    and the first point again, followed by an empty line. *)
Definition gnuplot_lines (vl : list (Point float)) : result (list string) :=
  first ← index vl 0;
  Ok (map (fun j => gnuplot_line j nl) vl ++ [gnuplot_line first (nl +:+ nl)]).

(** The texts written for the polygon objects [polylist] of the world
    [w], one list for each polygon. *)
Definition gnuplot_texts (w : world) (polylist : list handle) : result (list (list string)) :=
  mapR (fun p => v ← of_option BadHandle (polys w !! p);
                 ls ← mapR (fun c => gnuplot_lines (points c)) v;
                 Ok (concat ls)) polylist.

(** The texts [writeGnuplotTriangles] writes for a strip: a closed
    triangle for each three consecutive vertices, and an empty line. *)
Definition triangle_lines (vl : list (Point float)) : result (list string) :=
  ts ← mapR (gnuplot_triangle vl) (seq 0 (length vl - 2));
  Ok (ts ++ [nl]).

Definition triangles_texts (w : world) (polylist : list handle)
  : result (list (list string)) :=
  mapR (fun p => v ← of_option BadHandle (polys w !! p);
                 ls ← mapR triangle_lines (triStrip v);
                 Ok (concat ls)) polylist.

Definition xml_texts (w : world) (polylist : list handle) : result (list (list string)) :=
  mapR (fun p => v ← of_option BadHandle (polys w !! p);
                 l ← xml_polygon v;
                 Ok [String.concat nl l]) polylist.

End Texts.

(** ** The fill colours of a PDF page *)

(** The colours [setFillColor] was called with, in order. *)
Definition fills (can : list canvas_op) : list string :=
  omap (fun op => match op with SetFillColor c => Some c | _ => None end) can.

(** ** Documents without the nodes the reader skips *)

(** A node with the children that are no elements removed, at every
    depth; [strip_nodes] does it to a list of nodes. *)
Fixpoint strip_node (n : node) : node :=
  match n with
  | Element t attrs cs =>
      Element t attrs
        ((fix go (l : list node) : list node :=
            match l with
            | [] => []
            | c :: l' => if is_element c then strip_node c :: go l' else go l'
            end) cs)
  | _ => n
  end.

Definition strip_nodes (ns : list node) : list node :=
  map strip_node (List.filter is_element ns).

(** ** The element tree of a polygon written by [writeXML] *)

Section Tree.
Context `{Engine} `{Runtime}.

Definition bbox_attributes (bb : bbox) : list (string * string) :=
  [("xMin", fmt_g (bb0 bb)); ("xMax", fmt_g (bb1 bb));
   ("yMin", fmt_g (bb2 bb)); ("yMax", fmt_g (bb3 bb))].

(** The elements the lines of [writeXML] denote, with the text nodes of
    their line breaks and indentation. *)
Definition dom_point (po : Point float) : node :=
  Element "p" [("x", fmt_g po.1); ("y", fmt_g po.2)] [].

Definition dom_contour (p : Polygon float) (i : nat) (c : Contour float) : node :=
  Element "contour"
    ([("points", fmt_int (Z.of_nat (length (points c))));
      ("isHole", fmt_int (if hole c then 1 else 0));
      ("area", fmt_g (area_at p i))] ++ bbox_attributes (boundingBox_at p i))
    (flat_map (fun po => [Text (nl +:+ "    "); dom_point po]) (points c)
     ++ [Text (nl +:+ "  ")]).

Definition dom_polygon (p : Polygon float) : node :=
  Element "polygon"
    ([("contours", fmt_int (Z.of_nat (length p))); ("area", fmt_g (area p))]
     ++ bbox_attributes (boundingBox p))
    (flat_map (fun ic => [Text (nl +:+ "  "); dom_contour p ic.1 ic.2])
              (imap (fun i c => (i, c)) p)
     ++ [Text nl]).

(** A polygon with every coordinate written with ['%g'] and read with
    [float()]. *)
Definition reread_point (po : Point float) : result (Point float) :=
  x ← of_option ValueError (py_float (fmt_g po.1));
  y ← of_option ValueError (py_float (fmt_g po.2));
  Ok (x, y).

Definition reread (p : Polygon float) : result (Polygon float) :=
  mapR (fun c => pts ← mapR reread_point (points c); Ok (mkContour pts (hole c))) p.

(** The integers [writeXML] writes with ['%d'] for the reader to
    convert: the number of contours and, for each contour, the number of
    points and the hole flag. *)
Definition written_counts (p : Polygon float) : list Z :=
  Z.of_nat (length p)
  :: flat_map (fun c => [Z.of_nat (length (points c)); if hole c then 1 else 0]%Z) p.

End Tree.

(** Lines, each after a line break. *)
Definition lines_after (ls : list string) : string :=
  String.concat "" (map (fun l => nl +:+ l) ls).

(** ** The paths of an SVG document *)

(** The [<path>] element of a polygon: the line [''.join(subl)] of
    [writeSVG], with its four style values and its subpaths. *)
Definition svg_path (fc fo sc sw : string) (subpaths : list string) : string :=
  String.concat ""
    (["<path style=" +:+ dq +:+ "fill:rgb" +:+ fc +:+ ";fill-opacity:" +:+ fo +:+
      ";fill-rule:evenodd;stroke:rgb" +:+ sc +:+ ";stroke-width:" +:+ sw +:+ ";" +:+ dq +:+
      " d=" +:+ dq] ++ subpaths ++ [dq +:+ "/>"]).

(** The element a cycler over [seq] returns at its call number [i]. *)
Definition cycled {A} (seq : list A) (i : nat) : option A :=
  seq !! (i mod length seq)%nat.

(** A computation that leaves the streams as they are when it returns. *)
Definition quiet {A} (m : M A) : Prop :=
  forall w a w', m w = (Ok a, w') -> streams w' = streams w.

(** ** A parser for texts that end as [writeXML] ends them *)

Module Written.
Import Demo Examples.

(** The element tree of the triangle, as [writeXML] writes it. *)
Definition triangle_document : document :=
  [@dom_polygon demo_engine (demo_runtime []) triangle].

(** The runtime of the examples with a parser that reads the text of
    that tree followed by a line break. *)
Definition runtime : Runtime := {|
  fmt_g := demo_fmt_g;
  fmt_d := demo_fmt_d;
  fmt_int := pretty;
  fmt_str := demo_fmt_str;
  py_int := demo_int;
  py_float := demo_float;
  parseString text :=
    head (filter (fun d => document_xml d +:+ nl = text) [triangle_document])
|}.

End Written.

(** * Proofs *)

(** ** The binary codec *)

Section CodecFacts.
Import Codec.
Open Scope Z_scope.

Lemma Z_of_byte_of_Z z : Z_of_byte (byte_of_Z z) = z mod 256.
Proof.
  unfold Z_of_byte, byte_of_Z.
  assert (Hr : 0 <= z mod 256 < 256) by (apply Z.mod_pos_bound; lia).
  destruct (Byte.of_N (Z.to_N (z mod 256))) as [b|] eqn:E.
  - apply Byte.to_of_N in E. rewrite E. lia.
  - apply Byte.of_N_None_iff in E. lia.
Qed.

Lemma be_bytes_length k x : length (be_bytes k x) = k.
Proof. induction k; simpl; congruence. Qed.

Lemma be_fold k x acc :
  fold_left (fun a b => a * 256 + Z_of_byte b) (be_bytes k x) acc
  = acc * 256 ^ Z.of_nat k + x mod 256 ^ Z.of_nat k.
Proof.
  revert acc. induction k as [|k IH]; intros acc.
  - simpl. rewrite Z.mod_1_r. lia.
  - cbn [be_bytes fold_left]. rewrite IH, Z_of_byte_of_Z.
    rewrite Nat2Z.inj_succ, Z.pow_succ_r by lia.
    assert (0 < 256 ^ Z.of_nat k) by (apply Z.pow_pos_nonneg; lia).
    rewrite (Z.mul_comm 256 (256 ^ Z.of_nat k)).
    rewrite (Z.rem_mul_r x (256 ^ Z.of_nat k) 256) by lia.
    ring.
Qed.

Lemma be_value_bytes k x : be_value (be_bytes k x) = x mod 256 ^ Z.of_nat k.
Proof. unfold be_value. rewrite be_fold. lia. Qed.

Lemma pack_doubles_length vs :
  length (concat (map (be_bytes 8) vs)) = (8 * length vs)%nat.
Proof.
  induction vs as [|v vs IH]; [done|].
  cbn [map concat]. rewrite length_app, be_bytes_length, IH. cbn [length]. lia.
Qed.

Lemma unpack_doubles_pack vs :
  unpack_doubles (length vs) (concat (map (be_bytes 8) vs)) = map wrap64 vs.
Proof.
  induction vs as [|v vs IH]; [done|].
  change (concat (map (be_bytes 8) (v :: vs)))
    with (be_bytes 8 v ++ concat (map (be_bytes 8) vs)).
  cbn [length unpack_doubles map].
  rewrite (take_app_length' (be_bytes 8 v)) by (symmetry; apply be_bytes_length).
  rewrite (drop_app_length' (be_bytes 8 v)) by (symmetry; apply be_bytes_length).
  rewrite IH, be_value_bytes. done.
Qed.

Lemma flatten_length {A} (s : list (Point A)) :
  length (__flatten s) = (2 * length s)%nat.
Proof. induction s as [|a s IH]; simpl; lia. Qed.

Lemma couples_flatten {A} (f : A -> A) (s : list (Point A)) :
  __couples (map f (__flatten s)) = Ok (map (fun a => (f a.1, f a.2)) s).
Proof.
  unfold __flatten. induction s as [|[x y] s IH]; [done|].
  cbn [flat_map app map __couples fst snd]. rewrite IH. done.
Qed.

Lemma signed32_wrap v :
  - 2 ^ 31 <= v < 2 ^ 31 -> signed32 ((v mod 2 ^ 32) mod 256 ^ Z.of_nat 4) = v.
Proof.
  intros Hv. change (256 ^ Z.of_nat 4) with (2 ^ 32).
  rewrite Z.mod_mod by lia. unfold signed32.
  destruct (Z.ltb_spec v 0).
  - replace (v mod 2 ^ 32) with (v + 2 ^ 32)
      by (apply Z.mod_unique with (-1); lia).
    destruct (Z.ltb_spec (v + 2 ^ 32) (2 ^ 31)); lia.
  - rewrite Z.mod_small by lia.
    destruct (Z.ltb_spec v (2 ^ 31)); lia.
Qed.

Lemma pack_l_inv v bs :
  pack Fmtl [v] = Ok bs -> - 2 ^ 31 <= v < 2 ^ 31 /\ bs = be_bytes 4 (v mod 2 ^ 32).
Proof.
  cbn [pack]. destruct (Z.leb_spec (- 2 ^ 31) v), (Z.ltb_spec v (2 ^ 31));
    cbn [andb]; intros [=]; subst; auto.
Qed.

Lemma pack_I_inv v bs :
  pack FmtI [v] = Ok bs -> 0 <= v < 2 ^ 32 /\ bs = be_bytes 4 v.
Proof.
  cbn [pack]. destruct (Z.leb_spec 0 v), (Z.ltb_spec v (2 ^ 32));
    cbn [andb]; intros [=]; subst; auto.
Qed.

Lemma pack_d_inv n vs bs :
  pack (Fmtd n) vs = Ok bs -> n = Z.of_nat (length vs) /\ bs = concat (map (be_bytes 8) vs).
Proof.
  cbn [pack]. destruct (Z.eqb_spec (Z.of_nat (length vs)) n); intros [=]; subst; auto.
Qed.

Lemma unpack_exact f b t :
  Z.of_nat (length b) = calcsize f ->
  __unpack f (b ++ t) = (v ← unpack f b; Ok (v, t)).
Proof.
  intros Hl. unfold __unpack.
  rewrite <- Hl, Nat2Z.id, take_app_length, drop_app_length. done.
Qed.

Lemma unpack_short f b :
  Z.of_nat (length b) < calcsize f -> __unpack f b = Err TruncatedInput.
Proof.
  intros Hl. unfold __unpack, unpack.
  rewrite take_ge by lia.
  destruct (Z.eqb_spec (Z.of_nat (length b)) (calcsize f)); [lia|done].
Qed.

(** One encoded record, decoded with anything after it. *)
Lemma encode_contours_inv p i c cs l :
  encode_contours p i (c :: cs) = Ok l ->
  exists h r, isHole p i = Ok h /\
    let n := Z.of_nat (length (points c)) in
    - 2 ^ 31 <= n * (if h then -1 else 1) < 2 ^ 31 /\
    encode_contours p (S i) cs = Ok r /\
    l = be_bytes 4 ((n * (if h then -1 else 1)) mod 2 ^ 32)
        :: concat (map (be_bytes 8) (__flatten (points c))) :: r.
Proof.
  cbn [encode_contours]. destruct (isHole p i) as [h|] eqn:Eh; [|done].
  cbn [mbind result_bind].
  destruct (pack Fmtl _) as [a|] eqn:Ea; [|done].
  apply pack_l_inv in Ea as [Hr ->]. cbn [mbind result_bind].
  destruct (pack (Fmtd _) _) as [d|] eqn:Ed; [|done].
  apply pack_d_inv in Ed as [_ ->]. cbn [mbind result_bind].
  destruct (encode_contours p (S i) cs) as [r|] eqn:Er; [|done].
  intros [= <-]. exists h, r. auto.
Qed.

Lemma unpack_header v rest :
  - 2 ^ 31 <= v < 2 ^ 31 ->
  __unpack Fmtl (be_bytes 4 (v mod 2 ^ 32) ++ rest) = Ok ([v], rest).
Proof.
  intros Hv. rewrite unpack_exact by (rewrite be_bytes_length; done).
  unfold unpack. rewrite be_bytes_length.
  change (Z.of_nat 4 =? calcsize Fmtl) with true. cbv iota.
  rewrite be_value_bytes, signed32_wrap by done. done.
Qed.

Lemma unpack_count v rest :
  0 <= v < 2 ^ 32 ->
  __unpack FmtI (be_bytes 4 v ++ rest) = Ok ([v], rest).
Proof.
  intros Hv. rewrite unpack_exact by (rewrite be_bytes_length; done).
  unfold unpack. rewrite be_bytes_length.
  change (Z.of_nat 4 =? calcsize FmtI) with true. cbv iota.
  rewrite be_value_bytes. change (256 ^ Z.of_nat 4) with (2 ^ 32).
  rewrite Z.mod_small by done. done.
Qed.

Lemma decode_header k h (n : nat) rest acc :
  let v := Z.of_nat n * (if (h : bool) then -1 else 1) in
  - 2 ^ 31 <= v < 2 ^ 31 ->
  decode_contours (S k) (be_bytes 4 (v mod 2 ^ 32) ++ rest) acc
  = ('(flat, b) ← __unpack (Fmtd (2 * Z.of_nat n)) rest;
     c ← __couples flat;
     decode_contours k b (addContour acc c (h && negb (Nat.eqb n 0)))).
Proof.
  intros v Hv. cbn [decode_contours].
  rewrite unpack_header by done.
  cbn [mbind result_bind index lookup list_lookup].
  subst v. destruct h, n as [|n]; cbn [andb negb Nat.eqb].
  - change (Z.of_nat 0 * -1) with 0. done.
  - destruct (Z.ltb_spec (Z.of_nat (S n) * -1) 0); [|lia].
    cbn [fst snd]. replace (-2 * (Z.of_nat (S n) * -1)) with (2 * Z.of_nat (S n)) by lia.
    done.
  - change (Z.of_nat 0 * 1) with 0. done.
  - destruct (Z.ltb_spec (Z.of_nat (S n) * 1) 0); [lia|].
    cbn [fst snd]. replace (2 * (Z.of_nat (S n) * 1)) with (2 * Z.of_nat (S n)) by lia.
    done.
Qed.

Lemma decode_body (pts : list (Point double)) t :
  __unpack (Fmtd (2 * Z.of_nat (length pts)))
           (concat (map (be_bytes 8) (__flatten pts)) ++ t)
  = Ok (map wrap64 (__flatten pts), t).
Proof.
  rewrite unpack_exact.
  - unfold unpack. rewrite pack_doubles_length, flatten_length. cbn [calcsize].
    rewrite (proj2 (Z.eqb_eq _ _)) by lia.
    replace (Z.to_nat (2 * Z.of_nat (length pts))) with (length (__flatten pts))
      by (rewrite flatten_length; lia).
    rewrite unpack_doubles_pack. done.
  - rewrite pack_doubles_length, flatten_length. cbn [calcsize]. lia.
Qed.

Lemma decode_encode_contours p cs : forall i l,
  drop i p = cs ->
  encode_contours p i cs = Ok l ->
  forall t acc,
    decode_contours (length cs) (concat l ++ t) acc = Ok (acc ++ map decoded cs).
Proof.
  induction cs as [|c cs IH]; intros i l Hd He t acc.
  - injection He as <-. cbn. rewrite app_nil_r. done.
  - apply encode_contours_inv in He as (h & r & Hh & Hv & Hr & ->).
    assert (Hc : p !! i = Some c).
    { rewrite <- (Nat.add_0_r i), <- lookup_drop, Hd. done. }
    unfold isHole, index in Hh. rewrite Hc in Hh. injection Hh as <-.
    cbn [concat length]. rewrite <- !app_assoc.
    rewrite decode_header by done.
    rewrite decode_body. cbn [mbind result_bind].
    rewrite couples_flatten. cbn [mbind result_bind].
    rewrite (IH (S i) r); [| |done].
    + unfold addContour, decoded. rewrite <- app_assoc. done.
    + replace (S i) with (i + 1)%nat by lia. rewrite <- drop_drop, Hd. done.
Qed.

Lemma encodeBinary_inv p bs :
  encodeBinary p = Ok bs ->
  exists l, 0 <= Z.of_nat (length p) < 2 ^ 32 /\
    encode_contours p 0 p = Ok l /\
    bs = be_bytes 4 (Z.of_nat (length p)) ++ concat l.
Proof.
  unfold encodeBinary.
  destruct (pack FmtI _) as [h|] eqn:Eh; [|done].
  apply pack_I_inv in Eh as [Hr ->]. cbn [mbind result_bind].
  destruct (encode_contours p 0 p) as [l|] eqn:El; [|done].
  intros [= <-]. exists l. auto.
Qed.

Lemma decode_encode_gen p bs t :
  encodeBinary p = Ok bs -> decodeBinary (bs ++ t) = Ok (map decoded p).
Proof.
  intros (l & Hn & Hl & ->)%encodeBinary_inv.
  unfold decodeBinary. rewrite <- app_assoc, unpack_count by done.
  cbn [mbind result_bind index lookup list_lookup]. rewrite Nat2Z.id.
  apply (decode_encode_contours p p 0 l); done.
Qed.

Lemma decoded_valid c : valid_contour c -> decoded c = c.
Proof.
  intros [Hn Hp]. destruct c as [pts h]; cbn [points hole] in *.
  unfold decoded; cbn [points hole]. f_equal.
  - induction Hp as [|[x y] pts [Hx Hy] _ IH]; [done|].
    cbn [map fst snd length] in *. unfold wrap64 at 1 2.
    unfold is_double in *. rewrite !Z.mod_small by done. f_equal.
    destruct pts; [done|]. apply IH. cbn [length] in *. lia.
  - destruct pts; cbn in *; [lia|]. apply andb_true_r.
Qed.

Lemma encode_contours_ok p cs : forall i,
  drop i p = cs ->
  Forall (fun c => Z.of_nat (length (points c)) < 2 ^ 31) cs ->
  exists l, encode_contours p i cs = Ok l.
Proof.
  induction cs as [|c cs IH]; intros i Hd Hv; [by eexists|].
  inversion_clear Hv as [|? ? Hc Hv'].
  assert (Hi : p !! i = Some c).
  { rewrite <- (Nat.add_0_r i), <- lookup_drop, Hd. done. }
  destruct (IH (S i)) as [r Hr]; [|done|].
  { replace (S i) with (i + 1)%nat by lia. rewrite <- drop_drop, Hd. done. }
  cbn [encode_contours]. unfold isHole, index. rewrite Hi.
  cbn [mbind result_bind pack].
  rewrite (proj2 (andb_true_iff _ _)); [|destruct (hole c); split; lia].
  cbn [mbind result_bind]. rewrite flatten_length.
  rewrite (proj2 (Z.eqb_eq _ _)) by lia.
  cbn [mbind result_bind]. rewrite Hr. by eexists.
Qed.

Lemma encodeBinary_ok p :
  Z.of_nat (length p) < 2 ^ 32 ->
  Forall (fun c => Z.of_nat (length (points c)) < 2 ^ 31) p ->
  exists bs, encodeBinary p = Ok bs.
Proof.
  intros Hn Hv. destruct (encode_contours_ok p p 0) as [l Hl]; [done..|].
  unfold encodeBinary. cbn [pack].
  rewrite (proj2 (andb_true_iff _ _)) by (split; lia).
  cbn [mbind result_bind]. rewrite Hl. by eexists.
Qed.

(** C1: every polygon of the data model, the one without contours
    included, has an encoding, and decoding it gives the polygon back: the
    same contours in the same order, each with the same points, bit for
    bit, and the same hole flag. *)
Theorem decode_encode_roundtrip p :
  valid_polygon p ->
  exists bs, encodeBinary p = Ok bs /\ decodeBinary bs = Ok p.
Proof.
  intros [Hn Hv]. destruct (encodeBinary_ok p) as [bs Hbs]; [done| |].
  { eapply Forall_impl; [exact Hv|]. intros c [Hc _]. lia. }
  exists bs. split; [done|].
  rewrite <- (app_nil_r bs), (decode_encode_gen p bs []) by done.
  f_equal. rewrite <- (map_id p) at 2. apply map_ext_Forall.
  eapply Forall_impl; [exact Hv|]. intros c Hc. by apply decoded_valid.
Qed.

(** C9: whatever bytes follow an encoding, decoding returns, and returns
    what it returns for the encoding alone. *)
Theorem decode_ignores_trailing p bs t :
  encodeBinary p = Ok bs ->
  decodeBinary (bs ++ t) = decodeBinary bs /\ is_ok (decodeBinary bs) = true.
Proof.
  intros He. rewrite <- (app_nil_r bs) at 2 3.
  rewrite !(decode_encode_gen p bs) by done. done.
Qed.

(** Splitting a concatenation along a prefix that covers its first part. *)
Lemma app_split_long {A} (l1 l2 pre k : list A) :
  l1 ++ l2 = pre ++ k -> (length l1 <= length pre)%nat ->
  exists pre', pre = l1 ++ pre' /\ l2 = pre' ++ k.
Proof.
  revert pre. induction l1 as [|a l1 IH]; intros pre He Hl.
  - exists pre. auto.
  - destruct pre as [|b pre]; [cbn in Hl; lia|].
    cbn [app] in He. injection He as -> He.
    destruct (IH pre He) as (pre' & -> & ->); [cbn in Hl; lia|].
    exists pre'. auto.
Qed.

Lemma decode_truncated_contours p cs : forall i l pre k acc,
  encode_contours p i cs = Ok l ->
  concat l = pre ++ k -> k <> [] ->
  decode_contours (length cs) pre acc = Err TruncatedInput.
Proof.
  induction cs as [|c cs IH]; intros i l pre k acc He Hc Hk.
  - injection He as <-. destruct pre, k; done.
  - apply encode_contours_inv in He as (h & r & _ & Hv & Hr & ->).
    cbn [concat] in Hc. cbn [length].
    destruct (Nat.lt_ge_cases (length pre) 4) as [Hs|Hs].
    { cbn [decode_contours]. rewrite unpack_short by (cbn [calcsize]; lia). done. }
    apply app_split_long in Hc as (pre1 & -> & Hc);
      [|rewrite be_bytes_length; done].
    rewrite decode_header by done.
    set (d := concat (map (be_bytes 8) (__flatten (points c)))) in *.
    destruct (Nat.lt_ge_cases (length pre1) (length d)) as [Hs1|Hs1].
    { rewrite unpack_short; [done|]. subst d.
      rewrite pack_doubles_length, flatten_length in Hs1. cbn [calcsize]. lia. }
    apply app_split_long in Hc as (pre2 & -> & Hc); [|done].
    subst d. rewrite decode_body. cbn [mbind result_bind].
    rewrite couples_flatten. cbn [mbind result_bind].
    by apply (IH (S i) r pre2 k).
Qed.

(** C3: decoding a strict prefix of an encoding, wherever it is cut,
    fails with [TruncatedInput]. *)
Theorem decode_truncated p pre k :
  encodeBinary p = Ok (pre ++ k) -> k <> [] ->
  decodeBinary pre = Err TruncatedInput.
Proof.
  intros (l & Hn & Hl & Hb)%encodeBinary_inv Hk. symmetry in Hb.
  unfold decodeBinary.
  destruct (Nat.lt_ge_cases (length pre) 4) as [Hs|Hs].
  { rewrite unpack_short by (cbn [calcsize]; lia). done. }
  apply app_split_long in Hb as (pre1 & -> & Hb);
    [|rewrite be_bytes_length; done].
  rewrite unpack_count by done.
  cbn [mbind result_bind index lookup list_lookup]. rewrite Nat2Z.id.
  by apply (decode_truncated_contours p p 0 l pre1 k).
Qed.

End CodecFacts.

Open Scope nat_scope.

(** ** The style ring buffer *)

Section RingBufferFacts.
Context {A : Type}.
Implicit Types (seq : list A) (self : RingBuffer.__RingBuffer A).

Lemma succ_mod_wrap (i len : nat) :
  i < len ->
  (if Nat.eqb (i + 1) len then 0 else i + 1) = (i + 1) mod len.
Proof.
  intros Hi. destruct (Nat.eqb_spec (i + 1) len) as [->|Hne].
  - symmetry. apply Nat.Div0.mod_same.
  - symmetry. apply Nat.mod_small. lia.
Qed.

Lemma call_in_range seq i :
  i < length seq ->
  exists o, seq !! i = Some o /\
    RingBuffer.__call__ (RingBuffer.mk seq i (length seq))
    = Ok (o, RingBuffer.mk seq ((i + 1) mod length seq) (length seq)).
Proof.
  intros Hi. destruct (lookup_lt_is_Some_2 seq i Hi) as [o Ho].
  exists o. split; [done|].
  unfold RingBuffer.__call__, index. cbn [RingBuffer.s RingBuffer.i RingBuffer.l].
  rewrite Ho. cbn [mbind result_bind].
  rewrite succ_mod_wrap by done. done.
Qed.

Lemma after_in_range seq n : forall i,
  i < length seq ->
  RingBuffer.after n (RingBuffer.mk seq i (length seq))
  = Ok (RingBuffer.mk seq ((i + n) mod length seq) (length seq)).
Proof.
  induction n as [|n IH]; intros i Hi.
  - cbn [RingBuffer.after]. rewrite Nat.add_0_r, Nat.mod_small by done. done.
  - cbn [RingBuffer.after].
    destruct (call_in_range seq i Hi) as (o & _ & ->). cbn [mbind result_bind].
    rewrite IH by (apply Nat.mod_upper_bound; lia).
    rewrite Nat.Div0.add_mod_idemp_l. do 3 f_equal. lia.
Qed.

(** C8: after [n] invocations of a cycler over a non-empty [seq], the
    next invocation returns [seq[n mod len(seq)]], and the backing sequence
    is [seq] before and after it. *)
Theorem ring_buffer_cycles seq (n : nat) :
  seq <> [] ->
  exists self o self',
    RingBuffer.after n (RingBuffer.__init__ seq) = Ok self /\
    RingBuffer.__call__ self = Ok (o, self') /\
    seq !! (n mod length seq) = Some o /\
    RingBuffer.s self = seq /\ RingBuffer.s self' = seq.
Proof.
  intros Hne. assert (Hl : 0 < length seq) by (destruct seq; [done|cbn; lia]).
  unfold RingBuffer.__init__. rewrite after_in_range by done. cbn [Nat.add].
  destruct (call_in_range seq (n mod length seq)) as (o & Ho & Hc).
  { apply Nat.mod_upper_bound. lia. }
  eexists _, o, _. split; [done|]. split; [exact Hc|]. done.
Qed.
End RingBufferFacts.

(** ** Streams and polygon objects across a call *)

Lemma hoare_bind {A B} P (m : M A) Q E (k : A -> M B) R :
  hoare P m Q E -> (forall a, hoare (Q a) (k a) R E) -> hoare P (bindM m k) R E.
Proof.
  intros Hm Hk w Hw. unfold bindM. specialize (Hm w Hw).
  destruct (m w) as [[a|e] w']; [|done]. by apply Hk.
Qed.

Lemma hoare_conseq {A} (P P' : world -> Prop) (m : M A) (Q Q' : A -> world -> Prop)
    (E E' : world -> Prop) :
  hoare P m Q E -> (forall w, P' w -> P w) -> (forall a w, Q a w -> Q' a w) ->
  (forall w, E w -> E' w) -> hoare P' m Q' E'.
Proof.
  intros Hm HP HQ HE w Hw. specialize (Hm w (HP w Hw)).
  destruct (m w) as [[a|e] w']; auto.
Qed.

Lemma keeps_ret {A} I (a : A) (Q : A -> Prop) : Q a -> keeps I (retM a) Q.
Proof. intros Ha w Hw. done. Qed.

Lemma keeps_raise {A} I e (Q : A -> Prop) : keeps I (raise e) Q.
Proof. intros w Hw. done. Qed.

Lemma keeps_lift {A} I (r : result A) : keeps I (lift r) (fun a => r = Ok a).
Proof. intros w Hw. cbn. destruct r; done. Qed.

Lemma keeps_bind {A B} I (m : M A) (Q : A -> Prop) (k : A -> M B) (R : B -> Prop) :
  keeps I m Q -> (forall a, Q a -> keeps I (k a) R) -> keeps I (bindM m k) R.
Proof.
  intros Hm Hk. eapply hoare_bind; [exact Hm|].
  intros a w [Hw Ha]. by apply Hk.
Qed.

Lemma keeps_weaken {A} I (m : M A) (Q Q' : A -> Prop) :
  keeps I m Q -> (forall a, Q a -> Q' a) -> keeps I m Q'.
Proof.
  intros Hm HQ. eapply hoare_conseq; [exact Hm|done| |done].
  intros a w [? ?]. auto.
Qed.

Lemma keeps_mapM {A B} I (f : A -> M B) (Q : B -> Prop) xs :
  (forall x, keeps I (f x) Q) -> keeps I (mapM f xs) (Forall Q).
Proof.
  intros Hf. induction xs as [|x xs IH]; cbn [mapM].
  - by apply keeps_ret.
  - eapply keeps_bind; [apply Hf|]. intros y Hy.
    eapply keeps_bind; [apply IH|]. intros ys Hys.
    apply keeps_ret. by constructor.
Qed.

Lemma keeps_forM {A} I (f : A -> M unit) xs :
  (forall x, x ∈ xs -> keeps I (f x) (fun _ => True)) ->
  keeps I (forM xs f) (fun _ => True).
Proof.
  induction xs as [|x xs IH]; intros Hf; cbn [forM].
  - by apply keeps_ret.
  - eapply keeps_bind; [apply Hf; left|]. intros _ _.
    apply IH. intros y Hy. apply Hf. by right.
Qed.

Lemma inv_refl w0 C : inv w0 C w0.
Proof. by constructor. Qed.

Lemma closes_of_new w text h :
  closes_of (with_streams w (streams w ++ [mkStream text 0])) h = closes_of w h.
Proof.
  unfold closes_of; cbn [streams with_streams].
  destruct (decide (h < length (streams w))) as [Hh|Hh].
  - by rewrite lookup_app_l.
  - rewrite (lookup_ge_None_2 (streams w)) by lia.
    destruct (decide (h = length (streams w))) as [->|Hne].
    + by rewrite list_lookup_middle.
    + rewrite lookup_ge_None_2; [done|]. rewrite length_app. cbn. lia.
Qed.

Lemma closes_of_insert w f st text h :
  streams w !! f = Some st ->
  closes_of (with_streams w (<[f := mkStream text (closes st)]> (streams w))) h
  = closes_of w h.
Proof.
  intros Hf. unfold closes_of; cbn [streams with_streams].
  destruct (decide (h = f)) as [->|Hne].
  - rewrite list_lookup_insert_eq by (by eapply lookup_lt_Some). by rewrite Hf.
  - by rewrite list_lookup_insert_ne.
Qed.

Lemma closes_of_close w f st h :
  streams w !! f = Some st ->
  closes_of (with_streams w (<[f := mkStream (content st) (S (closes st))]> (streams w))) h
  = if decide (h = f) then S (closes_of w h) else closes_of w h.
Proof.
  intros Hf. unfold closes_of; cbn [streams with_streams].
  destruct (decide (h = f)) as [->|Hne].
  - rewrite list_lookup_insert_eq by (by eapply lookup_lt_Some). by rewrite Hf.
  - by rewrite list_lookup_insert_ne.
Qed.

Section Primitives.
Context (w0 : world) (C : handle -> Prop).
#[local] Abbreviation I := (inv w0 C).

Lemma keeps_new_stream text :
  keeps I (new_stream text) (fun h => length (streams w0) <= h).
Proof.
  intros w [H1 H2 H3 H4]. cbn. split; [|done].
  constructor; cbn [polys streams with_streams]; [|rewrite length_app; lia|done..].
  intros h Hh. rewrite closes_of_new. auto.
Qed.

Lemma keeps_write f text : keeps I (write f text) (fun _ => True).
Proof.
  intros w Hw. unfold write. destruct (streams w !! f) as [st|] eqn:Hf; [|done].
  destruct (closed st); [done|]. split; [|done]. destruct Hw as [H1 H2 H3 H4].
  constructor; cbn [polys streams with_streams]; [|rewrite length_insert; lia|done..].
  intros h Hh. rewrite closes_of_insert by done. auto.
Qed.

Lemma keeps_read f : keeps I (read f) (fun _ => True).
Proof.
  intros w Hw. unfold read. destruct (streams w !! f) as [st|]; [|done].
  destruct (closed st); done.
Qed.

Lemma keeps_close f : C f -> keeps I (close f) (fun _ => True).
Proof.
  intros HC w Hw. unfold close. destruct (streams w !! f) as [st|] eqn:Hf; [|done].
  split; [|done]. destruct Hw as [H1 H2 H3 H4].
  constructor; cbn [polys streams with_streams]; [|rewrite length_insert; lia|done..].
  intros h Hh. rewrite closes_of_close by done.
  destruct (decide (h = f)) as [->|]; [done|auto].
Qed.

Lemma keeps_get p : keeps I (get p) (fun _ => True).
Proof. intros w Hw. unfold get. destruct (polys w !! p); done. Qed.

Lemma keeps_clone p : keeps I (clone p) (fun h => length (polys w0) <= h).
Proof.
  intros w Hw. unfold clone. destruct (polys w !! p) as [v|]; [|done].
  destruct Hw as [H1 H2 H3 H4]. split; [|done].
  constructor; cbn [polys streams with_polys]; [done..|rewrite length_app; lia|].
  intros h Hh. rewrite lookup_app_l by lia. auto.
Qed.

Lemma keeps_mutate p g :
  length (polys w0) <= p -> keeps I (mutate p g) (fun _ => True).
Proof.
  intros Hp w Hw. unfold mutate. destruct (polys w !! p) as [v|]; [|done].
  destruct Hw as [H1 H2 H3 H4]. split; [|done].
  constructor; cbn [polys streams with_polys]; [done..|rewrite length_insert; lia|].
  intros h Hh. rewrite list_lookup_insert_ne by lia. auto.
Qed.

Lemma keeps_open_w name : keeps I (open_w name) (fun h => length (streams w0) <= h).
Proof.
  intros w Hw. unfold open_w. destruct (decide _); [done|].
  by apply keeps_new_stream.
Qed.

Lemma keeps_open_r name : keeps I (open_r name) (fun h => length (streams w0) <= h).
Proof.
  intros w Hw. unfold open_r. destruct (files w !! name); [|done].
  by apply keeps_new_stream.
Qed.

Lemma keeps_getWritableObject ofile :
  keeps I (getWritableObject ofile) (fun _ => True).
Proof.
  destruct ofile; cbn [getWritableObject].
  - eapply keeps_bind; [apply keeps_new_stream|]. intros; by apply keeps_ret.
  - eapply keeps_bind; [apply keeps_open_w|]. intros; by apply keeps_ret.
  - by apply keeps_ret.
  - apply keeps_raise.
Qed.

Lemma keeps_getReadableObject ifile :
  keeps I (getReadableObject ifile) (fun _ => True).
Proof.
  destruct ifile; cbn [getReadableObject]; try apply keeps_raise.
  - intros w Hw. pose proof (keeps_open_r name w Hw) as Ho.
    destruct (open_r name w) as [[f|e] w'] eqn:Eo.
    + destruct Ho. done.
    + assert (Hs : keeps I (let! f := StringIO name in retM (f, true)) (fun _ => True)).
      { eapply keeps_bind; [apply keeps_new_stream|]. intros; by apply keeps_ret. }
      apply (Hs w Hw).
  - by apply keeps_ret.
Qed.

End Primitives.

Ltac keeps_prim :=
  first
    [ apply keeps_raise
    | apply keeps_lift
    | apply keeps_write
    | apply keeps_read
    | apply keeps_get
    | apply keeps_clone
    | apply keeps_new_stream
    | apply keeps_getWritableObject
    | apply keeps_getReadableObject
    | (apply keeps_close; done)
    | (apply keeps_ret; done)
    | (eapply keeps_weaken; [apply keeps_lift|done])
    | (eapply keeps_weaken; [apply keeps_write|done])
    | (eapply keeps_weaken; [apply keeps_get|done]) ].

Ltac keeps_go :=
  repeat first
    [ keeps_prim
    | (eapply keeps_bind; [keeps_prim|]; intros ? ?)
    | match goal with
      | |- keeps _ (let (_, _) := ?x in _) _ => destruct x
      | |- keeps _ (if ?b then _ else _) _ => destruct b
      | |- keeps _ (bindM (if ?b then _ else _) _) _ =>
          eapply keeps_bind with (Q := fun _ => True);
            [destruct b; keeps_prim|intros ? ?]
      end ].

Section WritersKeep.
Context `{Engine} `{Runtime}.
Context (w0 : world) (C : handle -> Prop).

Lemma keeps_gnuplot_contour f vl :
  keeps (inv w0 C) (gnuplot_contour f vl) (fun _ => True).
Proof.
  unfold gnuplot_contour.
  eapply keeps_bind; [apply keeps_forM; intros; apply keeps_write|]. intros _ _.
  keeps_go.
Qed.

Lemma keeps_gnuplot_body f polylist :
  keeps (inv w0 C)
    (forM polylist (fun p => let! v := get p in
                              forM v (fun c => gnuplot_contour f (points c))))
    (fun _ => True).
Proof.
  apply keeps_forM; intros p _.
  eapply keeps_bind; [apply keeps_get|]. intros v _.
  apply keeps_forM; intros c _. apply keeps_gnuplot_contour.
Qed.

Lemma keeps_triangles_body f polylist :
  keeps (inv w0 C)
    (forM polylist (fun p =>
       let! v := get p in
       forM (triStrip v) (fun vl =>
         let! _ := forM (seq 0 (length vl - 2)) (fun j =>
           let! text := lift (gnuplot_triangle vl j) in
           write f text) in
         write f nl)))
    (fun _ => True).
Proof.
  apply keeps_forM; intros p _.
  eapply keeps_bind; [apply keeps_get|]. intros v _.
  apply keeps_forM; intros vl _.
  eapply keeps_bind; [|intros; apply keeps_write].
  apply keeps_forM; intros j _. keeps_go.
Qed.

Lemma keeps_xml_body f polylist :
  keeps (inv w0 C)
    (forM polylist (fun p =>
       let! v := get p in
       let! l := lift (xml_polygon v) in
       write f (String.concat nl l)))
    (fun _ => True).
Proof. apply keeps_forM; intros p _. keeps_go. Qed.

Lemma keeps_layout flip polylist :
  keeps (inv w0 C) (layout flip polylist)
    (fun lay => Forall (fun h => length (polys w0) <= h) (pp lay)).
Proof.
  unfold layout.
  eapply keeps_bind; [apply keeps_mapM; intros; apply keeps_clone|]. intros pp Hpp.
  eapply keeps_bind with (Q := fun _ => True).
  { destruct flip; [|by apply keeps_ret].
    apply keeps_forM. intros p Hp. apply keeps_mutate.
    rewrite Forall_forall in Hpp. by apply Hpp. }
  intros _ _.
  eapply keeps_bind with (Q := fun _ => True).
  { eapply keeps_weaken; [apply keeps_mapM with (Q := fun _ => True)|done].
    intros p. keeps_go. }
  intros bbs _. keeps_go.
Qed.

Lemma keeps_warp lay width height i :
  Forall (fun h => length (polys w0) <= h) (pp lay) ->
  keeps (inv w0 C) (warp lay width height i) (fun _ => True).
Proof.
  intros Hpp. unfold warp.
  eapply keeps_bind; [apply keeps_lift|]. intros p Hp.
  do 5 (eapply keeps_bind; [apply keeps_lift|]; intros ? ?).
  eapply keeps_bind; [|intros; by apply keeps_ret].
  apply keeps_mutate. unfold index in Hp.
  destruct (pp lay !! i) as [p'|] eqn:Hi; [|done]. injection Hp as ->.
  rewrite Forall_forall in Hpp. apply Hpp. by eapply list_elem_of_lookup_2.
Qed.

Lemma keeps_svg_polygons lay width height lab labels_coords range : forall st,
  Forall (fun h => length (polys w0) <= h) (pp lay) ->
  keeps (inv w0 C) (svg_polygons lay width height lab labels_coords st range)
    (fun _ => True).
Proof.
  induction range as [|i range IH]; intros st Hpp; cbn [svg_polygons].
  - by apply keeps_ret.
  - eapply keeps_bind with (Q := fun _ => True); [|intros; by apply IH].
    unfold svg_polygon.
    eapply keeps_bind; [by apply keeps_warp|]. intros p _. keeps_go.
Qed.

Lemma keeps_pdf_polygons polys : forall st,
  keeps (inv w0 C) (pdf_polygons st polys) (fun _ => True).
Proof.
  induction polys as [|poly polys IH]; intros st; cbn [pdf_polygons].
  - by apply keeps_ret.
  - eapply keeps_bind with (Q := fun _ => True); [|intros; by apply IH].
    unfold pdf_polygon. keeps_go.
Qed.

End WritersKeep.

Lemma inv_weaken w0 (C C' : handle -> Prop) w :
  inv w0 C w -> (forall h, C h -> C' h) -> inv w0 C' w.
Proof. intros [H1 H2 H3 H4] HC. constructor; auto. Qed.

Lemma inv_prefix w0 C w : inv w0 C w -> take (length (polys w0)) (polys w) = polys w0.
Proof.
  intros [_ _ H3 H4]. apply list_eq. intros h.
  destruct (decide (h < length (polys w0))) as [Hh|Hh].
  - rewrite lookup_take_lt by done. auto.
  - rewrite lookup_take_ge by lia. symmetry. apply lookup_ge_None_2. lia.
Qed.

Lemma hoare_bind_keeps {A B} I (m : M A) (Q : A -> Prop) (k : A -> M B) R
    (E : world -> Prop) :
  keeps I m Q -> (forall w, I w -> E w) -> (forall a, Q a -> hoare I (k a) R E) ->
  hoare I (bindM m k) R E.
Proof.
  intros Hm HE Hk. eapply hoare_bind.
  - eapply hoare_conseq; [exact Hm|done|done|done].
  - intros a w [Hw Ha]. by apply Hk.
Qed.

(** The end of the scope: [if cl: f.close()], then a step [r] that
    touches no object. *)
Lemma hoare_release {A} w0 f cl (r : result A) :
  hoare (inv w0 (fun _ => False))
    (let! _ := (if cl : bool then close f else retM tt) in lift r)
    (fun _ w => inv w0 (only_owned f cl) w /\
                closes_of w f = closes_of w0 f + (if cl then 1 else 0))
    (inv w0 (only_owned f cl)).
Proof.
  intros w Hw. destruct cl; unfold bindM; cbn.
  - unfold close. destruct (streams w !! f) as [st|] eqn:Hf.
    + assert (Hk : keeps (inv w0 (only_owned f true)) (close f) (fun _ => True))
        by (by apply keeps_close).
      assert (Hw' : inv w0 (only_owned f true) w) by (by eapply inv_weaken).
      specialize (Hk w Hw'). unfold close in Hk. rewrite Hf in Hk.
      destruct Hk as [Hk _]. destruct r; [|done]. split; [done|].
      rewrite closes_of_close by done. rewrite decide_True by done.
      rewrite (inv_closes _ _ _ Hw) by tauto. lia.
    + by eapply inv_weaken.
  - assert (Hw' : inv w0 (only_owned f false) w) by (by eapply inv_weaken).
    destruct r; [|done]. split; [done|].
    rewrite (inv_closes _ _ _ Hw) by tauto. lia.
Qed.

(** The end of a writer: [if cl: f.close()] and [return].  The stream is
    still unclosed if the close itself raises. *)
Lemma hoare_release_ret {A} w0 f cl (a : A) :
  hoare (inv w0 (fun _ => False))
    (let! _ := (if cl : bool then close f else retM tt) in retM a)
    (fun _ w => inv w0 (only_owned f cl) w /\
                closes_of w f = closes_of w0 f + (if cl then 1 else 0))
    (inv w0 (fun _ => False)).
Proof.
  intros w Hw. pose proof (hoare_release w0 f cl (Ok a) w Hw) as Hr.
  change (lift (Ok a)) with (retM (A := A) a) in Hr.
  destruct ((let! _ := (if cl : bool then close f else retM tt) in retM a) w)
    as [[a'|e] w'] eqn:Hm; [done|].
  unfold bindM in Hm. destruct cl.
  - unfold close in Hm. destruct (streams w !! f); [done|]. by injection Hm as _ <-.
  - done.
Qed.

Lemma hoare_scoped_writer {A} w0 f cl (m : M A) w1 :
  inv w0 (fun _ => False) w1 ->
  hoare (inv w0 (fun _ => False)) m
    (fun _ w => inv w0 (only_owned f cl) w /\
                closes_of w f = closes_of w0 f + (if cl then 1 else 0))
    (inv w0 (fun _ => False)) ->
  scoped w0 f cl (m w1) /\ unreleased w0 f (m w1).
Proof.
  intros Hw Hm. specialize (Hm w1 Hw). unfold scoped, unreleased.
  destruct (m w1) as [[a|e] w']; cbn [fst snd is_ok].
  - split; [tauto|done].
  - split; [split; [by eapply inv_weaken|done]|].
    intros _. apply (inv_closes _ _ _ Hm). tauto.
Qed.

Lemma hoare_scoped {A} w0 f cl (m : M A) w1 :
  inv w0 (fun _ => False) w1 ->
  hoare (inv w0 (fun _ => False)) m
    (fun _ w => inv w0 (only_owned f cl) w /\
                closes_of w f = closes_of w0 f + (if cl then 1 else 0))
    (inv w0 (only_owned f cl)) ->
  scoped w0 f cl (m w1).
Proof.
  intros Hw Hm. specialize (Hm w1 Hw). unfold scoped.
  destruct (m w1) as [[a|e] w']; cbn; [tauto|]. split; [done|]. done.
Qed.

Lemma resolved_write ofile w f cl w1 :
  getWritableObject ofile w = (Ok (f, cl), w1) -> inv w (fun _ => False) w1.
Proof.
  intros Hr. pose proof (keeps_getWritableObject w (fun _ => False) ofile w (inv_refl _ _)) as Hk.
  rewrite Hr in Hk. tauto.
Qed.

Lemma resolved_read ifile w f cl w1 :
  getReadableObject ifile w = (Ok (f, cl), w1) -> inv w (fun _ => False) w1.
Proof.
  intros Hr. pose proof (keeps_getReadableObject w (fun _ => False) ifile w (inv_refl _ _)) as Hk.
  rewrite Hr in Hk. tauto.
Qed.

Ltac chain lem :=
  eapply hoare_bind_keeps;
    [lem
    |intros ? ?; first [exact Logic.I | eapply inv_weaken; [eassumption|cbv beta; tauto]]
    |intros ? ?].

Ltac chain_go :=
  repeat first
    [ apply hoare_release_ret
    | apply hoare_release
    | chain ltac:(keeps_prim)
    | match goal with
      | |- hoare _ (let (_, _) := ?x in _) _ _ => destruct x
      end ].

Lemma bind_resolved {A B} (m : M A) (k : A -> M B) w a w1 :
  m w = (Ok a, w1) -> bindM m k w = k a w1.
Proof. intros Hm. unfold bindM. by rewrite Hm. Qed.

Lemma bind_failed {A B} (m : M A) (k : A -> M B) w e w1 :
  m w = (Err e, w1) -> bindM m k w = (Err e, w1).
Proof. intros Hm. unfold bindM. by rewrite Hm. Qed.

Section WritersScoped.
Context `{Engine} `{Runtime}.

Lemma writeGnuplot_scoped ofile polylist w f cl w1 :
  getWritableObject ofile w = (Ok (f, cl), w1) ->
  scoped w f cl (writeGnuplot ofile polylist w) /\
  unreleased w f (writeGnuplot ofile polylist w).
Proof.
  intros Hr. unfold writeGnuplot. rewrite (bind_resolved _ _ _ _ _ Hr).
  apply hoare_scoped_writer; [by eapply resolved_write|].
  chain ltac:(apply keeps_gnuplot_body). chain_go.
Qed.

Lemma writeXML_scoped ofile polylist withHeader w f cl w1 :
  getWritableObject ofile w = (Ok (f, cl), w1) ->
  scoped w f cl (writeXML ofile polylist withHeader w) /\
  unreleased w f (writeXML ofile polylist withHeader w).
Proof.
  intros Hr. unfold writeXML. rewrite (bind_resolved _ _ _ _ _ Hr).
  apply hoare_scoped_writer; [by eapply resolved_write|].
  chain ltac:(destruct withHeader; keeps_prim).
  chain ltac:(apply keeps_xml_body). chain_go.
Qed.

Lemma keeps_svg_setup w0 C ofile polylist width height :
  keeps (inv w0 C) (svg_setup ofile polylist width height)
    (fun su => Forall (fun h => length (polys w0) <= h) (pp (su_lay su))).
Proof.
  unfold svg_setup.
  eapply keeps_bind; [apply keeps_getWritableObject|]. intros [f cl] _.
  eapply keeps_bind; [apply keeps_layout|]. intros lay Hlay.
  do 3 (eapply keeps_bind; [keeps_prim|]; intros ? ?;
        try match goal with
            | |- keeps _ (let (_, _) := ?x in _) _ => destruct x end).
  by apply keeps_ret.
Qed.

Lemma svg_setup_resolved ofile polylist width height w f cl w1 su w2 :
  getWritableObject ofile w = (Ok (f, cl), w1) ->
  svg_setup ofile polylist width height w = (Ok su, w2) ->
  su_f su = f /\ su_cl su = cl.
Proof.
  intros Hr. unfold svg_setup. rewrite (bind_resolved _ _ _ _ _ Hr).
  unfold bindM, lift, retM.
  repeat match goal with
         | |- context [match ?x with _ => _ end] => destruct x
         end; intros [= <- _]; done.
Qed.

Lemma writeSVG_scoped ofile polylist width height fc fo sc sw labels labels_coords
    labels_centered w f cl w1 :
  getWritableObject ofile w = (Ok (f, cl), w1) ->
  scoped w f cl (writeSVG ofile polylist width height fc fo sc sw labels labels_coords
                          labels_centered w) /\
  unreleased w f (writeSVG ofile polylist width height fc fo sc sw labels labels_coords
                           labels_centered w).
Proof.
  intros Hr. unfold writeSVG.
  pose proof (keeps_svg_setup w (fun _ => False) ofile polylist width height w
                (inv_refl _ _)) as Hs.
  destruct (svg_setup ofile polylist width height w) as [[su|e] w2] eqn:Hsu.
  - rewrite (bind_resolved _ _ _ _ _ Hsu).
    destruct (svg_setup_resolved _ _ _ _ _ _ _ _ _ _ Hr Hsu) as [<- <-].
    destruct Hs as [Hw2 Hpp].
    apply hoare_scoped_writer; [done|].
    chain ltac:(keeps_prim). unfold svg_body.
    do 3 (chain ltac:(keeps_prim)).
    chain ltac:(by apply keeps_svg_polygons). chain_go.
  - rewrite (bind_failed _ _ _ _ _ Hsu). unfold scoped, unreleased. cbn [fst snd is_ok].
    split; [split; [by eapply inv_weaken|done]|].
    intros _. apply (inv_closes _ _ _ Hs). tauto.
Qed.

Lemma readXML_scoped ifile w f cl w1 :
  getReadableObject ifile w = (Ok (f, cl), w1) ->
  scoped w f cl (readXML ifile w).
Proof.
  intros Hr. unfold readXML. rewrite (bind_resolved _ _ _ _ _ Hr).
  apply hoare_scoped; [by eapply resolved_read|]. chain_go.
Qed.

Lemma hoare_close_twice w0 f cl :
  hoare (inv w0 (fun _ => False))
    (let! _ := (if cl : bool then close f else retM tt) in close f)
    (fun _ w => closes_of w0 f < closes_of w f) (fun _ => True).
Proof.
  assert (Hc : forall w, match close f w with
                         | (Ok _, w') => closes_of w' f = S (closes_of w f)
                         | (Err _, w') => True
                         end).
  { intros w'. unfold close. destruct (streams w' !! f) eqn:Hf; [|done].
    rewrite closes_of_close by done. by rewrite decide_True. }
  intros w Hw. unfold bindM. destruct cl.
  - pose proof (Hc w) as H2. destruct (close f w) as [[[]|e] w3]; [|done].
    pose proof (Hc w3) as H3. destruct (close f w3) as [[[]|e] w4]; [|done].
    rewrite H3, H2, (inv_closes _ _ _ Hw) by tauto. lia.
  - cbn [retM]. pose proof (Hc w) as H2. destruct (close f w) as [[[]|e] w3]; [|done].
    rewrite H2, (inv_closes _ _ _ Hw) by tauto. lia.
Qed.

Lemma writeGnuplotTriangles_closes ofile polylist w f cl w1 :
  getWritableObject ofile w = (Ok (f, cl), w1) ->
  is_ok (writeGnuplotTriangles ofile polylist w).1 = true ->
  closes_of w f < closes_of (writeGnuplotTriangles ofile polylist w).2 f.
Proof.
  intros Hr. unfold writeGnuplotTriangles. rewrite !(bind_resolved _ _ _ _ _ Hr).
  match goal with
  | |- is_ok (?m w1).1 = true -> _ =>
      assert (Hm : hoare (inv w (fun _ => False)) m
                     (fun _ w' => closes_of w f < closes_of w' f) (fun _ => True))
  end.
  { chain ltac:(apply keeps_triangles_body). apply hoare_close_twice. }
  specialize (Hm w1 (resolved_write _ _ _ _ _ Hr)).
  match goal with |- is_ok (?m w1).1 = true -> _ => destruct (m w1) as [[[]|e] w2] end;
    cbn [fst snd is_ok]; [intros _; exact Hm|discriminate].
Qed.

Lemma keeps_writeSVG w0 ofile polylist width height fc fo sc sw labels labels_coords
    labels_centered :
  keeps (inv w0 (fun _ => True))
    (writeSVG ofile polylist width height fc fo sc sw labels labels_coords labels_centered)
    (fun _ => True).
Proof.
  unfold writeSVG.
  eapply keeps_bind; [apply keeps_svg_setup|]. intros su Hpp.
  eapply keeps_bind; [keeps_prim|]; intros ? ?. unfold svg_body.
  do 3 (eapply keeps_bind; [keeps_prim|]; intros ? ?).
  eapply keeps_bind; [by apply keeps_svg_polygons|]. intros [? ?] _.
  keeps_go.
Qed.

Lemma keeps_writePDF w0 ofile polylist pagesize linewidth fill_color :
  keeps (inv w0 (fun _ => True))
    (writePDF ofile polylist pagesize linewidth fill_color) (fun _ => True).
Proof.
  unfold writePDF.
  eapply keeps_bind; [apply keeps_layout|]. intros lay Hlay.
  do 4 (eapply keeps_bind; [keeps_prim|]; intros ? ?).
  eapply keeps_bind with (Q := fun _ => True).
  { apply keeps_forM. intros i _.
    eapply keeps_bind; [by apply keeps_warp|]. intros; by apply keeps_ret. }
  intros _ _.
  eapply keeps_bind; [apply keeps_pdf_polygons|]. intros [? ?] _.
  keeps_go.
Qed.

End WritersScoped.

(** ** The errors of [writeSVG] *)

Lemma fails_in_ok {A} S (a : A) : fails_in S (Ok a).
Proof. intros e. discriminate. Qed.

Lemma fails_in_err {A} (S : error -> Prop) e : S e -> fails_in S (@Err A e).
Proof. intros He e' [= <-]. done. Qed.

Lemma fails_in_bind {A B} S (r : result A) (k : A -> result B) :
  fails_in S r -> (forall a, r = Ok a -> fails_in S (k a)) -> fails_in S (r ≫= k).
Proof.
  intros Hr Hk. destruct r as [a|e]; cbn.
  - by apply Hk.
  - intros e' [= <-]. by apply Hr.
Qed.

Lemma fails_in_mapR {A B} S (g : A -> result B) xs :
  (forall x, fails_in S (g x)) -> fails_in S (mapR g xs).
Proof.
  intros Hg. induction xs as [|x xs IH]; cbn [mapR]; [apply fails_in_ok|].
  apply fails_in_bind; [apply Hg|]. intros y _.
  apply fails_in_bind; [apply IH|]. intros ys _. apply fails_in_ok.
Qed.

Lemma raises_ret {A} S (a : A) : raises S (retM a).
Proof. intros w e. discriminate. Qed.

Lemma raises_lift {A} S (r : result A) : fails_in S r -> raises S (lift r).
Proof. intros Hr w. exact Hr. Qed.

Lemma raises_bind {A B} S (m : M A) (k : A -> M B) :
  raises S m -> (forall a, raises S (k a)) -> raises S (bindM m k).
Proof.
  intros Hm Hk w. unfold bindM. specialize (Hm w).
  destruct (m w) as [[a|e] w']; [apply Hk|].
  intros e' [= <-]. by apply Hm.
Qed.

Ltac fails_go :=
  repeat first
    [ apply fails_in_ok
    | (apply fails_in_err;
       first [ done
             | match goal with
               | HS : forall e, runtime_error e = true -> _ |- _ => apply HS; done
               end ])
    | (apply fails_in_bind; [|intros ? ?])
    | match goal with
      | |- fails_in _ (match ?x with _ => _ end) => destruct x
      | |- fails_in _ (index ?s ?i) => unfold index
      end ].

Section RuntimeErrors.
Context `{Engine} `{Runtime}.
Context (S : error -> Prop) (HS : forall e, runtime_error e = true -> S e).

Lemma fails_in_index {A} (s : list A) i : fails_in S (index s i).
Proof. unfold index. destruct (s !! i); fails_go. Qed.

Lemma fails_in_py_div x y : fails_in S (py_div x y).
Proof. unfold py_div. fails_go. Qed.

Lemma fails_in_num x : fails_in S (num x).
Proof. unfold num. fails_go. Qed.

Lemma fails_in_call {A} (self : RingBuffer.__RingBuffer A) :
  fails_in S (RingBuffer.__call__ self).
Proof. unfold RingBuffer.__call__. fails_go. Qed.

Lemma fails_in_svg_size a width height : fails_in S (svg_size a width height).
Proof. unfold svg_size, num, py_div. fails_go. Qed.

Lemma fails_in_svg_head width height : fails_in S (svg_head width height).
Proof. unfold svg_head, num, of_option. fails_go. Qed.

Lemma fails_in_svg_subpath c : fails_in S (svg_subpath c).
Proof. unfold svg_subpath. fails_go. Qed.

Lemma fails_in_label_anchor lay width height labels_coords i v :
  fails_in S (label_anchor lay width height labels_coords i v).
Proof. unfold label_anchor, py_div. fails_go. Qed.

Lemma raises_write f text : raises S (write f text).
Proof.
  intros w. unfold write. destruct (streams w !! f) as [st|]; [|by apply fails_in_err; auto].
  destruct (closed st); [by apply fails_in_err; auto|apply fails_in_ok].
Qed.

Lemma raises_close f : raises S (close f).
Proof.
  intros w. unfold close.
  destruct (streams w !! f) as [st|]; [apply fails_in_ok|by apply fails_in_err; auto].
Qed.

Lemma raises_get p : raises S (get p).
Proof.
  intros w. unfold get.
  destruct (polys w !! p); [apply fails_in_ok|by apply fails_in_err; auto].
Qed.

Lemma raises_mutate p g : raises S (mutate p g).
Proof.
  intros w. unfold mutate.
  destruct (polys w !! p); [apply fails_in_ok|by apply fails_in_err; auto].
Qed.

Ltac raises_go :=
  repeat first
    [ apply raises_ret
    | apply raises_write
    | apply raises_close
    | apply raises_get
    | apply raises_mutate
    | (apply raises_lift;
       first [ apply fails_in_index | apply fails_in_py_div | apply fails_in_num
             | apply fails_in_call | apply fails_in_label_anchor
             | (apply fails_in_mapR; intros; apply fails_in_svg_subpath) ])
    | (apply raises_bind; [|intros ?])
    | match goal with
      | |- raises _ (let (_, _) := ?x in _) => destruct x
      | |- raises _ (if ?b then _ else _) => destruct b
      end ].

Lemma raises_warp lay width height i : raises S (warp lay width height i).
Proof. unfold warp. raises_go. Qed.

Lemma raises_svg_polygons lay width height lab labels_coords range : forall st,
  raises S (svg_polygons lay width height lab labels_coords st range).
Proof.
  induction range as [|i range IH]; intros st; cbn [svg_polygons]; [apply raises_ret|].
  apply raises_bind; [|intros; apply IH].
  unfold svg_polygon. apply raises_bind; [apply raises_warp|]. intros p. raises_go.
Qed.

End RuntimeErrors.

Lemma bind_Ok_inv {A B} (m : M A) (k : A -> M B) w b w' :
  bindM m k w = (Ok b, w') -> exists a w1, m w = (Ok a, w1) /\ k a w1 = (Ok b, w').
Proof.
  unfold bindM. destruct (m w) as [[a|e] w1]; [|done]. intros Hk. by exists a, w1.
Qed.

Lemma mapM_length {A B} (g : A -> M B) xs : forall w ys w',
  mapM g xs w = (Ok ys, w') -> length ys = length xs.
Proof.
  induction xs as [|x xs IH]; intros w ys w'; cbn [mapM].
  - intros [= <- _]. done.
  - intros (y & w1 & _ & (ys' & w2 & Hys & [= <- _])%bind_Ok_inv)%bind_Ok_inv.
    cbn [length]. f_equal. by eapply IH.
Qed.

Lemma fails_bind_l {A B} (m : M A) (k : A -> M B) : fails m -> fails (bindM m k).
Proof.
  intros Hm w. unfold bindM. specialize (Hm w). by destruct (m w) as [[a|e] w'].
Qed.

Lemma fails_bind_r {A B} (m : M A) (k : A -> M B) :
  (forall a, fails (k a)) -> fails (bindM m k).
Proof.
  intros Hk w. unfold bindM. destruct (m w) as [[a|e] w']; [apply Hk|done].
Qed.

Section Extent.
Context `{Engine} `{Runtime}.

Lemma layout_lengths flip polylist w lay w' :
  layout flip polylist w = (Ok lay, w') ->
  length (pp lay) = length polylist /\ length (bbs lay) = length polylist /\
  polylist <> [].
Proof.
  unfold layout.
  intros (pp & w1 & Hpp & (_ & w2 & _ & (bbs & w3 & Hbbs & Hrest)%bind_Ok_inv)%bind_Ok_inv)%bind_Ok_inv.
  apply mapM_length in Hpp, Hbbs.
  apply bind_Ok_inv in Hrest as (minx & w4 & Hminx & Hrest).
  do 3 apply bind_Ok_inv in Hrest as (? & ? & _ & Hrest).
  injection Hrest as <- _. cbn [IO.pp IO.bbs].
  split; [done|]. split; [congruence|].
  intros ->. destruct pp; [|done]. destruct bbs; [|done]. done.
Qed.

Lemma mapM_clone_ok xs : forall w,
  Forall (fun p => p < length (polys w)) xs ->
  exists w', mapM clone xs w = (Ok (seq (length (polys w)) (length xs)), w') /\
             length (polys w') = length (polys w) + length xs.
Proof.
  induction xs as [|x xs IH]; intros w Hv.
  - exists w. cbn. split; [done|lia].
  - inversion_clear Hv as [|? ? Hx Hxs]. cbn [mapM].
    destruct (lookup_lt_is_Some_2 _ _ Hx) as [v Hv].
    set (w1 := with_polys w (polys w ++ [v])).
    assert (Hc : clone x w = (Ok (length (polys w)), w1)) by (unfold clone; by rewrite Hv).
    assert (Hl : length (polys w1) = S (length (polys w))).
    { unfold w1. cbn [polys with_polys]. rewrite length_app. cbn. lia. }
    destruct (IH w1) as (w' & Hm & Hl').
    { eapply Forall_impl; [exact Hxs|]. intros p Hp. cbv beta in *. lia. }
    exists w'. rewrite (bind_resolved _ _ _ _ _ Hc), (bind_resolved _ _ _ _ _ Hm).
    rewrite Hl in Hm, Hl'. split; [by rewrite Hl|]. cbn [length]. lia.
Qed.

Lemma forM_mutate_ok g ys : forall w,
  Forall (fun p => p < length (polys w)) ys ->
  exists w', forM ys (fun p => mutate p g) w = (Ok tt, w') /\
             length (polys w') = length (polys w).
Proof.
  induction ys as [|y ys IH]; intros w Hv.
  - by exists w.
  - inversion_clear Hv as [|? ? Hy Hys]. cbn [forM].
    destruct (lookup_lt_is_Some_2 _ _ Hy) as [v Hv].
    set (w1 := with_polys w (<[y := g v]> (polys w))).
    assert (Hc : mutate y g w = (Ok tt, w1)) by (unfold mutate; by rewrite Hv).
    assert (Hl : length (polys w1) = length (polys w)).
    { unfold w1. cbn [polys with_polys]. apply length_insert. }
    destruct (IH w1) as (w' & Hm & Hl'); [by rewrite Hl|].
    exists w'. rewrite (bind_resolved _ _ _ _ _ Hc). split; [done|congruence].
Qed.

Lemma mapM_get_ok {B} (k : Polygon float -> B) ys w :
  Forall (fun p => p < length (polys w)) ys ->
  exists bs, mapM (fun p => let! v := get p in retM (k v)) ys w = (Ok bs, w) /\
             length bs = length ys.
Proof.
  induction ys as [|y ys IH]; intros Hv.
  - by exists [].
  - inversion_clear Hv as [|? ? Hy Hys]. cbn [mapM].
    destruct (lookup_lt_is_Some_2 _ _ Hy) as [v Hv].
    destruct (IH Hys) as (bs & Hm & Hl).
    exists (k v :: bs). split; [|cbn; lia].
    unfold bindM at 1 2, get. rewrite Hv. cbn [retM].
    rewrite (bind_resolved _ _ _ _ _ Hm). done.
Qed.

(** A non-empty collection of existing polygon objects is laid out. *)
Lemma layout_ok flip polylist w :
  polylist <> [] -> Forall (fun p => p < length (polys w)) polylist ->
  exists lay w', layout flip polylist w = (Ok lay, w').
Proof.
  intros Hne Hv. unfold layout.
  destruct (mapM_clone_ok polylist w Hv) as (w1 & Hc & Hl1).
  rewrite (bind_resolved _ _ _ _ _ Hc).
  set (pp := seq (length (polys w)) (length polylist)) in *.
  assert (Hpp : forall w', length (polys w') = length (polys w1) ->
                           Forall (fun p => p < length (polys w')) pp).
  { intros w' Hw'. apply Forall_forall. intros p [_ Hp]%elem_of_seq. lia. }
  assert (Hf : exists w2, (if flip then forM pp (fun p => mutate p (IO.flop 0)) else retM tt) w1
                          = (Ok tt, w2) /\ length (polys w2) = length (polys w1)).
  { destruct flip; [|by exists w1]. apply forM_mutate_ok. by apply Hpp. }
  destruct Hf as (w2 & Hf & Hl2). rewrite (bind_resolved _ _ _ _ _ Hf).
  destruct (mapM_get_ok boundingBox pp w2 (Hpp w2 Hl2)) as (bbs & Hb & Hlb).
  rewrite (bind_resolved _ _ _ _ _ Hb).
  assert (Hbbs : exists bb bbs', bbs = bb :: bbs').
  { destruct bbs as [|bb bbs']; [|by eexists _, _].
    unfold pp in Hlb. rewrite length_seq in Hlb. destruct polylist; [done|discriminate]. }
  destruct Hbbs as (bb & bbs' & ->). by eexists _, _.
Qed.

Lemma check_extent_spec lay :
  check_extent lay = if is_zero (xdim lay) && is_zero (ydim lay)
                     then Err DegenerateExtent else Ok tt.
Proof.
  unfold check_extent, py_or, truthy, is_zero.
  destruct (xdim lay =? 0)%float eqn:Ex; cbn [negb andb]; [|by rewrite Ex].
  by destruct (ydim lay =? 0)%float.
Qed.

Lemma svg_setup_steps ofile polylist width height w f cl w1 lay w2 :
  getWritableObject ofile w = (Ok (f, cl), w1) ->
  layout true polylist w1 = (Ok lay, w2) ->
  svg_setup ofile polylist width height w
  = (let! _ := lift (check_extent lay) in
     let! a := lift (py_div (ydim lay) (xdim lay)) in
     let! (width, height) := lift (svg_size a width height) in
     retM (mkSetup f cl lay width height)) w2.
Proof.
  intros Hr Hl. unfold svg_setup.
  rewrite (bind_resolved _ _ _ _ _ Hr), (bind_resolved _ _ _ _ _ Hl). done.
Qed.

Lemma warp_fails_flat lay width height :
  is_zero (ydim lay) = true -> is_zero (xdim lay) = false ->
  0 < length (pp lay) -> length (bbs lay) = length (pp lay) ->
  fails (warp lay width height 0).
Proof.
  intros Hy Hx Hn Hb w. unfold warp, index.
  destruct (pp lay !! 0) as [p|] eqn:Hp; [|done].
  destruct (bbs lay !! 0) as [bb|] eqn:Hbb; [|done].
  unfold bindM, lift, py_div. unfold is_zero in *. rewrite Hx, Hy. done.
Qed.

Lemma svg_body_fails_flat su lab fc fo sc sw labels_coords :
  is_zero (ydim (su_lay su)) = true -> is_zero (xdim (su_lay su)) = false ->
  0 < length (pp (su_lay su)) -> length (bbs (su_lay su)) = length (pp (su_lay su)) ->
  fails (svg_body su lab fc fo sc sw labels_coords).
Proof.
  intros Hy Hx Hn Hb. unfold svg_body.
  do 3 (apply fails_bind_r; intros ?). apply fails_bind_l.
  destruct (length (pp (su_lay su))) as [|n] eqn:En; [lia|].
  cbn [seq svg_polygons]. apply fails_bind_l. unfold svg_polygon.
  apply fails_bind_l. apply warp_fails_flat; [done..|lia|congruence].
Qed.

End Extent.

Lemma bind_cong {A B} (m m' : M A) (k : A -> M B) w w' :
  m w = m' w' -> bindM m k w = bindM m' k w'.
Proof. intros Hm. unfold bindM. by rewrite Hm. Qed.

Lemma bind_assoc_at {A B C} (m : M A) (k1 : A -> M B) (k2 : B -> M C) w :
  bindM (bindM m k1) k2 w = bindM m (fun a => bindM (k1 a) k2) w.
Proof. unfold bindM. by destruct (m w) as [[a|e] w']. Qed.

Lemma bind_lift_ok {A B} (r : result A) a (k : A -> M B) w :
  r = Ok a -> bindM (lift r) k w = k a w.
Proof. by intros ->. Qed.

Lemma bind_lift_err {A B} (r : result A) e (k : A -> M B) w :
  r = Err e -> bindM (lift r) k w = (Err e, w).
Proof. by intros ->. Qed.

Section SvgErrors.
Context `{Engine} `{Runtime}.

Lemma raises_svg_body S su lab fc fo sc sw labels_coords :
  (forall e, runtime_error e = true -> S e) ->
  raises S (svg_body su lab fc fo sc sw labels_coords).
Proof.
  intros HS. unfold svg_body.
  apply raises_bind; [apply raises_lift; by apply fails_in_svg_head|]. intros s.
  apply raises_bind; [apply raises_lift; by apply fails_in_num|]. intros wd.
  apply raises_bind; [apply raises_lift; by apply fails_in_num|]. intros ht.
  apply raises_bind; [by apply raises_svg_polygons|]. intros [rings s'].
  apply raises_bind; [by apply raises_write|]. intros _.
  apply raises_bind; [|intros; apply raises_ret].
  destruct (su_cl su); [by apply raises_close|apply raises_ret].
Qed.

Lemma fails_in_svg_labels npoly labels labels_coords labels_centered :
  fails_in label_error (svg_labels npoly labels labels_coords labels_centered).
Proof.
  unfold svg_labels.
  repeat match goal with
         | |- fails_in _ (if ?b then _ else _) => destruct b
         end; first [apply fails_in_ok | apply fails_in_err; unfold label_error; tauto].
Qed.

(** Past the setup, [writeSVG] ends with a label error or a runtime error. *)
Lemma raises_after_setup S su labels labels_coords labels_centered fc fo sc sw :
  (forall e, runtime_error e = true -> S e) -> (forall e, label_error e -> S e) ->
  raises S (let! lab := lift (svg_labels (length (pp (su_lay su))) labels labels_coords
                                         labels_centered) in
            svg_body su lab fc fo sc sw labels_coords).
Proof.
  intros HS HL. apply raises_bind; [|intros; by apply raises_svg_body].
  apply raises_lift. intros e He. apply HL. by eapply fails_in_svg_labels.
Qed.

Lemma raises_writeSVG_after_check S f cl lay width height labels labels_coords
    labels_centered fc fo sc sw :
  (forall e, runtime_error e = true -> S e) -> (forall e, label_error e -> S e) ->
  raises S
    (let! su := (let! a := lift (py_div (ydim lay) (xdim lay)) in
                 let! (width, height) := lift (svg_size a width height) in
                 retM (mkSetup f cl lay width height)) in
     let! lab := lift (svg_labels (length (pp (su_lay su))) labels labels_coords
                                  labels_centered) in
     svg_body su lab fc fo sc sw labels_coords).
Proof.
  intros HS HL. apply raises_bind; [|intros; by apply raises_after_setup].
  apply raises_bind; [apply raises_lift; by apply fails_in_py_div|]. intros a.
  apply raises_bind; [apply raises_lift; by apply fails_in_svg_size|]. intros [? ?].
  apply raises_ret.
Qed.


Lemma svg_setup_npoly ofile polylist width height w su w1 :
  svg_setup ofile polylist width height w = (Ok su, w1) ->
  length (pp (su_lay su)) = length polylist.
Proof.
  unfold svg_setup.
  intros ([f cl] & w2 & _ & (lay & w3 & Hl & Hrest)%bind_Ok_inv)%bind_Ok_inv.
  do 2 apply bind_Ok_inv in Hrest as (? & ? & _ & Hrest).
  apply bind_Ok_inv in Hrest as ([wd ht] & ? & _ & Hrest).
  injection Hrest as <- _. cbn [su_lay]. by apply layout_lengths in Hl as [? _].
Qed.

Lemma svg_labels_count npoly ls labels_coords labels_centered :
  ls <> [] -> length ls <> npoly ->
  svg_labels npoly (Some ls) labels_coords labels_centered = Err LabelCountMismatch.
Proof.
  intros Hne Hn. unfold svg_labels. destruct ls as [|x ls]; [done|].
  cbn [truthy_seq default from_option id]. set (n := length (x :: ls)) in *.
  destruct (Nat.eqb_spec n 0) as [E|_]; [subst n; cbn in E; lia|].
  by destruct (Nat.eqb_spec n npoly).
Qed.

Lemma svg_labels_coords npoly ls cs labels_centered :
  ls <> [] -> length ls = npoly -> cs <> [] -> length cs <> length ls ->
  svg_labels npoly (Some ls) (Some cs) labels_centered = Err LabelCoordMismatch.
Proof.
  intros Hne Hn Hc Hl. unfold svg_labels. destruct ls as [|x ls]; [done|].
  destruct cs as [|c cs]; [done|].
  cbn [truthy_seq default from_option id]. set (n := length (x :: ls)) in *.
  set (k := length (c :: cs)) in *.
  destruct (Nat.eqb_spec n 0) as [E|_]; [subst n; cbn in E; lia|].
  destruct (Nat.eqb_spec n npoly); [|done]. cbn [negb andb].
  by destruct (Nat.eqb_spec k n).
Qed.

Lemma svg_labels_unused npoly labels labels_coords labels_centered :
  truthy_seq labels = false ->
  svg_labels npoly labels labels_coords labels_centered = Ok (mkLabels labels "" "").
Proof. intros Hl. unfold svg_labels. by rewrite Hl. Qed.

(** The label written for the polygon at index [i] when no coordinates
    are in use. *)
Lemma svg_polygon_anchor lay width height lab labels_coords st i w st' w' :
  truthy_seq (labels_used lab) = true -> truthy_seq labels_coords = false ->
  svg_polygon lay width height lab labels_coords st i w = (Ok st', w') ->
  exists p v text path,
    pp lay !! i = Some p /\ polys w' !! p = Some v /\
    default [] (labels_used lab) !! i = Some text /\
    st'.2 = st.2 ++ ["<g>"; path; label_svg (center v).1 (center v).2 lab text; "</g>"].
Proof.
  intros Hlab Hco. unfold svg_polygon. rewrite Hlab.
  intros (p & w1 & Hwarp & Hrest)%bind_Ok_inv.
  do 4 apply bind_Ok_inv in Hrest as ([? ?] & ? & [= _ <-] & Hrest).
  apply bind_Ok_inv in Hrest as (v & ? & Hget & Hrest).
  apply bind_Ok_inv in Hrest as (subpaths & ? & [= _ <-] & Hrest).
  apply bind_Ok_inv in Hrest as ([cx cy] & ? & [= Hxy <-] & Hrest).
  apply bind_Ok_inv in Hrest as (text & ? & [= Htext <-] & Hrest).
  injection Hrest as <- <-.
  unfold label_anchor in Hxy. rewrite Hco in Hxy. injection Hxy as Hxy.
  unfold get in Hget. destruct (polys w1 !! p) as [v'|] eqn:Hp; [|done].
  injection Hget as -> <-.
  unfold warp in Hwarp. apply bind_Ok_inv in Hwarp as (p' & ? & [= Hi <-] & Hwarp).
  do 6 apply bind_Ok_inv in Hwarp as (? & ? & _ & Hwarp). injection Hwarp as -> _.
  unfold index in Hi, Htext.
  destruct (pp lay !! i) as [p''|] eqn:Hpi; [|done]. injection Hi as ->.
  destruct (default [] (labels_used lab) !! i) as [t|] eqn:Hti; [|done].
  injection Htext as ->.
  eexists p, v, text, _. split; [done|]. split; [done|]. split; [done|].
  rewrite Hxy. done.
Qed.


End SvgErrors.

(** ** The XML reader *)

Section XmlFacts.
Context `{Runtime}.

Lemma read_points_spec pons : forall polist,
  match read_points pons polist with
  | Ok r => length r = length polist + length (elements pons)
  | Err e => e = ValueError /\ forallb numeric_point (elements pons) = false
  end.
Proof.
  induction pons as [|pon pons IH]; intros polist; cbn [read_points elements List.filter].
  - cbn. lia.
  - fold (elements pons). destruct (is_element pon) eqn:Hel; cbn [negb].
    + cbn [forallb length]. unfold numeric_point at 1.
      destruct (py_float (getAttribute pon "x")) as [x|]; cbn; [|done].
      destruct (py_float (getAttribute pon "y")) as [y|]; cbn; [|done].
      specialize (IH (polist ++ [(x, y)])).
      destruct (read_points pons _) as [r|e]; [|done].
      rewrite IH, length_app. cbn. lia.
    + apply IH.
Qed.

Lemma elements_cons n ns :
  elements (n :: ns) = if is_element n then n :: elements ns else elements ns.
Proof. done. Qed.

Lemma read_contours_spec sns : forall p,
  contours_outcome sns (length p) (read_contours sns p).
Proof.
  induction sns as [|sn sns IH]; intros p; cbn [read_contours].
  - cbn. split; [lia|done].
  - assert (Hf : foreign sn = is_element sn && negb (bool_decide (tagName_of sn = "contour")))
      by done.
    assert (Hnc : numeric_contour sn =
                  if bool_decide (tagName_of sn = "contour") then
                    bool_decide (is_Some (py_int (getAttribute sn "points")))
                    && bool_decide (is_Some (py_int (getAttribute sn "isHole")))
                    && forallb numeric_point (elements (childNodes_of sn))
                  else true) by done.
    assert (Hpa : points_agree sn =
                  match py_int (getAttribute sn "points") with
                  | Some z => (z =? Z.of_nat (length (elements (childNodes_of sn))))%Z
                  | None => false
                  end) by done.
    unfold contours_outcome. rewrite elements_cons. cbn [existsb].
    destruct (is_element sn) eqn:Hel; cbn [negb andb orb] in *.
    2:{ rewrite Hf. apply IH. }
    cbn [forallb length]. rewrite Hf, Hnc, Hpa. clear Hf Hnc Hpa.
    destruct (bool_decide (tagName_of sn = "contour")) eqn:Htag; cbn [negb orb].
    2:{ left. done. }
    pose proof (read_points_spec (childNodes_of sn) []) as Hpts.
    destruct (read_points (childNodes_of sn) []) as [polist|e]; cbn [mbind result_bind].
    2:{ destruct Hpts as [-> Hn]. right; right. split; [done|].
        rewrite Hn. by rewrite !andb_false_r. }
    cbn [length Nat.add] in Hpts.
    destruct (py_int (getAttribute sn "points")) as [n|]; cbn [of_option mbind result_bind].
    2:{ right; right. done. }
    rewrite <- Hpts.
    destruct (n =? Z.of_nat (length polist))%Z eqn:Hn; cbn [negb andb].
    2:{ right; left. done. }
    destruct (py_int (getAttribute sn "isHole")) as [h|]; cbn [of_option mbind result_bind].
    2:{ right; right. split; [done|]. by rewrite andb_false_r. }
    specialize (IH (addContour p polist (negb (h =? 0)%Z))).
    unfold addContour in *. rewrite length_app in IH. cbn [length] in IH.
    unfold contours_outcome in IH.
    destruct (read_contours sns _) as [p'|e].
    + destruct IH as (Hl & Ha & Hf). split; [lia|]. split; [done|done].
    + destruct IH as [IH|[IH|IH]]; [left|right; left|right; right]; try done.
      destruct IH as [-> IH]. split; [done|].
      rewrite IH. by rewrite !andb_false_r.
Qed.

Lemma read_polygon_spec pn :
  reading_outcome (existsb foreign (childNodes_of pn)) (polygon_agrees pn)
    (numeric_polygon pn) (read_polygon pn).
Proof.
  unfold read_polygon, polygon_agrees, numeric_polygon, contours_agree, declares.
  pose proof (read_contours_spec (childNodes_of pn) new_polygon) as Hc.
  unfold contours_outcome in Hc.
  destruct (read_contours (childNodes_of pn) new_polygon) as [p|e]; cbn [mbind result_bind].
  - destruct Hc as (Hl & Ha & Hf). cbn [new_polygon length Nat.add] in Hl. rewrite Ha, Hf.
    destruct (py_int (getAttribute pn "contours")) as [n|]; cbn [of_option mbind result_bind].
    2:{ right; right. done. }
    rewrite <- Hl. destruct (n =? Z.of_nat (length p))%Z; cbn [negb]; [done|].
    right; left. split; [by right|done].
  - destruct Hc as [[-> Hc]|[[-> Hc]|[-> Hc]]].
    + left. done.
    + right; left. split; [by left|]. rewrite Hc. apply andb_false_r.
    + right; right. split; [done|]. rewrite Hc. apply andb_false_r.
Qed.

Lemma read_polygons_spec pns :
  reading_outcome (existsb (fun pn => existsb foreign (childNodes_of pn)) pns)
    (forallb polygon_agrees pns) (forallb numeric_polygon pns) (mapR read_polygon pns).
Proof.
  induction pns as [|pn pns IH]; cbn [mapR existsb forallb]; [done|].
  pose proof (read_polygon_spec pn) as Hp.
  destruct (read_polygon pn) as [p|e]; cbn [mbind result_bind reading_outcome] in *.
  - destruct Hp as [-> ->]. cbn [andb orb].
    destruct (mapR read_polygon pns) as [ps|e]; cbn [mbind result_bind reading_outcome] in *.
    + done.
    + destruct IH as [[-> IH]|[[? IH]|[-> IH]]]; [left|right; left|right; right];
        rewrite ?IH, ?andb_false_r; done.
  - destruct Hp as [[-> Hp]|[[? Hp]|[-> Hp]]]; [left|right; left|right; right];
      rewrite ?Hp; done.
Qed.

Lemma read_document_spec d :
  reading_outcome (has_foreign d) (counts_agree d) (numeric d) (read_document d).
Proof. apply read_polygons_spec. Qed.

Lemma readXML_parsed ifile w d :
  parses_to ifile w d -> (readXML ifile w).1 = read_document d.
Proof.
  intros (f & cl & w1 & text & Hr & Hread & Hparse). unfold readXML.
  unfold bindM at 1. rewrite Hr. unfold bindM at 1. rewrite Hread.
  unfold bindM at 1, lift at 1. rewrite Hparse. cbn [of_option].
  assert (Hc : exists w2, close f w1 = (Ok tt, w2)).
  { unfold read in Hread. unfold close. destruct (streams w1 !! f); [by eexists|done]. }
  destruct Hc as [w2 Hc]. unfold bindM. destruct cl; [rewrite Hc|]; done.
Qed.



End XmlFacts.

(** ** The claims on streams and polygon objects *)

Section Scope.
Context `{Engine} `{Runtime}.

(** [readXML] closes an owned source as soon as the text is parsed, so
    what happens to the document afterwards does not matter. *)
Lemma readXML_closes_after_parse ifile w f cl w1 d :
  getReadableObject ifile w = (Ok (f, cl), w1) ->
  parses_to ifile w d ->
  closes_of (readXML ifile w).2 f = closes_of w f + (if cl then 1 else 0).
Proof.
  intros Hr (f' & cl' & w1' & text & Hr' & Hread & Hparse).
  rewrite Hr in Hr'. injection Hr' as <- <- <-.
  pose proof (inv_closes _ _ _ (resolved_read _ _ _ _ _ Hr) f (fun H => H)) as Hw.
  unfold readXML. rewrite (bind_resolved _ _ _ _ _ Hr), (bind_resolved _ _ _ _ _ Hread).
  rewrite (bind_lift_ok _ _ _ _ (f_equal (of_option ParseError) Hparse : _ = Ok d)).
  assert (Hf : exists st, streams w1 !! f = Some st).
  { unfold read in Hread. destruct (streams w1 !! f); [by eexists|done]. }
  destruct Hf as [st Hf]. destruct cl.
  - assert (Hc : close f w1 = (Ok tt, with_streams w1
                   (<[f := mkStream (content st) (S (closes st))]> (streams w1))))
      by (unfold close; by rewrite Hf).
    rewrite (bind_resolved _ _ _ _ _ Hc). unfold lift. cbn [snd].
    rewrite closes_of_close by done. rewrite decide_True by done. lia.
  - unfold bindM at 1. cbn [retM]. unfold lift. cbn [snd]. lia.
Qed.

Lemma run_void {A} (m : M A) w :
  ((let! _ := m in retM tt) w).2 = (m w).2 /\
  is_ok ((let! _ := m in retM tt) w).1 = is_ok (m w).1.
Proof. unfold bindM. by destruct (m w) as [[a|e] w']. Qed.

Lemma scoped_void {A} (m : M A) w f cl :
  scoped w f cl (m w) -> scoped w f cl ((let! _ := m in retM tt) w).
Proof.
  unfold scoped. destruct (run_void m w) as [-> ->]. done.
Qed.

Lemma unreleased_void {A} (m : M A) w f :
  unreleased w f (m w) -> unreleased w f ((let! _ := m in retM tt) w).
Proof.
  unfold unreleased. destruct (run_void m w) as [-> ->]. done.
Qed.

Lemma run_scoped o arg w f cl w1 :
  resolve o arg w = (Ok (f, cl), w1) -> is_triangles o = false ->
  scoped w f cl (run o arg w) /\ (is_reader o = false -> unreleased w f (run o arg w)).
Proof.
  intros Hr Ht.
  destruct o as [pl|pl|pl wd ht fc fo sc sw lb lc lcen|pl hd|];
    cbn [resolve run is_triangles is_reader] in *; try done.
  - destruct (writeGnuplot_scoped _ pl _ _ _ _ Hr) as [Hs Hu].
    split; [by apply scoped_void|]. intros _. by apply unreleased_void.
  - destruct (writeSVG_scoped _ pl wd ht fc fo sc sw lb lc lcen _ _ _ _ Hr) as [Hs Hu].
    split; [by apply scoped_void|]. intros _. by apply unreleased_void.
  - destruct (writeXML_scoped _ pl hd _ _ _ _ Hr) as [Hs Hu].
    split; [by apply scoped_void|]. intros _. by apply unreleased_void.
  - split; [|done]. apply scoped_void. by eapply readXML_scoped.
Qed.

(** C2 (as amended): for [writeGnuplot], [writeSVG], [writeXML] and
    [readXML], on every exit an unowned stream has not been closed by the
    operation, and after a normal return the resolved stream has been
    closed if and only if the resolver marked it owned; after a normal
    return of any of the five operations an owned stream has been closed;
    a writer that aborts with an error leaves the stream unclosed, owned
    or not; [readXML] has closed an owned source once its text is parsed,
    whatever the outcome of reading the document. *)
Theorem streams_scoped o arg w f cl w1 :
  resolve o arg w = (Ok (f, cl), w1) ->
  let r := run o arg w in
  (is_triangles o = false ->
     (cl = false -> closes_of r.2 f = closes_of w f) /\
     (is_ok r.1 = true -> closes_of r.2 f = closes_of w f + (if cl then 1 else 0))) /\
  (is_ok r.1 = true -> cl = true -> closes_of w f < closes_of r.2 f) /\
  (is_triangles o = false -> is_reader o = false -> is_ok r.1 = false ->
     closes_of r.2 f = closes_of w f) /\
  (is_reader o = true -> forall d, parses_to arg w d ->
     closes_of r.2 f = closes_of w f + (if cl then 1 else 0)).
Proof.
  intros Hr. cbv zeta. split; [|split; [|split]]; cycle 3.
  { intros Hrd d Hd. destruct o; try done. cbn [resolve run] in *.
    rewrite (proj1 (run_void _ _)). by eapply readXML_closes_after_parse. }
  - intros Ht. destruct (run_scoped _ _ _ _ _ _ Hr Ht) as [[Hi Hok] _].
    split; [|done]. intros ->. apply (inv_closes _ _ _ Hi).
    unfold only_owned. by intros [? _].
  - intros Hok ->. destruct (is_triangles o) eqn:Ht.
    + destruct o; try done. cbn [resolve run] in *.
      by eapply writeGnuplotTriangles_closes.
    + destruct (run_scoped _ _ _ _ _ _ Hr Ht) as [[_ Hc] _].
      rewrite Hc by done. lia.
  - intros Ht Hrd Herr. destruct (run_scoped _ _ _ _ _ _ Hr Ht) as [_ Hu].
    by apply Hu.
Qed.

(** C7: [writeSVG] and [writePDF] leave every polygon object that exists
    before the call as it is, those of the input list among them: what
    they flip and warp are the objects they make. *)
Theorem exporters_leave_polygons :
  (forall ofile polylist width height fc fo sc sw labels labels_coords labels_centered w,
     polys w `prefix_of`
     polys (writeSVG ofile polylist width height fc fo sc sw labels labels_coords
                     labels_centered w).2) /\
  (forall ofile polylist pagesize linewidth fill_color w,
     polys w `prefix_of` polys (writePDF ofile polylist pagesize linewidth fill_color w).2).
Proof.
  assert (Hp : forall {A} (m : M A) w,
             keeps (inv w (fun _ => True)) m (fun _ => True) ->
             polys w `prefix_of` polys (m w).2).
  { intros A m w Hk. specialize (Hk w (inv_refl _ _)).
    assert (Hi : inv w (fun _ => True) (m w).2) by (destruct (m w) as [[a|e] w']; tauto).
    apply inv_prefix in Hi. rewrite <- Hi at 1. apply prefix_take. }
  split; intros; apply Hp; [apply keeps_writeSVG|apply keeps_writePDF].
Qed.

End Scope.

(** * Further properties of the code *)

(** ** The binary codec on arbitrary input *)

Section CodecInput.
Import Codec.
Open Scope Z_scope.

Lemma byte_of_Z_of_byte b : byte_of_Z (Z_of_byte b) = b.
Proof.
  unfold byte_of_Z, Z_of_byte.
  pose proof (Byte.to_N_bounded b) as Hb.
  rewrite Z.mod_small by lia. rewrite N2Z.id, Byte.of_to_N. done.
Qed.

Lemma be_value_cons b bs :
  be_value (b :: bs) = Z_of_byte b * 256 ^ Z.of_nat (length bs) + be_value bs /\
  0 <= be_value bs < 256 ^ Z.of_nat (length bs).
Proof.
  unfold be_value. cbn [fold_left]. change (0 * 256 + Z_of_byte b) with (Z_of_byte b).
  assert (Hg : forall l acc,
            fold_left (fun a c => a * 256 + Z_of_byte c) l acc
            = acc * 256 ^ Z.of_nat (length l)
              + fold_left (fun a c => a * 256 + Z_of_byte c) l 0 /\
            0 <= fold_left (fun a c => a * 256 + Z_of_byte c) l 0
              < 256 ^ Z.of_nat (length l)).
  { induction l as [|c l IH]; intros acc.
    - cbn. lia.
    - cbn [fold_left length]. rewrite Nat2Z.inj_succ, Z.pow_succ_r by lia.
      destruct (IH (acc * 256 + Z_of_byte c)) as [-> Hr].
      destruct (IH (0 * 256 + Z_of_byte c)) as [-> _].
      assert (Hc : 0 <= Z_of_byte c < 256).
      { unfold Z_of_byte. pose proof (Byte.to_N_bounded c). lia. }
      split; [ring|]. nia. }
  apply Hg.
Qed.

Lemma be_bytes_shift k a x : be_bytes k (a * 256 ^ Z.of_nat k + x) = be_bytes k x.
Proof.
  revert a. induction k as [|k IH]; intros a; [done|].
  cbn [be_bytes]. f_equal.
  - assert (Hm : ((a * 256 ^ Z.of_nat (S k) + x) / 256 ^ Z.of_nat k) mod 256
                 = (x / 256 ^ Z.of_nat k) mod 256).
    { rewrite Nat2Z.inj_succ, Z.pow_succ_r by lia.
      assert (0 < 256 ^ Z.of_nat k) by (apply Z.pow_pos_nonneg; lia).
      replace (a * (256 * 256 ^ Z.of_nat k) + x) with (x + a * 256 * 256 ^ Z.of_nat k)
        by ring.
      rewrite Z.div_add by lia. apply Z.mod_add. lia. }
    unfold byte_of_Z. by rewrite Hm.
  - rewrite Nat2Z.inj_succ, Z.pow_succ_r by lia.
    replace (a * (256 * 256 ^ Z.of_nat k) + x) with (a * 256 * 256 ^ Z.of_nat k + x) by ring.
    apply IH.
Qed.

(** Big-endian bytes read as a number and written back. *)
Lemma be_bytes_value bs : be_bytes (length bs) (be_value bs) = bs.
Proof.
  induction bs as [|b bs IH]; [done|].
  destruct (be_value_cons b bs) as [Hv Hr]. cbn [length be_bytes]. f_equal.
  - rewrite Hv. assert (0 < 256 ^ Z.of_nat (length bs)) by lia.
    rewrite Z.div_add_l by lia. rewrite Z.div_small by lia.
    rewrite Z.add_0_r. apply byte_of_Z_of_byte.
  - rewrite Hv, be_bytes_shift. done.
Qed.

Lemma unpack_doubles_bytes n : forall b,
  length b = (8 * n)%nat -> concat (map (be_bytes 8) (unpack_doubles n b)) = b.
Proof.
  induction n as [|n IH]; intros b Hb.
  - destruct b; [done|discriminate].
  - cbn [unpack_doubles map concat].
    rewrite IH by (rewrite length_drop; lia).
    replace 8%nat with (length (take 8 b)) at 1 by (rewrite length_take; lia).
    rewrite be_bytes_value. apply take_drop.
Qed.

Lemma unpack_doubles_length n b : length (unpack_doubles n b) = n.
Proof. revert b. induction n as [|n IH]; intros b; cbn; [done|]. by rewrite IH. Qed.

Lemma couples_even {A} (m : nat) : forall s : list A,
  length s = (2 * m)%nat ->
  exists r, __couples s = Ok r /\ __flatten r = s /\ length r = m.
Proof.
  induction m as [|m IH]; intros s Hs.
  - destruct s; [|discriminate]. by exists [].
  - destruct s as [|x [|y s']]; [cbn in Hs; lia..|].
    destruct (IH s') as (r & Hr & Hf & Hl); [cbn in Hs; lia|].
    exists ((x, y) :: r). cbn [__couples]. rewrite Hr.
    split; [done|]. split; [|cbn; by rewrite Hl].
    change (__flatten ((x, y) :: r)) with (x :: y :: __flatten r). by rewrite Hf.
Qed.

Lemma couples_odd {A} (m : nat) : forall s : list A,
  length s = S (2 * m) -> __couples s = Err IndexError.
Proof.
  induction m as [|m IH]; intros s Hs.
  - destruct s as [|x [|y s']]; [discriminate|done|cbn in Hs; lia].
  - destruct s as [|x [|y s']]; [cbn in Hs; lia..|].
    cbn [__couples]. rewrite IH by (cbn in Hs; lia). done.
Qed.

Lemma unpack_inv f b v rest :
  __unpack f b = Ok (v, rest) ->
  Z.of_nat (length (take (Z.to_nat (calcsize f)) b)) = calcsize f /\
  unpack f (take (Z.to_nat (calcsize f)) b) = Ok v /\
  rest = drop (Z.to_nat (calcsize f)) b.
Proof.
  unfold __unpack. destruct (unpack f _) as [v'|] eqn:Hu; [|done].
  intros [= <- <-]. split; [|done].
  unfold unpack in Hu. destruct (Z.eqb_spec (Z.of_nat (length (take (Z.to_nat (calcsize f)) b)))
                                            (calcsize f)); [done|discriminate].
Qed.

Lemma unpack_error f b e : __unpack f b = Err e -> e = TruncatedInput.
Proof.
  unfold __unpack, unpack. destruct (_ =? _); [by destruct f|]. by intros [= <-].
Qed.

(** The bytes of one record, as [encodeBinary] writes them. *)
Lemma signed32_bytes hb :
  length hb = 4%nat ->
  let x := signed32 (be_value hb) in
  - 2 ^ 31 <= x < 2 ^ 31 /\ be_bytes 4 (x mod 2 ^ 32) = hb.
Proof.
  intros Hl x.
  assert (Hr : 0 <= be_value hb < 2 ^ 32).
  { destruct hb as [|b hb]; [discriminate|].
    destruct (be_value_cons b hb) as [Hv Hr]. rewrite Hv.
    injection Hl as Hl. rewrite Hl in *.
    assert (0 <= Z_of_byte b < 256).
    { unfold Z_of_byte. pose proof (Byte.to_N_bounded b). lia. }
    change (256 ^ Z.of_nat 3) with 16777216 in *. lia. }
  subst x. unfold signed32. destruct (Z.ltb_spec (be_value hb) (2 ^ 31)).
  - split; [lia|]. rewrite Z.mod_small by lia. rewrite <- Hl at 1. apply be_bytes_value.
  - split; [lia|].
    replace ((be_value hb - 2 ^ 32) mod 2 ^ 32) with (be_value hb).
    + rewrite <- Hl at 1. apply be_bytes_value.
    + apply Z.mod_unique with (q := -1); lia.
Qed.

(** What one turn of the loop of [decodeBinary] reads, and that it fails
    by want of bytes only. *)
Lemma decode_contours_step k b acc :
  match decode_contours (S k) b acc with
  | Ok p =>
      exists c rest,
        let n := Z.of_nat (length (points c)) in
        - 2 ^ 31 <= n * (if hole c then -1 else 1) < 2 ^ 31 /\
        b = be_bytes 4 ((n * (if hole c then -1 else 1)) mod 2 ^ 32)
            ++ concat (map (be_bytes 8) (__flatten (points c))) ++ rest /\
        decode_contours k rest (acc ++ [c]) = Ok p
  | Err e =>
      e = TruncatedInput \/
      exists c rest, decode_contours k rest (acc ++ [c]) = Err e
  end.
Proof.
  cbn [decode_contours].
  destruct (__unpack Fmtl b) as [[x b1]|e] eqn:Hx; [|left; by eapply unpack_error].
  apply unpack_inv in Hx as (Hl & Hu & ->). cbn [calcsize] in *.
  set (hb := take (Z.to_nat 4) b) in *.
  unfold unpack in Hu. cbn [calcsize] in Hu.
  rewrite (proj2 (Z.eqb_eq _ _)) in Hu by done. injection Hu as <-.
  cbn [mbind result_bind index lookup list_lookup].
  destruct (signed32_bytes hb) as [Hr Hb]; [lia|].
  set (x := signed32 (be_value hb)) in *.
  set (hs := if x <? 0 then (true, -2 * x) else (false, 2 * x)).
  assert (Hs : 0 <= hs.2 /\ hs.2 = 2 * Z.abs x /\ hs.1 = (x <? 0)).
  { unfold hs. destruct (Z.ltb_spec x 0); cbn [fst snd]; lia. }
  destruct Hs as (Hs0 & Hs2 & Hs1).
  destruct (__unpack (Fmtd hs.2) _) as [[flat b2]|e] eqn:Hf; [|left; by eapply unpack_error].
  apply unpack_inv in Hf as (Hlf & Hu & ->). cbn [calcsize] in *.
  set (db := take (Z.to_nat (8 * hs.2)) (drop (Z.to_nat 4) b)) in *.
  unfold unpack in Hu. cbn [calcsize] in Hu.
  rewrite (proj2 (Z.eqb_eq _ _)) in Hu by done. injection Hu as <-.
  cbn [mbind result_bind].
  destruct (couples_even (Z.to_nat (Z.abs x)) (unpack_doubles (Z.to_nat hs.2) db))
    as (c & Hc & Hfl & Hlc); [rewrite unpack_doubles_length; lia|].
  rewrite Hc. cbn [mbind result_bind]. unfold addContour.
  set (rest := drop (Z.to_nat (8 * hs.2)) (drop (Z.to_nat 4) b)).
  destruct (decode_contours k rest (acc ++ [mkContour c hs.1])) as [p|e] eqn:Hk.
  - exists (mkContour c hs.1), rest. cbn [points hole]. cbv zeta.
    assert (Hn : Z.of_nat (length c) * (if hs.1 then -1 else 1) = x).
    { rewrite Hs1, Hlc. destruct (Z.ltb_spec x 0); lia. }
    rewrite Hn. split; [done|]. split; [|done].
    rewrite Hb, Hfl. rewrite unpack_doubles_bytes by lia.
    unfold hb, db, rest. by rewrite !take_drop.
  - right. by exists (mkContour c hs.1), rest.
Qed.

Lemma decode_contours_records k : forall b acc p,
  decode_contours k b acc = Ok p ->
  exists cs rest, p = acc ++ cs /\ length cs = k /\ Forall fits_wire cs /\
                  b = concat (flat_map wire_record cs) ++ rest.
Proof.
  induction k as [|k IH]; intros b acc p Hd.
  - injection Hd as <-. exists [], b. by rewrite app_nil_r.
  - pose proof (decode_contours_step k b acc) as Hs. rewrite Hd in Hs.
    destruct Hs as (c & rest & Hr & -> & Hk).
    apply IH in Hk as (cs & rest' & -> & Hl & Hf & ->).
    exists (c :: cs), rest'. rewrite <- app_assoc. split; [done|].
    split; [cbn; by rewrite Hl|]. split; [by constructor|].
    cbn [flat_map wire_record app concat]. by rewrite <- !app_assoc.
Qed.

Lemma decode_contours_error k : forall b acc e,
  decode_contours k b acc = Err e -> e = TruncatedInput.
Proof.
  induction k as [|k IH]; intros b acc e Hd; [done|].
  pose proof (decode_contours_step k b acc) as Hs. rewrite Hd in Hs.
  destruct Hs as [->|(c & rest & Hk)]; [done|]. by eapply IH.
Qed.

Lemma encode_contours_records p cs : forall i,
  drop i p = cs ->
  match encode_contours p i cs with
  | Ok l => l = flat_map wire_record cs /\ Forall fits_wire cs
  | Err e => e = PackError /\ ~ Forall fits_wire cs
  end.
Proof.
  induction cs as [|c cs IH]; intros i Hd; [done|].
  assert (Hc : p !! i = Some c).
  { rewrite <- (Nat.add_0_r i), <- lookup_drop, Hd. done. }
  assert (Hd' : drop (S i) p = cs).
  { replace (S i) with (i + 1)%nat by lia. rewrite <- drop_drop, Hd. done. }
  specialize (IH (S i) Hd').
  cbn [encode_contours]. unfold isHole, index. rewrite Hc.
  cbn [mbind result_bind pack].
  set (v := Z.of_nat (length (points c)) * (if hole c then -1 else 1)).
  assert (Hv : fits_wire c <-> - 2 ^ 31 <= v < 2 ^ 31) by done.
  destruct ((- 2 ^ 31 <=? v) && (v <? 2 ^ 31)) eqn:Hin.
  - apply andb_prop in Hin as [?%Z.leb_le ?%Z.ltb_lt].
    rewrite flatten_length.
    rewrite (proj2 (Z.eqb_eq _ _)) by lia.
    cbn [mbind result_bind].
    destruct (encode_contours p (S i) cs) as [r|e].
    + destruct IH as [-> Hf]. split; [done|]. constructor; [|done]. apply Hv. lia.
    + destruct IH as [-> Hf]. split; [done|]. by inversion_clear 1.
  - split; [done|]. inversion_clear 1 as [|? ? Hw _].
    pose proof (proj1 Hv Hw) as Hw'.
    apply andb_false_iff in Hin as [?%Z.leb_gt|?%Z.ltb_ge]; lia.
Qed.


(** X2: whatever [decodeBinary] accepts begins with the encoding of the
    polygon it returns: [encodeBinary] of the result succeeds and gives
    back the bytes that were read, and the rest of the input played no
    part. *)
Theorem decode_reads_an_encoding bs p :
  decodeBinary bs = Ok p ->
  exists enc rest, encodeBinary p = Ok enc /\ bs = enc ++ rest.
Proof.
  unfold decodeBinary.
  destruct (__unpack FmtI bs) as [[nC b]|e'] eqn:Hn; [|done].
  apply unpack_inv in Hn as (Hl & Hu & ->). cbn [calcsize] in *.
  unfold unpack in Hu. rewrite (proj2 (Z.eqb_eq _ _)) in Hu by done. injection Hu as <-.
  cbn [mbind result_bind index lookup list_lookup].
  set (hb := take (Z.to_nat 4) bs) in *.
  intros (cs & rest & -> & Hk & Hf & Hb)%decode_contours_records.
  assert (Hr : 0 <= be_value hb < 2 ^ 32).
  { destruct hb as [|b0 hb'] eqn:Ehb; [cbn in Hl; lia|].
    destruct (be_value_cons b0 hb') as [Hv Hr]. rewrite Hv.
    assert (Hl' : length hb' = 3%nat) by (cbn in Hl; lia). rewrite Hl' in *.
    assert (0 <= Z_of_byte b0 < 256).
    { unfold Z_of_byte. pose proof (Byte.to_N_bounded b0). lia. }
    change (256 ^ Z.of_nat 3) with 16777216 in *. lia. }
  cbn [app new_polygon] in *.
  assert (Hlen : Z.of_nat (length cs) = be_value hb) by lia.
  pose proof (encode_contours_records cs cs 0 eq_refl) as He.
  destruct (encode_contours cs 0 cs) as [l|e] eqn:El; [|by destruct He].
  destruct He as [-> _].
  exists (hb ++ concat (flat_map wire_record cs)), rest. split.
  - unfold encodeBinary. cbn [pack]. rewrite Hlen.
    rewrite (proj2 (Z.leb_le _ _)), (proj2 (Z.ltb_lt _ _)) by lia. cbn [andb].
    cbn [mbind result_bind]. rewrite <- Hlen, El. cbn [mbind result_bind concat].
    rewrite Hlen. replace 4%nat with (length hb) by lia. by rewrite be_bytes_value.
  - rewrite <- app_assoc, <- Hb. unfold hb. by rewrite take_drop.
Qed.

(** X3: the size of an encoding: four bytes for the number of contours
    and, for each contour, four bytes for its signed number of points and
    sixteen for each point. *)
Theorem encodeBinary_length p bs :
  encodeBinary p = Ok bs ->
  length bs = (4 + sum_list_with (fun c => 4 + 16 * length (points c)) p)%nat.
Proof.
  intros (l & _ & Hl & ->)%encodeBinary_inv.
  pose proof (encode_contours_records p p 0 eq_refl) as He. rewrite Hl in He.
  destruct He as [-> _]. rewrite length_app, be_bytes_length. f_equal.
  clear Hl. induction p as [|c p IH]; [done|].
  cbn [flat_map wire_record app concat sum_list_with].
  rewrite !length_app, be_bytes_length, pack_doubles_length, flatten_length, IH. lia.
Qed.

(** X4: [encodeBinary] raises exactly when a count does not fit its
    field, [2^32] contours or more, [2^31] points or more in a solid
    contour, more than [2^31] in a hole; the error is [struct.error]. *)
Theorem encodeBinary_fits p :
  (is_ok (encodeBinary p) = true <->
   Z.of_nat (length p) < 2 ^ 32 /\ Forall fits_wire p) /\
  (forall e, encodeBinary p = Err e -> e = PackError).
Proof.
  pose proof (encode_contours_records p p 0 eq_refl) as He.
  unfold encodeBinary. cbn [pack].
  rewrite (proj2 (Z.leb_le 0 _)) by lia. cbn [andb].
  destruct (Z.ltb_spec (Z.of_nat (length p)) (2 ^ 32)) as [Hin|Hout]; cbn [mbind result_bind].
  - destruct (encode_contours p 0 p) as [l|e]; cbn [mbind result_bind is_ok].
    + destruct He as [_ Hf]. split; [|done]. split; [intros _; split; [lia|done]|done].
    + destruct He as [-> Hf]. split; [|by intros e [= <-]].
      split; [done|]. by intros [_ ?].
  - split; [|by intros e [= <-]]. cbn [is_ok]. split; [done|]. intros [? _]. lia.
Qed.

(** X5: [__couples] pairs up a sequence of even length, so that
    [__flatten] of the pairs is the sequence again, and raises
    [IndexError] at the last element of a sequence of odd length. *)
Theorem couples_parity {A} (s : list A) :
  (Nat.Even (length s) -> exists r, __couples s = Ok r /\ __flatten r = s) /\
  (Nat.Odd (length s) -> __couples s = Err IndexError).
Proof.
  split.
  - intros [m Hm]. destruct (couples_even m s Hm) as (r & Hr & Hf & _). by exists r.
  - intros [m Hm]. apply (couples_odd m). lia.
Qed.

(** X6: [__unpack] never raises on the slices it takes: it succeeds
    exactly when the buffer has the [calcsize] bytes of the format, and
    then hands back the buffer without them. *)
Theorem unpack_splits (f : format) (b : list byte) :
  (0 <= calcsize f)%Z ->
  (is_ok (Codec.__unpack f b) = true <-> (calcsize f <= Z.of_nat (length b))%Z) /\
  (forall v rest, Codec.__unpack f b = Ok (v, rest) ->
     rest = drop (Z.to_nat (calcsize f)) b /\
     length b = (Z.to_nat (calcsize f) + length rest)%nat).
Proof.
  intros Hs. unfold Codec.__unpack, unpack.
  destruct (Z.eqb_spec (Z.of_nat (length (take (Z.to_nat (calcsize f)) b))) (calcsize f))
    as [He|Hne]; rewrite length_take in *.
  - split.
    + split; [lia|]. intros _. by destruct f.
    + intros v rest Hv. assert (rest = drop (Z.to_nat (calcsize f)) b) as ->.
      { destruct f; cbn [mbind result_bind] in Hv; by injection Hv as _ <-. }
      split; [done|]. rewrite length_drop. lia.
  - split; [|done]. cbn [mbind result_bind is_ok]. split; [done|lia].
Qed.

End CodecInput.

(** ** Pickling *)

Section PickleFacts.
Context {A : Type}.
Import Pickle.

Lemma createPolygon_zip (contour : list (list (Point A))) hole :
  __createPolygon contour hole = zip_with mkContour contour hole.
Proof.
  unfold __createPolygon, new_polygon.
  change (zip_with mkContour contour hole) with ([] ++ zip_with mkContour contour hole).
  generalize (@nil (Contour A)) as acc.
  revert hole. induction contour as [|c contour IH]; intros [|h hole] acc;
    cbn [zip zip_with fold_left]; rewrite ?app_nil_r; try done.
  rewrite IH. unfold addContour. cbn [fst snd]. by rewrite <- app_assoc.
Qed.

Lemma tuples_id (a : list (Point A)) : __tuples a = a.
Proof. unfold __tuples. induction a as [|[x y] a IH]; [done|]. cbn. by rewrite IH. Qed.

(** X25: a polygon survives pickling: [__createPolygon] applied to the
    arguments [__reducePolygon] keeps gives the contours and the hole
    flags back, in order. *)
Theorem pickle_roundtrip (p : Polygon A) :
  __createPolygon (__reducePolygon p).1 (__reducePolygon p).2 = p.
Proof.
  rewrite createPolygon_zip. unfold __reducePolygon. cbn [fst snd].
  induction p as [|[pts h] p IH]; [done|].
  cbn [map zip_with points hole]. by rewrite tuples_id, IH.
Qed.


End PickleFacts.

(** ** The style cyclers *)

Section CyclerFacts.
Context {A : Type}.

(** X7: an empty style sequence never reaches a ring buffer: [x or
    fallback] is the fallback for an absent and for an empty [x], so with
    a non-empty fallback every call of the cycler returns, the [n]-th one
    the element at [n mod len]; a ring buffer over an empty sequence
    raises [IndexError] at its first call. *)
Theorem style_cycler_total (x : option (list A)) (fallback : list A) (n : nat) :
  RingBuffer.__call__ (RingBuffer.__init__ (@nil A)) = Err IndexError /\
  (truthy_seq x = false -> seq_or x fallback = fallback) /\
  (fallback <> [] ->
   exists self o self',
     RingBuffer.after n (RingBuffer.__init__ (seq_or x fallback)) = Ok self /\
     RingBuffer.__call__ self = Ok (o, self') /\
     seq_or x fallback !! (n mod length (seq_or x fallback)) = Some o).
Proof.
  split; [done|]. split; [unfold seq_or; by intros ->|].
  intros Hne.
  assert (Hlen : 0 < length (seq_or x fallback)).
  { unfold seq_or. destruct x as [[|a l]|]; cbn [truthy_seq default from_option id length];
      try lia; destruct fallback; cbn; try done; lia. }
  unfold RingBuffer.__init__. rewrite after_in_range by done. cbn [Nat.add].
  destruct (call_in_range (seq_or x fallback) (n mod length (seq_or x fallback)))
    as (o & Ho & Hc); [apply Nat.mod_upper_bound; lia|].
  eexists _, o, _. split; [done|]. split; [exact Hc|exact Ho].
Qed.

End CyclerFacts.

(** ** The text a writer leaves in its stream *)

Lemma string_app_nil_r (s : string) : s +:+ "" = s.
Proof.
  induction s as [|a s IH]; [done|].
  change (String a (s +:+ "") = String a s). by rewrite IH.
Qed.

Lemma string_app_assoc (a b c : string) : (a +:+ b) +:+ c = a +:+ (b +:+ c).
Proof.
  induction a as [|x a IH]; [done|].
  change (String x ((a +:+ b) +:+ c) = String x (a +:+ (b +:+ c))). by rewrite IH.
Qed.

Lemma string_concat_app (xs ys : list string) :
  String.concat "" (xs ++ ys) = String.concat "" xs +:+ String.concat "" ys.
Proof.
  induction xs as [|x xs IH]; [done|].
  destruct xs as [|x' xs].
  - cbn [app]. destruct ys as [|y ys]; cbn; [by rewrite string_app_nil_r|done].
  - change ((x :: x' :: xs) ++ ys) with (x :: (x' :: xs) ++ ys).
    cbn [String.concat app] in *. rewrite IH. cbn. by rewrite string_app_assoc.
Qed.

Section StreamText.
Implicit Types (f : handle) (w : world).

Lemma write_put f t w : is_open f w -> write f t w = (Ok tt, put f t w).
Proof.
  intros (st & Hf & Hc). unfold write, put, closed. by rewrite Hf, Hc.
Qed.

Lemma put_streams f t w st :
  streams w !! f = Some st ->
  streams (put f t w) = <[f := mkStream (content st +:+ t) (closes st)]> (streams w).
Proof. intros Hf. unfold put. by rewrite Hf. Qed.

Lemma put_polys f t w : polys (put f t w) = polys w.
Proof. unfold put. by destruct (streams w !! f). Qed.

Lemma puts_streams f ts : forall w st,
  streams w !! f = Some st ->
  streams (puts f ts w)
  = <[f := mkStream (content st +:+ String.concat "" ts) (closes st)]> (streams w).
Proof.
  induction ts as [|t ts IH]; intros w st Hf.
  - cbn. rewrite string_app_nil_r. destruct st. cbn. by rewrite list_insert_id.
  - cbn [puts fold_left]. fold (puts f ts (put f t w)).
    assert (Hf' : streams (put f t w) !! f = Some (mkStream (content st +:+ t) (closes st))).
    { rewrite (put_streams _ _ _ _ Hf). apply list_lookup_insert_eq.
      by eapply lookup_lt_Some. }
    rewrite (IH _ _ Hf'), (put_streams _ _ _ _ Hf). cbn [content closes].
    rewrite list_insert_insert_eq. f_equal. f_equal.
    rewrite string_app_assoc. f_equal.
    change (t :: ts) with ([t] ++ ts). by rewrite string_concat_app.
Qed.

Lemma puts_polys f ts : forall w, polys (puts f ts w) = polys w.
Proof.
  induction ts as [|t ts IH]; intros w; [done|].
  cbn [puts fold_left]. fold (puts f ts (put f t w)). by rewrite IH, put_polys.
Qed.

Lemma puts_open f ts w : is_open f w -> is_open f (puts f ts w).
Proof.
  intros (st & Hf & Hc). unfold is_open. rewrite (puts_streams _ _ _ _ Hf).
  eexists. split; [apply list_lookup_insert_eq; by eapply lookup_lt_Some|done].
Qed.

Lemma puts_app f ts ts' w : puts f (ts ++ ts') w = puts f ts' (puts f ts w).
Proof. apply fold_left_app. Qed.

(** A loop whose body only writes to [f]: the texts of all turns, or the
    error of the first turn that raises. *)
Lemma forM_puts {X} f (J : world -> Prop) (body : X -> M unit)
    (g : X -> result (list string)) xs :
  (forall w ts, J w -> J (puts f ts w)) ->
  (forall x w, x ∈ xs -> J w ->
     match g x with
     | Ok ts => body x w = (Ok tt, puts f ts w)
     | Err e => (body x w).1 = Err e
     end) ->
  forall w, J w ->
    match mapR g xs with
    | Ok tss => forM xs body w = (Ok tt, puts f (concat tss) w)
    | Err e => (forM xs body w).1 = Err e
    end.
Proof.
  intros HJ. induction xs as [|x xs IH]; intros Hb w Hw; [done|].
  cbn [mapR forM]. pose proof (Hb x w ltac:(left) Hw) as Hx.
  destruct (g x) as [ts|e]; cbn [mbind result_bind].
  - rewrite (bind_resolved _ _ _ _ _ Hx).
    specialize (IH (fun y w' Hy => Hb y w' ltac:(by right)) (puts f ts w) (HJ _ _ Hw)).
    destruct (mapR g xs) as [tss|e]; cbn [mbind result_bind]; [|done].
    cbn [concat]. by rewrite IH, puts_app.
  - unfold bindM. by destruct (body x w) as [[[]|e'] w']; cbn in *; simplify_eq.
Qed.

End StreamText.

Section WriterTexts.
Context `{Engine} `{Runtime}.

Lemma mapR_pure {X Y} (h : X -> Y) xs : mapR (fun x => Ok (h x)) xs = Ok (map h xs).
Proof. induction xs as [|x xs IH]; [done|]. cbn [mapR map mbind result_bind]. by rewrite IH. Qed.

Lemma concat_singletons {X Y} (h : X -> Y) xs : concat (map (fun x => [h x]) xs) = map h xs.
Proof. induction xs as [|x xs IH]; [done|]. cbn. by rewrite IH. Qed.

Lemma get_at p w v : polys w !! p = Some v -> get p w = (Ok v, w).
Proof. intros Hv. unfold get. by rewrite Hv. Qed.

Lemma get_missing p w : polys w !! p = None -> get p w = (Err BadHandle, w).
Proof. intros Hv. unfold get. by rewrite Hv. Qed.

(** The stream the resolver makes of its own. *)
Lemma resolve_made ofile w cl :
  makes_stream ofile w = Some cl ->
  getWritableObject ofile w
  = (Ok (length (streams w), cl), with_streams w (streams w ++ [mkStream "" 0])).
Proof.
  destruct ofile as [|name| |]; cbn [makes_stream getWritableObject]; try done.
  - by intros [= <-].
  - unfold open_w, bindM. destruct (decide (name ∈ readonly w)); [done|]. by intros [= <-].
Qed.

Lemma made_open w : is_open (length (streams w)) (with_streams w (streams w ++ [mkStream "" 0])).
Proof.
  exists (mkStream "" 0). split; [|done]. cbn [streams with_streams].
  by rewrite lookup_app_r, Nat.sub_diag.
Qed.

(** The end of a writer on the stream it made: the text [ts] is in the
    stream, which has been closed if it is owned. *)
Lemma made_release w ts (cl : bool) :
  let f := length (streams w) in
  let w1 := puts f ts (with_streams w (streams w ++ [mkStream "" 0])) in
  exists w',
    (let! _ := (if cl then close f else retM tt) in retM f) w1 = (Ok f, w') /\
    streams w' = streams w ++ [mkStream (String.concat "" ts) (if cl then 1 else 0)] /\
    polys w' = polys w.
Proof.
  intros f w1.
  assert (Hs : streams w1 = streams w ++ [mkStream (String.concat "" ts) 0]).
  { unfold w1. rewrite (puts_streams _ _ _ (mkStream "" 0)).
    - cbn [streams with_streams content closes]. unfold f.
      rewrite insert_app_r_alt, Nat.sub_diag by done. done.
    - cbn [streams with_streams]. unfold f. by rewrite lookup_app_r, Nat.sub_diag. }
  assert (Hp : polys w1 = polys w) by (unfold w1; by rewrite puts_polys).
  destruct cl.
  - unfold bindM, close. rewrite Hs. unfold f. rewrite lookup_app_r, Nat.sub_diag by done.
    cbn [lookup list_lookup retM]. eexists. split; [done|].
    cbn [streams polys with_streams content closes]. split; [|done].
    rewrite insert_app_r_alt, Nat.sub_diag by done. done.
  - exists w1. done.
Qed.

Lemma gnuplot_contour_puts f vl w :
  is_open f w ->
  match gnuplot_lines vl with
  | Ok ts => gnuplot_contour f vl w = (Ok tt, puts f ts w)
  | Err e => (gnuplot_contour f vl w).1 = Err e
  end.
Proof.
  intros Hw. unfold gnuplot_contour, gnuplot_lines.
  pose proof (forM_puts f (is_open f) (fun j => write f (gnuplot_line j nl))
                (fun j => Ok [gnuplot_line j nl]) vl
                (fun w' ts Hw' => puts_open f ts w' Hw')
                (fun j w' _ Hw' => write_put f _ w' Hw') w Hw) as Hloop.
  rewrite mapR_pure, concat_singletons in Hloop.
  rewrite (bind_resolved _ _ _ _ _ Hloop).
  destruct (index vl 0) as [first|e]; cbn [mbind result_bind]; [|done].
  rewrite (bind_lift_ok _ first) by done.
  rewrite write_put by (by apply puts_open).
  by rewrite puts_app.
Qed.

Lemma gnuplot_body_puts f w0 polylist w :
  is_open f w -> polys w = polys w0 ->
  match gnuplot_texts w0 polylist with
  | Ok tss =>
      forM polylist (fun p => let! v := get p in
                              forM v (fun c => gnuplot_contour f (points c))) w
      = (Ok tt, puts f (concat tss) w)
  | Err e =>
      (forM polylist (fun p => let! v := get p in
                               forM v (fun c => gnuplot_contour f (points c))) w).1 = Err e
  end.
Proof.
  intros Hw Hp. unfold gnuplot_texts.
  apply (forM_puts f (fun w' => is_open f w' /\ polys w' = polys w0)); [| |done].
  - intros w' ts [Ho Hq]. split; [by apply puts_open|by rewrite puts_polys].
  - intros p w' _ [Ho Hq].
    rewrite <- Hq. destruct (polys w' !! p) as [v|] eqn:Hv;
      cbn [of_option mbind result_bind];
      [rewrite (bind_resolved _ _ _ _ _ (get_at p w' v Hv))
      |by rewrite (bind_failed _ _ _ _ _ (get_missing p w' Hv))].
    pose proof (forM_puts f (is_open f) (fun c => gnuplot_contour f (points c))
                  (fun c => gnuplot_lines (points c)) v
                  (fun w'' ts Hw'' => puts_open f ts w'' Hw'')
                  (fun c w'' _ Hw'' => gnuplot_contour_puts f (points c) w'' Hw'') w' Ho)
      as Hloop.
    by destruct (mapR _ v).
Qed.

Lemma xml_body_puts f w0 polylist w :
  is_open f w -> polys w = polys w0 ->
  match xml_texts w0 polylist with
  | Ok tss =>
      forM polylist (fun p => let! v := get p in
                              let! l := lift (xml_polygon v) in
                              write f (String.concat nl l)) w
      = (Ok tt, puts f (concat tss) w)
  | Err e =>
      (forM polylist (fun p => let! v := get p in
                               let! l := lift (xml_polygon v) in
                               write f (String.concat nl l)) w).1 = Err e
  end.
Proof.
  intros Hw Hp. unfold xml_texts.
  apply (forM_puts f (fun w' => is_open f w' /\ polys w' = polys w0)); [| |done].
  - intros w' ts [Ho Hq]. split; [by apply puts_open|by rewrite puts_polys].
  - intros p w' _ [Ho Hq].
    rewrite <- Hq. destruct (polys w' !! p) as [v|] eqn:Hv;
      cbn [of_option mbind result_bind];
      [rewrite (bind_resolved _ _ _ _ _ (get_at p w' v Hv))
      |by rewrite (bind_failed _ _ _ _ _ (get_missing p w' Hv))].
    destruct (xml_polygon v) as [l|e] eqn:Hl; cbn [mbind result_bind].
    + rewrite (bind_lift_ok _ l) by done. by rewrite write_put.
    + by rewrite (bind_lift_err _ e).
Qed.

(** [xml_polygon] raises on no polygon: the index [isHole] is asked for
    comes from [enumerate]. *)
Lemma xml_contours_total (p : Polygon float) (ics : list (nat * Contour float)) :
  Forall (fun ic => p !! ic.1 = Some ic.2) ics ->
  exists r, mapR (fun ic => xml_contour p ic.1 ic.2) ics = Ok r.
Proof.
  induction 1 as [|[i c] ics Hi _ [r IH]]; [by exists []|].
  cbn [mapR]. rewrite IH. unfold xml_contour, isHole, index. cbn [fst snd] in *.
  unfold Polygon in *. rewrite Hi. by eexists.
Qed.

Lemma xml_polygon_total (p : Polygon float) : exists l, xml_polygon p = Ok l.
Proof.
  unfold xml_polygon. destruct (xml_contours_total p (imap (fun i c => (i, c)) p)) as [r Hr].
  - apply Forall_lookup. intros i [j c]. rewrite list_lookup_imap. unfold Polygon in *.
    destruct (p !! i) as [c'|] eqn:Hc; cbn; [|done]. by intros [= <- <-].
  - rewrite Hr. by eexists.
Qed.

Lemma xml_texts_total w polylist :
  Forall (fun p => p < length (polys w)) polylist ->
  exists tss, xml_texts w polylist = Ok tss.
Proof.
  unfold xml_texts. induction 1 as [|p polylist Hp _ [tss IH]]; [by exists []|].
  cbn [mapR]. destruct (lookup_lt_is_Some_2 _ _ Hp) as [v ->].
  cbn [of_option mbind result_bind].
  destruct (xml_polygon_total v) as [l ->]. cbn [mbind result_bind].
  rewrite IH. by eexists.
Qed.

(** X9: [writeGnuplot] to a destination the resolver makes a stream for
    ([None], or a name that can be opened): the stream is a new one and
    it is returned, holding for every contour of every polygon a line for
    each point and the first point again; it has been closed if it was
    opened from a name.  The first contour without a point, or the first
    handle that names no polygon, ends the call with its error. *)
Theorem writeGnuplot_text ofile polylist w cl :
  makes_stream ofile w = Some cl ->
  match gnuplot_texts w polylist with
  | Ok tss =>
      exists w',
        writeGnuplot ofile polylist w = (Ok (length (streams w)), w') /\
        streams w' = streams w ++ [mkStream (String.concat "" (concat tss))
                                            (if cl then 1 else 0)] /\
        polys w' = polys w
  | Err e => (writeGnuplot ofile polylist w).1 = Err e /\ (e = IndexError \/ e = BadHandle)
  end.
Proof.
  intros Hr%resolve_made. unfold writeGnuplot. rewrite (bind_resolved _ _ _ _ _ Hr).
  pose proof (gnuplot_body_puts (length (streams w)) w polylist _ (made_open w) eq_refl)
    as Hb.
  destruct (gnuplot_texts w polylist) as [tss|e] eqn:Ht.
  - rewrite (bind_resolved _ _ _ _ _ Hb). apply made_release.
  - split.
    + unfold bindM at 1. by destruct (forM _ _ _) as [[[]|e'] w']; cbn in *; simplify_eq.
    + clear Hb. revert e Ht. unfold gnuplot_texts.
      induction polylist as [|p polylist IH]; intros e; [done|]. cbn [mapR].
      destruct (polys w !! p) as [v|]; cbn [of_option mbind result_bind];
        [|intros [= <-]; by right].
      destruct (mapR _ v) as [ls|e'] eqn:Hv; cbn [mbind result_bind].
      * destruct (mapR _ polylist) as [?|e'']; [done|]. intros [= <-]. by apply IH.
      * intros [= <-]. left. clear -Hv. revert e' Hv.
        induction v as [|c v IHv]; intros e'; [done|]. cbn [mapR].
        destruct (gnuplot_lines (points c)) as [?|e0] eqn:Hc; cbn [mbind result_bind].
        -- destruct (mapR _ v) as [?|e'']; [done|]. intros [= <-]. by apply IHv.
        -- intros [= <-]. unfold gnuplot_lines, index in Hc.
           destruct (points c !! 0); [done|]. by injection Hc as <-.
Qed.

(** X10: [writeXML] to a destination the resolver makes a stream for
    does not raise when the handles name polygons: it returns the new
    stream, which holds the header if it was asked for and then the lines
    of each polygon, and which has been closed if it was opened from a
    name; no polygon object has changed. *)
Theorem writeXML_text ofile polylist withHeader w cl :
  makes_stream ofile w = Some cl ->
  Forall (fun p => p < length (polys w)) polylist ->
  exists tss w',
    xml_texts w polylist = Ok tss /\
    writeXML ofile polylist withHeader w = (Ok (length (streams w)), w') /\
    streams w' = streams w ++ [mkStream (String.concat ""
                                           ((if withHeader then [xml_header] else [])
                                            ++ concat tss))
                                        (if cl then 1 else 0)] /\
    polys w' = polys w.
Proof.
  intros Hr%resolve_made [tss Ht]%xml_texts_total. exists tss.
  unfold writeXML. rewrite (bind_resolved _ _ _ _ _ Hr).
  set (f := length (streams w)). set (w1 := with_streams w _).
  assert (Hh : (if withHeader then write f xml_header else retM tt) w1
               = (Ok tt, puts f (if withHeader then [xml_header] else []) w1)).
  { destruct withHeader; [|done]. by rewrite write_put by apply made_open. }
  rewrite (bind_resolved _ _ _ _ _ Hh).
  pose proof (xml_body_puts f w polylist _
                (puts_open f _ _ (made_open w))
                (puts_polys f (if withHeader then [xml_header] else []) w1)) as Hb.
  rewrite Ht in Hb. rewrite (bind_resolved _ _ _ _ _ Hb), <- puts_app.
  destruct (made_release w ((if withHeader then [xml_header] else []) ++ concat tss) cl)
    as (w' & Hw' & Hs & Hp).
  exists w'. done.
Qed.

End WriterTexts.

(** ** The text of [writeGnuplotTriangles] *)

Section TriangleTexts.
Context `{Engine} `{Runtime}.

Lemma mapR_singletons {X Y} (h : X -> result Y) xs :
  mapR (fun x => t ← h x; Ok [t]) xs = (ts ← mapR h xs; Ok (map (fun t => [t]) ts)).
Proof.
  induction xs as [|x xs IH]; [done|]. cbn [mapR].
  destruct (h x) as [t|e]; cbn [mbind result_bind]; [|done].
  rewrite IH. by destruct (mapR h xs).
Qed.

Lemma gnuplot_triangle_total vl j :
  j < length vl - 2 -> exists t, gnuplot_triangle vl j = Ok t.
Proof.
  intros Hj. unfold gnuplot_triangle, index.
  destruct (lookup_lt_is_Some_2 vl j) as [a ->]; [lia|].
  destruct (lookup_lt_is_Some_2 vl (j + 1)) as [b ->]; [lia|].
  destruct (lookup_lt_is_Some_2 vl (j + 2)) as [c ->]; [lia|].
  by eexists.
Qed.

Lemma triangle_lines_total vl : exists ts, triangle_lines vl = Ok ts.
Proof.
  unfold triangle_lines.
  assert (Hm : forall js, Forall (fun j => j < length vl - 2) js ->
                          exists ts, mapR (gnuplot_triangle vl) js = Ok ts).
  { induction 1 as [|j js Hj _ [ts IH]]; [by exists []|]. cbn [mapR].
    destruct (gnuplot_triangle_total vl j Hj) as [t ->]. rewrite IH. by eexists. }
  destruct (Hm (seq 0 (length vl - 2))) as [ts ->]; [|by eexists].
  apply Forall_forall. intros j [_ Hj]%elem_of_seq. lia.
Qed.

Lemma triangles_texts_total w polylist :
  Forall (fun p => p < length (polys w)) polylist ->
  exists tss, triangles_texts w polylist = Ok tss.
Proof.
  unfold triangles_texts. induction 1 as [|p polylist Hp _ [tss IH]]; [by exists []|].
  cbn [mapR]. destruct (lookup_lt_is_Some_2 _ _ Hp) as [v ->].
  cbn [of_option mbind result_bind].
  assert (Hm : exists ls, mapR triangle_lines (triStrip v) = Ok ls).
  { induction (triStrip v) as [|vl vls [ls IHv]]; [by exists []|]. cbn [mapR].
    destruct (triangle_lines_total vl) as [ts ->]. rewrite IHv. by eexists. }
  destruct Hm as [ls ->]. cbn [mbind result_bind]. rewrite IH. by eexists.
Qed.

Lemma triangle_strip_puts f vl w :
  is_open f w ->
  match triangle_lines vl with
  | Ok ts =>
      (let! _ := forM (seq 0 (length vl - 2))
                      (fun j => let! text := lift (gnuplot_triangle vl j) in write f text) in
       write f nl) w = (Ok tt, puts f ts w)
  | Err e =>
      ((let! _ := forM (seq 0 (length vl - 2))
                       (fun j => let! text := lift (gnuplot_triangle vl j) in write f text) in
        write f nl) w).1 = Err e
  end.
Proof.
  intros Hw. unfold triangle_lines.
  pose proof (forM_puts f (is_open f)
                (fun j => let! text := lift (gnuplot_triangle vl j) in write f text)
                (fun j => t ← gnuplot_triangle vl j; Ok [t]) (seq 0 (length vl - 2))
                (fun w' ts Hw' => puts_open f ts w' Hw')) as Hloop.
  rewrite mapR_singletons in Hloop.
  assert (Hbody : forall j w', j ∈ seq 0 (length vl - 2) -> is_open f w' ->
            match t ← gnuplot_triangle vl j; Ok [t] with
            | Ok ts => (let! text := lift (gnuplot_triangle vl j) in write f text) w'
                       = (Ok tt, puts f ts w')
            | Err e => ((let! text := lift (gnuplot_triangle vl j) in write f text) w').1
                       = Err e
            end).
  { intros j w' _ Hw'. destruct (gnuplot_triangle vl j) as [t|e]; cbn [mbind result_bind].
    - rewrite (bind_lift_ok _ t) by done. by apply write_put.
    - by rewrite (bind_lift_err _ e). }
  specialize (Hloop Hbody w Hw).
  destruct (mapR (gnuplot_triangle vl) _) as [ts|e]; cbn [mbind result_bind] in *.
  - rewrite (bind_resolved _ _ _ _ _ Hloop), concat_singletons, map_id.
    rewrite write_put by (by apply puts_open). by rewrite puts_app.
  - unfold bindM. by destruct (forM _ _ w) as [[[]|e'] w']; cbn in *; simplify_eq.
Qed.

Lemma triangles_body_puts f w0 polylist w :
  is_open f w -> polys w = polys w0 ->
  match triangles_texts w0 polylist with
  | Ok tss =>
      forM polylist (fun p =>
        let! v := get p in
        forM (triStrip v) (fun vl =>
          let! _ := forM (seq 0 (length vl - 2)) (fun j =>
            let! text := lift (gnuplot_triangle vl j) in
            write f text) in
          write f nl)) w
      = (Ok tt, puts f (concat tss) w)
  | Err e =>
      (forM polylist (fun p =>
         let! v := get p in
         forM (triStrip v) (fun vl =>
           let! _ := forM (seq 0 (length vl - 2)) (fun j =>
             let! text := lift (gnuplot_triangle vl j) in
             write f text) in
           write f nl)) w).1 = Err e
  end.
Proof.
  intros Hw Hp. unfold triangles_texts.
  apply (forM_puts f (fun w' => is_open f w' /\ polys w' = polys w0)); [| |done].
  - intros w' ts [Ho Hq]. split; [by apply puts_open|by rewrite puts_polys].
  - intros p w' _ [Ho Hq]. rewrite <- Hq.
    destruct (polys w' !! p) as [v|] eqn:Hv; cbn [of_option mbind result_bind];
      [rewrite (bind_resolved _ _ _ _ _ (get_at p w' v Hv))
      |by rewrite (bind_failed _ _ _ _ _ (get_missing p w' Hv))].
    pose proof (forM_puts f (is_open f)
                  (fun vl => let! _ := forM (seq 0 (length vl - 2)) (fun j =>
                               let! text := lift (gnuplot_triangle vl j) in
                               write f text) in
                             write f nl)
                  triangle_lines (triStrip v)
                  (fun w'' ts Hw'' => puts_open f ts w'' Hw'')
                  (fun vl w'' _ Hw'' => triangle_strip_puts f vl w'' Hw'') w' Ho) as Hin.
    by destruct (mapR triangle_lines (triStrip v)).
Qed.

(** X11: [writeGnuplotTriangles] to a destination the resolver makes a
    stream for does not raise when the handles name polygons, whatever
    the strips: a strip of [n] vertices gives [n - 2] triangles, none
    when it has fewer than three, and an empty line.  The stream holds
    these texts and has been closed, twice if it was opened from a name;
    it is not returned. *)
Theorem writeGnuplotTriangles_text ofile polylist w cl :
  makes_stream ofile w = Some cl ->
  Forall (fun p => p < length (polys w)) polylist ->
  exists tss w',
    triangles_texts w polylist = Ok tss /\
    writeGnuplotTriangles ofile polylist w = (Ok tt, w') /\
    streams w' = streams w ++ [mkStream (String.concat "" (concat tss))
                                        (if cl then 2 else 1)] /\
    polys w' = polys w.
Proof.
  intros Hr%resolve_made [tss Ht]%triangles_texts_total. exists tss.
  unfold writeGnuplotTriangles. rewrite (bind_resolved _ _ _ _ _ Hr).
  pose proof (triangles_body_puts (length (streams w)) w polylist _ (made_open w) eq_refl)
    as Hb.
  rewrite Ht in Hb. rewrite (bind_resolved _ _ _ _ _ Hb).
  set (f := length (streams w)). set (w1 := puts f _ _).
  assert (Hs : streams w1 = streams w ++ [mkStream (String.concat "" (concat tss)) 0]).
  { unfold w1. rewrite (puts_streams _ _ _ (mkStream "" 0)).
    - cbn [streams with_streams content closes]. unfold f.
      rewrite insert_app_r_alt, Nat.sub_diag by done. done.
    - cbn [streams with_streams]. unfold f. by rewrite lookup_app_r, Nat.sub_diag. }
  assert (Hp : polys w1 = polys w) by (unfold w1; by rewrite puts_polys).
  assert (Hc : forall w2 t k, streams w2 = streams w ++ [mkStream t k] ->
                 exists w3, close f w2 = (Ok tt, w3) /\
                            streams w3 = streams w ++ [mkStream t (S k)] /\
                            polys w3 = polys w2).
  { intros w2 t k Hw2. unfold close. rewrite Hw2. unfold f.
    rewrite lookup_app_r, Nat.sub_diag by done. cbn [lookup list_lookup].
    eexists. split; [done|]. cbn [streams polys with_streams content closes].
    split; [|done]. rewrite insert_app_r_alt, Nat.sub_diag by done. done. }
  destruct cl.
  - destruct (Hc w1 _ _ Hs) as (w2 & Hw2 & Hs2 & Hp2).
    destruct (Hc w2 _ _ Hs2) as (w3 & Hw3 & Hs3 & Hp3).
    exists w3. rewrite (bind_resolved _ _ _ _ _ Hw2). split; [done|].
    split; [done|]. split; [done|congruence].
  - destruct (Hc w1 _ _ Hs) as (w2 & Hw2 & Hs2 & Hp2).
    exists w2. unfold bindM at 1. cbn [retM]. split; [done|].
    split; [done|]. split; [done|congruence].
Qed.

End TriangleTexts.

(** ** The stream resolvers and the edges of the writers *)

Section Edges.
Context `{Engine} `{Runtime}.

(** X12: [writeGnuplotTriangles] ends with [f.close()] after
    [if cl: f.close()]: after a normal return a stream of the caller has
    been closed once by the call and a stream opened from a name twice. *)
Theorem writeGnuplotTriangles_closes_twice ofile polylist w f cl w1 :
  getWritableObject ofile w = (Ok (f, cl), w1) ->
  is_ok (writeGnuplotTriangles ofile polylist w).1 = true ->
  closes_of (writeGnuplotTriangles ofile polylist w).2 f
  = closes_of w f + (if cl then 2 else 1).
Proof.
  intros Hr. unfold writeGnuplotTriangles. rewrite !(bind_resolved _ _ _ _ _ Hr).
  assert (Hc : forall w', match close f w' with
                          | (Ok _, w'') => closes_of w'' f = S (closes_of w' f)
                          | (Err _, _) => True
                          end).
  { intros w'. unfold close. destruct (streams w' !! f) eqn:Hf; [|done].
    rewrite closes_of_close by done. by rewrite decide_True. }
  match goal with
  | |- is_ok (?m w1).1 = true -> _ =>
      assert (Hm : hoare (inv w (fun _ => False)) m
                     (fun _ w' => closes_of w' f = closes_of w f + (if cl then 2 else 1))
                     (fun _ => True))
  end.
  { chain ltac:(apply keeps_triangles_body).
    intros w' Hw'. unfold bindM. destruct cl.
    - pose proof (Hc w') as H2. destruct (close f w') as [[[]|e] w3]; [|done].
      pose proof (Hc w3) as H3. destruct (close f w3) as [[[]|e] w4]; [|done].
      rewrite H3, H2, (inv_closes _ _ _ Hw') by tauto. lia.
    - cbn [retM]. pose proof (Hc w') as H2. destruct (close f w') as [[[]|e] w3]; [|done].
      rewrite H2, (inv_closes _ _ _ Hw') by tauto. lia. }
  specialize (Hm w1 (resolved_write _ _ _ _ _ Hr)).
  match goal with |- is_ok (?m w1).1 = true -> _ => destruct (m w1) as [[[]|e] w2] end;
    cbn [fst snd is_ok]; [intros _; exact Hm|discriminate].
Qed.

(** X13: an argument the resolver refuses ends the operation with the
    resolver's error before anything else is done: no stream is made and
    no polygon is cloned.  A writer refuses an object without [write] and
    a name that cannot be opened; the reader refuses [None] and an object
    without [read], and no string. *)
Theorem unresolved_untouched (o : operation) arg w e w1 :
  resolve o arg w = (Err e, w1) ->
  run o arg w = (Err e, w) /\
  match arg with
  | PyNone => is_reader o = true /\ e = UnsupportedSource
  | PyStr name => is_reader o = false /\ e = OSError /\ name ∈ readonly w
  | PyStream _ => False
  | PyOther => e = if is_reader o then UnsupportedSource else UnsupportedDestination
  end.
Proof.
  intros Hr.
  assert (Hw : w1 = w /\
               match arg with
               | PyNone => is_reader o = true /\ e = UnsupportedSource
               | PyStr name => is_reader o = false /\ e = OSError /\ name ∈ readonly w
               | PyStream _ => False
               | PyOther => e = if is_reader o then UnsupportedSource
                                else UnsupportedDestination
               end).
  { destruct o, arg as [|name|f|]; cbn [resolve is_reader] in *;
      unfold getWritableObject, getReadableObject, StringIO, bindM, open_w, open_r,
             new_stream, retM, raise in Hr;
      repeat match type of Hr with
             | context [decide ?P] => destruct (decide P)
             | context [files w !! ?n] => destruct (files w !! n)
             end; by simplify_eq. }
  destruct Hw as [-> Hw]. split; [|done].
  destruct o; cbn [resolve run] in *;
    unfold writeGnuplot, writeGnuplotTriangles, writeSVG, svg_setup, writeXML, readXML;
    unfold bindM; by rewrite Hr.
Qed.

(** X14: [readXML] of a string never fails on opening it: the text
    parsed is the file of that name if it can be read, and the string
    itself if not; the result is what the reader makes of the parsed
    document, and no polygon object of the world changes. *)
Theorem readXML_of_string name w :
  let text := default name (files w !! name) in
  (readXML (PyStr name) w).1
  = (d ← of_option ParseError (parseString text); read_document d) /\
  polys (readXML (PyStr name) w).2 = polys w.
Proof.
  cbv zeta.
  assert (Hr : getReadableObject (PyStr name) w
               = (Ok (length (streams w), true),
                  with_streams w (streams w ++ [mkStream (default name (files w !! name)) 0]))).
  { unfold getReadableObject, open_r. by destruct (files w !! name). }
  unfold readXML. rewrite !(bind_resolved _ _ _ _ _ Hr).
  set (text := default name (files w !! name)) in *.
  set (w1 := with_streams w _).
  assert (Hf : streams w1 !! length (streams w) = Some (mkStream text 0)).
  { unfold w1. cbn [streams with_streams]. by rewrite lookup_app_r, Nat.sub_diag. }
  assert (Hread : read (length (streams w)) w1 = (Ok text, w1)).
  { unfold read. by rewrite Hf. }
  rewrite !(bind_resolved _ _ _ _ _ Hread).
  destruct (parseString text) as [d|]; cbn [of_option mbind result_bind].
  - rewrite !(bind_lift_ok _ d) by done. unfold bindM, close. rewrite Hf. done.
  - by rewrite !(bind_lift_err _ ParseError).
Qed.

(** X15: on an empty list of polygons [writeGnuplot] and [writeXML]
    return the stream with nothing written for a polygon, while
    [writeSVG] and [writePDF] raise [IndexError] at [bbs2[0]], the
    transposed list of no bounding box. *)
Theorem empty_polylist ofile w f cl w1 :
  getWritableObject ofile w = (Ok (f, cl), w1) ->
  (writeGnuplot ofile [] w).1 = Ok f /\
  (writeXML ofile [] false w).1 = Ok f /\
  (forall width height fc fo sc sw labels labels_coords labels_centered,
     writeSVG ofile [] width height fc fo sc sw labels labels_coords labels_centered w
     = (Err IndexError, w1)) /\
  (forall pagesize linewidth fill_color,
     writePDF ofile [] pagesize linewidth fill_color w = (Err IndexError, w)).
Proof.
  intros Hr.
  assert (Hc : cl = true -> exists w2, close f w1 = (Ok tt, w2)).
  { intros ->. destruct ofile as [|name| |]; cbn [getWritableObject] in Hr; try done.
    unfold bindM, open_w in Hr. destruct (decide (name ∈ readonly w)); [done|].
    injection Hr as <- <-. unfold close. cbn [streams with_streams].
    rewrite lookup_app_r, Nat.sub_diag by done. by eexists. }
  split; [|split; [|split]].
  - unfold writeGnuplot. rewrite (bind_resolved _ _ _ _ _ Hr). cbn [forM].
    destruct cl; [|done]. destruct (Hc eq_refl) as [w2 Hw2].
    unfold bindM at 1. cbn [retM]. by rewrite (bind_resolved _ _ _ _ _ Hw2).
  - unfold writeXML. rewrite (bind_resolved _ _ _ _ _ Hr). cbn [forM].
    destruct cl; [|done]. destruct (Hc eq_refl) as [w2 Hw2].
    unfold bindM at 1 2. cbn [retM]. by rewrite (bind_resolved _ _ _ _ _ Hw2).
  - intros. unfold writeSVG, svg_setup.
    by rewrite bind_assoc_at, (bind_resolved _ _ _ _ _ Hr).
  - done.
Qed.

Lemma svg_size_falsy_width a width height :
  truthy_opt width = false -> svg_size a width height = svg_size a None height.
Proof.
  intros Hw. unfold svg_size. cbn [truthy_opt]. rewrite Hw. cbn [negb andb].
  destruct (truthy_opt height) eqn:Hh; cbn [negb fst snd andb]; rewrite ?Hw, ?Hh;
    cbn [negb andb mbind result_bind truthy_opt]; rewrite ?Hh; cbn [negb andb]; [done|].
  destruct (a <? 1)%float; cbn [fst snd truthy_opt]; rewrite ?Hw, ?Hh; cbn [negb andb];
    [done|].
  destruct (truthy 300); cbn [andb mbind result_bind truthy_opt]; rewrite ?Hw;
    cbn [negb andb]; done.
Qed.

Lemma svg_size_falsy_height a width height :
  truthy_opt height = false -> svg_size a width height = svg_size a width None.
Proof.
  intros Hh. unfold svg_size. cbn [truthy_opt]. rewrite Hh. cbn [negb andb].
  destruct (truthy_opt width) eqn:Hw; cbn [negb fst snd andb]; rewrite ?Hw, ?Hh;
    cbn [negb andb mbind result_bind truthy_opt]; [done|].
  destruct (a <? 1)%float; cbn [fst snd truthy_opt]; rewrite ?Hw, ?Hh; cbn [negb andb];
    done.
Qed.

(** X16: a width or a height of zero is taken for one that is not
    given: [writeSVG] tests the two with [not], so the call does what it
    does with [None] in that place. *)
Theorem writeSVG_zero_size_absent ofile polylist width height fc fo sc sw labels
    labels_coords labels_centered w :
  (truthy_opt width = false ->
   writeSVG ofile polylist width height fc fo sc sw labels labels_coords labels_centered w
   = writeSVG ofile polylist None height fc fo sc sw labels labels_coords labels_centered w) /\
  (truthy_opt height = false ->
   writeSVG ofile polylist width height fc fo sc sw labels labels_coords labels_centered w
   = writeSVG ofile polylist width None fc fo sc sw labels labels_coords labels_centered w).
Proof.
  assert (Hs : forall wd ht wd' ht',
             (forall a, svg_size a wd ht = svg_size a wd' ht') ->
             svg_setup ofile polylist wd ht w = svg_setup ofile polylist wd' ht' w).
  { intros wd ht wd' ht' Hsz. unfold svg_setup, bindM.
    destruct (getWritableObject ofile w) as [[[f cl]|e] w1]; [|done].
    destruct (layout true polylist w1) as [[lay|e] w2]; [|done].
    destruct (lift (check_extent lay) w2) as [[[]|e] w3]; [|done].
    destruct (lift (py_div (ydim lay) (xdim lay)) w3) as [[a|e] w4]; [|done].
    unfold lift. by rewrite Hsz. }
  split; intros Hz; unfold writeSVG; apply bind_cong, Hs; intros a.
  - by apply svg_size_falsy_width.
  - by apply svg_size_falsy_height.
Qed.

End Edges.

(** ** What the writers return *)

Section Returns.
Context `{Engine} `{Runtime}.

(** X8: [writeGnuplot], [writeXML] and [writeSVG] return the stream
    the resolver gave them: the caller's own stream, or the one made for
    [None] or for a name, which in the last case is closed by then. *)
Theorem writers_return_stream ofile polylist w f cl w1 :
  getWritableObject ofile w = (Ok (f, cl), w1) ->
  (forall h w', writeGnuplot ofile polylist w = (Ok h, w') -> h = f) /\
  (forall withHeader h w', writeXML ofile polylist withHeader w = (Ok h, w') -> h = f) /\
  (forall width height fc fo sc sw labels labels_coords labels_centered h w',
     writeSVG ofile polylist width height fc fo sc sw labels labels_coords labels_centered w
     = (Ok h, w') -> h = f).
Proof.
  intros Hr. split; [|split].
  - intros h w'. unfold writeGnuplot. rewrite (bind_resolved _ _ _ _ _ Hr).
    intros (? & ? & _ & (? & ? & _ & Hret)%bind_Ok_inv)%bind_Ok_inv.
    by injection Hret as <- _.
  - intros withHeader h w'. unfold writeXML. rewrite (bind_resolved _ _ _ _ _ Hr).
    intros (? & ? & _ & (? & ? & _ & (? & ? & _ & Hret)%bind_Ok_inv)%bind_Ok_inv)%bind_Ok_inv.
    by injection Hret as <- _.
  - intros width height fc fo sc sw labels labels_coords labels_centered h w'.
    unfold writeSVG. intros (su & w2 & Hsu & Hrest)%bind_Ok_inv.
    destruct (svg_setup_resolved _ _ _ _ _ _ _ _ _ _ Hr Hsu) as [<- _].
    apply bind_Ok_inv in Hrest as (lab & ? & _ & Hbody). unfold svg_body in Hbody.
    do 3 apply bind_Ok_inv in Hbody as (? & ? & _ & Hbody).
    apply bind_Ok_inv in Hbody as ([? ?] & ? & _ & Hbody).
    do 2 apply bind_Ok_inv in Hbody as (? & ? & _ & Hbody).
    by injection Hbody as <- _.
Qed.

End Returns.

(** ** [writeSVG] without labels *)

Lemma bind_ext {A B} (m : M A) (k k' : A -> M B) w :
  (forall a w', k a w' = k' a w') -> bindM m k w = bindM m k' w.
Proof. intros Hk. unfold bindM. destruct (m w) as [[a|e] w']; [apply Hk|done]. Qed.

Section Unlabelled.
Context `{Engine} `{Runtime}.

Lemma svg_polygon_unlabelled lay width height lab lab' lc lc' st i w :
  truthy_seq (labels_used lab) = false -> truthy_seq (labels_used lab') = false ->
  svg_polygon lay width height lab lc st i w = svg_polygon lay width height lab' lc' st i w.
Proof.
  intros Hl Hl'. unfold svg_polygon.
  apply bind_ext. intros p w1.
  apply bind_ext. intros [fc ring1] w2.
  apply bind_ext. intros [fo ring2] w3.
  apply bind_ext. intros [sc ring3] w4.
  apply bind_ext. intros [sw ring4] w5.
  apply bind_ext. intros v w6.
  apply bind_ext. intros subpaths w7.
  by rewrite Hl, Hl'.
Qed.

Lemma svg_polygons_unlabelled lay width height lab lab' lc lc' range : forall st w,
  truthy_seq (labels_used lab) = false -> truthy_seq (labels_used lab') = false ->
  svg_polygons lay width height lab lc st range w
  = svg_polygons lay width height lab' lc' st range w.
Proof.
  induction range as [|i range IH]; intros st w Hl Hl'; [done|]. cbn [svg_polygons].
  rewrite (bind_cong _ _ _ _ _
             (svg_polygon_unlabelled lay width height lab lab' lc lc' st i w Hl Hl')).
  apply bind_ext. intros st' w'. by apply IH.
Qed.

(** X17: without labels, [labels] absent or empty, the label
    coordinates and [labels_centered] have no effect: [writeSVG] does
    what it does with neither given, whatever their number. *)
Theorem writeSVG_unlabelled ofile polylist width height fc fo sc sw labels labels_coords
    labels_centered w :
  truthy_seq labels = false ->
  writeSVG ofile polylist width height fc fo sc sw labels labels_coords labels_centered w
  = writeSVG ofile polylist width height fc fo sc sw None None false w.
Proof.
  intros Hl. unfold writeSVG. apply bind_ext. intros su w1.
  assert (Hs : svg_labels (length (pp (su_lay su))) labels labels_coords labels_centered
               = Ok (mkLabels labels "" "")) by (unfold svg_labels; by rewrite Hl).
  rewrite (bind_lift_ok _ _ _ _ Hs).
  rewrite (bind_lift_ok _ (mkLabels None "" "")) by done.
  unfold svg_body.
  apply bind_ext. intros s w2. apply bind_ext. intros wd w3. apply bind_ext. intros ht w4.
  apply bind_cong. by apply svg_polygons_unlabelled.
Qed.

End Unlabelled.

(** ** [writePDF] *)

Section PdfErrors.
Context `{Engine} `{Runtime}.
Context (S : error -> Prop) (HS : forall e, runtime_error e = true -> S e).

Lemma raises_forM {X} (body : X -> M unit) xs :
  (forall x, raises S (body x)) -> raises S (forM xs body).
Proof.
  intros Hb. induction xs as [|x xs IH]; cbn [forM]; [apply raises_ret|].
  apply raises_bind; [apply Hb|]. intros _. apply IH.
Qed.

Lemma fails_in_pdf_path c : fails_in S (pdf_path c).
Proof. unfold pdf_path. fails_go. Qed.

Lemma fails_in_contours_where test poly :
  (forall p i, fails_in S (test p i)) -> fails_in S (contours_where test poly).
Proof.
  intros Ht. unfold contours_where. apply fails_in_bind; [|intros; apply fails_in_ok].
  apply fails_in_mapR. intros i. apply fails_in_bind; [apply Ht|]. intros b _.
  apply fails_in_bind; [by apply fails_in_index|]. intros; apply fails_in_ok.
Qed.

Lemma raises_pdf_polygons polys : forall st, raises S (pdf_polygons st polys).
Proof.
  induction polys as [|poly polys IH]; intros st; cbn [pdf_polygons]; [apply raises_ret|].
  apply raises_bind; [|intros; apply IH]. unfold pdf_polygon.
  apply raises_bind; [by apply raises_get|]. intros v.
  apply raises_bind.
  { apply raises_lift, fails_in_contours_where. intros p i. unfold isSolid. fails_go. }
  intros solids. apply raises_bind; [apply raises_lift; by apply fails_in_call|].
  intros [col ring]. apply raises_bind.
  { apply raises_lift, fails_in_mapR. intros. apply fails_in_pdf_path. }
  intros ps. apply raises_bind.
  { apply raises_lift, fails_in_contours_where. intros p i. unfold isHole. fails_go. }
  intros holes. apply raises_bind.
  { apply raises_lift, fails_in_mapR. intros. apply fails_in_pdf_path. }
  intros hs. apply raises_ret.
Qed.

(** [writePDF] from the division [a = ydim / xdim] on. *)
Lemma raises_pdf_after_check ofile (pagesize : float * float) (linewidth : float)
    fill_color lay :
  raises S
    (let! a := lift (py_div (ydim lay) (xdim lay)) in
     let! r := lift (py_div pagesize.2 pagesize.1) in
     let! wh := lift (if (r <? a)%float
                      then w ← py_div pagesize.2 a; Ok (w, pagesize.2)
                      else Ok (pagesize.1, (pagesize.1 * a)%float)) in
     let! _ := forM (seq 0 (length (pp lay)))
                    (fun i => let! _ := warp lay wh.1 wh.2 i in retM tt) in
     let! (_, can) := pdf_polygons
                        (RingBuffer.__init__
                           (seq_or fill_color ["red"; "green"; "blue"; "yellow"]),
                         [NewCanvas ofile pagesize; SetLineWidth linewidth]) (pp lay) in
     retM (can ++ [ShowPage; Save])).
Proof.
  apply raises_bind; [apply raises_lift; by apply fails_in_py_div|]. intros a.
  apply raises_bind; [apply raises_lift; by apply fails_in_py_div|]. intros r.
  apply raises_bind.
  { apply raises_lift. destruct (r <? a)%float; [|apply fails_in_ok].
    apply fails_in_bind; [by apply fails_in_py_div|]. intros; apply fails_in_ok. }
  intros wh. apply raises_bind.
  { apply raises_forM. intros i. apply raises_bind; [by apply raises_warp|].
    intros; apply raises_ret. }
  intros _. apply raises_bind; [apply raises_pdf_polygons|].
  intros [ring can]. apply raises_ret.
Qed.

End PdfErrors.

Section PdfFacts.
Context `{Engine} `{Runtime}.

Lemma warp_flat_error lay width height w :
  is_zero (ydim lay) = true -> is_zero (xdim lay) = false ->
  0 < length (pp lay) -> length (bbs lay) = length (pp lay) ->
  (warp lay width height 0 w).1 = Err ZeroDivisionError.
Proof.
  intros Hy Hx Hn Hb. unfold warp, index.
  destruct (pp lay !! 0) as [p|] eqn:Hp; [|apply lookup_ge_None in Hp; lia].
  destruct (bbs lay !! 0) as [bb|] eqn:Hbb; [|apply lookup_ge_None in Hbb; lia].
  unfold bindM, lift, py_div. unfold is_zero in *. by rewrite Hx, Hy.
Qed.


Lemma fills_paths cs ps : mapR pdf_path cs = Ok ps -> fills ps = [].
Proof.
  revert ps. induction cs as [|c cs IH]; intros ps; cbn [mapR]; [by intros [= <-]|].
  destruct (pdf_path c) as [op|] eqn:Hc; cbn [mbind result_bind]; [|done].
  destruct (mapR pdf_path cs) as [ps'|]; cbn [mbind result_bind]; [|done].
  intros [= <-]. unfold pdf_path in Hc.
  destruct (index (points c) 0) as [c0|]; cbn [mbind result_bind] in Hc; [|done].
  injection Hc as <-. unfold fills in *. cbn [omap list_omap]. by apply IH.
Qed.

Lemma fills_app a b : fills (a ++ b) = fills a ++ fills b.
Proof. apply omap_app. Qed.

Lemma pdf_polygons_fills colors polys : forall i0 can w ring' can' w',
  i0 < length colors ->
  pdf_polygons (RingBuffer.mk colors i0 (length colors), can) polys w
  = (Ok (ring', can'), w') ->
  exists cols,
    fills can' = fills can ++ flat_map (fun c => [c; "white"]) cols /\
    length cols = length polys /\
    (forall j c, cols !! j = Some c -> colors !! ((i0 + j) mod length colors) = Some c).
Proof.
  induction polys as [|poly polys IH]; intros i0 can w ring' can' w' Hi; cbn [pdf_polygons].
  - intros [= <- <- <-]. exists []. by rewrite app_nil_r.
  - intros ([ring1 can1] & w1 & Hp & Hk)%bind_Ok_inv.
    unfold pdf_polygon in Hp. cbn [fst snd] in Hp.
    apply bind_Ok_inv in Hp as (v & w2 & _ & Hp).
    apply bind_Ok_inv in Hp as (solids & w3 & _ & Hp).
    apply bind_Ok_inv in Hp as ([col ring] & w4 & Hcall & Hp).
    apply bind_Ok_inv in Hp as (ps & w5 & Hps & Hp).
    apply bind_Ok_inv in Hp as (holes & w6 & _ & Hp).
    apply bind_Ok_inv in Hp as (hs & w7 & Hhs & Hp).
    injection Hp as <- <- <-.
    destruct (call_in_range colors i0 Hi) as (o & Ho & Hc).
    unfold lift in Hcall, Hps, Hhs. rewrite Hc in Hcall.
    injection Hcall as <- <- _. injection Hps as Hps _. injection Hhs as Hhs _.
    apply IH in Hk as (cols & Hf & Hl & Hcols); [|apply Nat.mod_upper_bound; lia].
    exists (o :: cols). split; [|split].
    + rewrite Hf, fills_app.
      change (fills (SetFillColor o :: ps ++ SetFillColor "white" :: hs))
        with (o :: fills (ps ++ SetFillColor "white" :: hs)).
      rewrite fills_app.
      change (fills (SetFillColor "white" :: hs)) with ("white" :: fills hs).
      rewrite (fills_paths _ _ Hps), (fills_paths _ _ Hhs).
      cbn. by rewrite <- app_assoc.
    + cbn. by rewrite Hl.
    + intros [|j] c; cbn [lookup list_lookup].
      * intros [= <-]. rewrite Nat.add_0_r, Nat.mod_small by done. done.
      * intros Hj. apply Hcols in Hj. rewrite <- Hj. f_equal.
        rewrite Nat.Div0.add_mod_idemp_l. f_equal. lia.
Qed.

(** X20: the fill colours of [writePDF]: polygon [i] of the list is
    painted in the colour at [i mod len] of [fill_color], or of red,
    green, blue and yellow when [fill_color] is not given or empty, and
    after it its holes in white; nothing else sets a fill colour. *)
Theorem writePDF_fill_colors ofile polylist pagesize linewidth fill_color w can w' :
  writePDF ofile polylist pagesize linewidth fill_color w = (Ok can, w') ->
  let colors := seq_or fill_color ["red"; "green"; "blue"; "yellow"] in
  exists cols,
    fills can = flat_map (fun c => [c; "white"]) cols /\
    length cols = length polylist /\
    (forall i c, cols !! i = Some c -> colors !! (i mod length colors) = Some c).
Proof.
  unfold writePDF. intros (lay & w1 & Hl & Hrest)%bind_Ok_inv. cbv zeta.
  do 5 apply bind_Ok_inv in Hrest as (? & ? & _ & Hrest).
  apply bind_Ok_inv in Hrest as ([ring can1] & w2 & Hp & Hrest).
  injection Hrest as <- _.
  set (colors := seq_or fill_color ["red"; "green"; "blue"; "yellow"]) in *.
  assert (Hlen : 0 < length colors).
  { unfold colors, seq_or. destruct fill_color as [[|a l]|];
      cbn [truthy_seq default from_option id length]; lia. }
  apply (pdf_polygons_fills colors) in Hp as (cols & Hf & Hn & Hcols); [|done].
  exists cols. split; [|split].
  - rewrite fills_app, Hf. cbn. by rewrite app_nil_r.
  - rewrite Hn. by apply layout_lengths in Hl as [? _].
  - intros i c Hi. by apply Hcols in Hi.
Qed.

End PdfFacts.

(** ** The XML reader *)

Section ReaderFacts.
Context `{Runtime}.

(** Induction on a node with the property known of the children. *)
Lemma node_induction (P : node -> Prop) :
  (forall t attrs cs, Forall P cs -> P (Element t attrs cs)) ->
  (forall data, P (Text data)) -> (forall data, P (Comment data)) ->
  (forall data, P (ProcessingInstruction data)) ->
  forall n, P n.
Proof.
  intros He Ht Hc Hp. fix IH 1. intros [t attrs cs|data|data|data]; [|done..].
  apply He. induction cs as [|c cs IHcs]; constructor; [apply IH|apply IHcs].
Qed.

Lemma strip_element t attrs cs : strip_node (Element t attrs cs) = Element t attrs (strip_nodes cs).
Proof.
  cbn [strip_node]. f_equal. unfold strip_nodes.
  induction cs as [|c cs IH]; [done|]. cbn [List.filter].
  destruct (is_element c); cbn [map]; by rewrite IH.
Qed.

Lemma strip_facts n :
  is_element (strip_node n) = is_element n /\ tagName_of (strip_node n) = tagName_of n /\
  (forall name, getAttribute (strip_node n) name = getAttribute n name) /\
  childNodes_of (strip_node n) = strip_nodes (childNodes_of n).
Proof. destruct n; [rewrite strip_element|..]; done. Qed.

Lemma read_points_significant pons : forall polist,
  read_points (strip_nodes pons) polist = read_points pons polist.
Proof.
  induction pons as [|pon pons IH]; intros polist; [done|].
  unfold strip_nodes in *. cbn [List.filter read_points].
  destruct (is_element pon) eqn:Hel; cbn [negb map read_points]; [|apply IH].
  destruct (strip_facts pon) as (-> & _ & Ha & _). rewrite Hel, !Ha. cbn [negb].
  destruct (py_float (getAttribute pon "x")); cbn [of_option mbind result_bind]; [|done].
  destruct (py_float (getAttribute pon "y")); cbn [of_option mbind result_bind]; [|done].
  apply IH.
Qed.

Lemma read_contours_significant sns : forall p,
  read_contours (strip_nodes sns) p = read_contours sns p.
Proof.
  induction sns as [|sn sns IH]; intros p; [done|].
  unfold strip_nodes in *. cbn [List.filter read_contours].
  destruct (is_element sn) eqn:Hel; cbn [negb map read_contours]; [|apply IH].
  destruct (strip_facts sn) as (-> & -> & Ha & ->). rewrite Hel, !Ha. cbn [negb].
  destruct (bool_decide (tagName_of sn = "contour")); cbn [negb]; [|done].
  rewrite read_points_significant.
  destruct (read_points (childNodes_of sn) []); cbn [mbind result_bind]; [|done].
  destruct (py_int (getAttribute sn "points")); cbn [of_option mbind result_bind]; [|done].
  destruct (negb _); [done|].
  destruct (py_int (getAttribute sn "isHole")); cbn [of_option mbind result_bind]; [|done].
  apply IH.
Qed.

Lemma read_polygon_strip pn : read_polygon (strip_node pn) = read_polygon pn.
Proof.
  unfold read_polygon. destruct (strip_facts pn) as (_ & _ & Ha & ->).
  by rewrite read_contours_significant, Ha.
Qed.

Lemma elements_by_tag_strip name n :
  is_element n = true ->
  elements_by_tag name (strip_node n) = map strip_node (elements_by_tag name n).
Proof.
  induction n as [t attrs cs IH| | |] using node_induction; [|done..]. intros _.
  rewrite strip_element. cbn [elements_by_tag]. rewrite map_app. f_equal.
  - destruct (bool_decide (t = name)); [|done]. cbn [map]. by rewrite strip_element.
  - unfold strip_nodes. induction IH as [|c cs Hc _ IHcs]; [done|].
    cbn [List.filter flat_map]. rewrite map_app, <- IHcs.
    destruct (is_element c) eqn:Hel; cbn [map flat_map]; [by rewrite Hc|].
    by destruct c.
Qed.

Lemma getElementsByTagName_significant d name :
  getElementsByTagName (strip_nodes d) name = map strip_node (getElementsByTagName d name).
Proof.
  unfold getElementsByTagName, strip_nodes.
  induction d as [|n d IH]; [done|]. cbn [List.filter flat_map]. rewrite map_app, <- IH.
  destruct (is_element n) eqn:Hel; cbn [map flat_map]; [by rewrite elements_by_tag_strip|].
  by destruct n.
Qed.

(** X21: what [readXML] makes of a document does not depend on the
    nodes that are no elements: the same document without its text
    nodes, comments and processing instructions, at every depth, gives
    the same polygons or the same error. *)
Theorem read_document_stripped d :
  read_document (strip_nodes d) = read_document d.
Proof.
  unfold read_document. rewrite getElementsByTagName_significant.
  induction (getElementsByTagName d "polygon") as [|pn pns IH]; [done|].
  cbn [map mapR]. by rewrite read_polygon_strip, IH.
Qed.

(** X22: the attributes the reader converts are mandatory, [int('')]
    and [float('')] being errors: an element read as a point without [x]
    or [y], and a contour without [points], end the read with
    [ValueError]; a contour without [isHole] and a polygon without
    [contours] are not accepted. *)
Theorem readXML_mandatory_attributes :
  py_int "" = None -> py_float "" = None ->
  (forall pon pons polist,
     is_element pon = true ->
     getAttribute pon "x" = "" \/ getAttribute pon "y" = "" ->
     read_points (pon :: pons) polist = Err ValueError) /\
  (forall sn sns p,
     is_element sn = true -> tagName_of sn = "contour" ->
     (getAttribute sn "points" = "" -> read_contours (sn :: sns) p = Err ValueError) /\
     (getAttribute sn "isHole" = "" -> is_ok (read_contours (sn :: sns) p) = false)) /\
  (forall pn, getAttribute pn "contours" = "" -> is_ok (read_polygon pn) = false).
Proof.
  intros Hint Hfloat. split; [|split].
  - intros pon pons polist Hel Hxy. cbn [read_points]. rewrite Hel. cbn [negb].
    destruct Hxy as [-> | ->]; rewrite Hfloat; [done|].
    by destruct (py_float (getAttribute pon "x")).
  - intros sn sns p Hel Htag. cbn [read_contours]. rewrite Hel, Htag. cbn [negb].
    rewrite bool_decide_eq_true_2 by done. cbn [negb].
    pose proof (read_points_spec (childNodes_of sn) []) as Hpts.
    destruct (read_points (childNodes_of sn) []) as [polist|e]; cbn [mbind result_bind].
    + split; intros ->; [by rewrite Hint|].
      destruct (py_int (getAttribute sn "points")); cbn [of_option mbind result_bind];
        [|done].
      destruct (negb _); [done|]. by rewrite Hint.
    + destruct Hpts as [-> _]. done.
  - intros pn Hc. unfold read_polygon.
    destruct (read_contours (childNodes_of pn) new_polygon); cbn [mbind result_bind];
      [|done].
    by rewrite Hc, Hint.
Qed.

End ReaderFacts.

(** ** [writeXML] read back *)

Section RoundTrip.
Context `{Engine} `{Runtime}.

Lemma mapR_length {X Y} (g : X -> result Y) xs ys :
  mapR g xs = Ok ys -> length ys = length xs.
Proof.
  revert ys. induction xs as [|x xs IH]; intros ys; cbn [mapR]; [by intros [= <-]|].
  destruct (g x) as [y|]; cbn [mbind result_bind]; [|done].
  destruct (mapR g xs) as [ys'|]; cbn [mbind result_bind]; [|done].
  intros [= <-]. cbn. f_equal. by apply IH.
Qed.

Lemma read_point_dom s po rest polist :
  read_points (Text s :: dom_point po :: rest) polist
  = (xy ← reread_point po; read_points rest (polist ++ [xy])).
Proof.
  unfold reread_point, dom_point. cbn [read_points is_element negb].
  change (getAttribute (Element "p" [("x", fmt_g po.1); ("y", fmt_g po.2)] []) "x")
    with (fmt_g po.1).
  change (getAttribute (Element "p" [("x", fmt_g po.1); ("y", fmt_g po.2)] []) "y")
    with (fmt_g po.2).
  destruct (py_float (fmt_g po.1)) as [x|]; cbn [of_option mbind result_bind]; [|done].
  by destruct (py_float (fmt_g po.2)) as [y|].
Qed.

Lemma read_points_dom s s' pts : forall polist,
  read_points (flat_map (fun po => [Text s; dom_point po]) pts ++ [Text s']) polist
  = (r ← mapR reread_point pts; Ok (polist ++ r)).
Proof.
  induction pts as [|po pts IH]; intros polist.
  - cbn. by rewrite app_nil_r.
  - cbn [flat_map app mapR]. rewrite read_point_dom.
    destruct (reread_point po) as [xy|]; cbn [mbind result_bind]; [|done].
    rewrite IH. destruct (mapR reread_point pts); cbn [mbind result_bind]; [|done].
    by rewrite <- app_assoc.
Qed.

Lemma read_contour_dom p i c s rest acc :
  py_int (fmt_int (Z.of_nat (length (points c)))) = Some (Z.of_nat (length (points c))) ->
  py_int (fmt_int (if hole c then 1 else 0)) = Some (if hole c then 1 else 0)%Z ->
  read_contours (Text s :: dom_contour p i c :: rest) acc
  = (pts ← mapR reread_point (points c);
     read_contours rest (acc ++ [mkContour pts (hole c)])).
Proof.
  intros Hp Hh. cbn [read_contours is_element negb].
  change (is_element (dom_contour p i c)) with true.
  change (tagName_of (dom_contour p i c)) with "contour".
  rewrite bool_decide_eq_true_2 by done. cbn [negb].
  change (childNodes_of (dom_contour p i c))
    with (flat_map (fun po => [Text (nl +:+ "    "); dom_point po]) (points c)
          ++ [Text (nl +:+ "  ")]).
  rewrite read_points_dom.
  destruct (mapR reread_point (points c)) as [pts|] eqn:Hpts; cbn [mbind result_bind];
    [|done].
  change (getAttribute (dom_contour p i c) "points")
    with (fmt_int (Z.of_nat (length (points c)))).
  change (getAttribute (dom_contour p i c) "isHole")
    with (fmt_int (if hole c then 1 else 0)).
  rewrite Hp, Hh. cbn [of_option mbind result_bind app].
  rewrite (mapR_length _ _ _ Hpts), Z.eqb_refl. cbn [negb]. unfold addContour.
  by replace (negb ((if hole c then 1 else 0) =? 0)%Z) with (hole c)
    by (by destruct (hole c)).
Qed.

Lemma read_contours_dom p s s' (ics : list (nat * Contour float)) : forall acc,
  Forall (fun ic => py_int (fmt_int (Z.of_nat (length (points ic.2))))
                    = Some (Z.of_nat (length (points ic.2))) /\
                    py_int (fmt_int (if hole ic.2 then 1 else 0))
                    = Some (if hole ic.2 then 1 else 0)%Z) ics ->
  read_contours (flat_map (fun ic => [Text s; dom_contour p ic.1 ic.2]) ics ++ [Text s']) acc
  = (r ← mapR (fun c => pts ← mapR reread_point (points c); Ok (mkContour pts (hole c)))
               (map snd ics);
     Ok (acc ++ r)).
Proof.
  induction ics as [|[i c] ics IH]; intros acc Hn.
  - cbn. by rewrite app_nil_r.
  - inversion_clear Hn as [|? ? [Hp Hh] Hn']. cbn [fst snd] in *.
    cbn [flat_map app map mapR fst snd]. rewrite read_contour_dom by done.
    destruct (mapR reread_point (points c)) as [pts|]; cbn [mbind result_bind]; [|done].
    rewrite IH by done.
    destruct (mapR _ (map snd ics)); cbn [mbind result_bind]; [|done].
    by rewrite <- app_assoc.
Qed.

Lemma read_polygon_dom p :
  Forall (fun n => py_int (fmt_int n) = Some n) (written_counts p) ->
  read_polygon (dom_polygon p) = reread p.
Proof.
  intros Hn. inversion_clear Hn as [|? ? Hlen Hcs]. unfold read_polygon.
  change (childNodes_of (dom_polygon p))
    with (flat_map (fun ic => [Text (nl +:+ "  "); dom_contour p ic.1 ic.2])
                   (imap (fun i c => (i, c)) p) ++ [Text nl]).
  assert (Hsnd : map snd (imap (fun i c => (i, c)) p) = p).
  { apply list_eq. intros i. rewrite list_lookup_fmap, list_lookup_imap.
    unfold Polygon in *. by destruct (p !! i). }
  rewrite read_contours_dom.
  - rewrite Hsnd. fold (reread p). cbn [new_polygon app].
    destruct (reread p) as [q|] eqn:Hq; cbn [mbind result_bind]; [|done].
    change (getAttribute (dom_polygon p) "contours") with (fmt_int (Z.of_nat (length p))).
    rewrite Hlen. cbn [of_option mbind result_bind].
    unfold reread in Hq. rewrite (mapR_length _ _ _ Hq), Z.eqb_refl. done.
  - apply Forall_lookup. intros j [i c]. rewrite list_lookup_imap. unfold Polygon in *.
    destruct (p !! j) as [c'|] eqn:Hc; cbn; [|done]. intros [= <- <-].
    apply list_elem_of_lookup_2, list_elem_of_In in Hc.
    rewrite Forall_forall in Hcs.
    split; apply Hcs, list_elem_of_In, in_flat_map; exists c';
      (split; [done|]); [by left|right; by left].
Qed.

Lemma elements_by_tag_dom p : elements_by_tag "polygon" (dom_polygon p) = [dom_polygon p].
Proof.
  assert (Hpts : forall s s' pts,
             flat_map (elements_by_tag "polygon")
                      (flat_map (fun po => [Text s; dom_point po]) pts ++ [Text s']) = []).
  { intros s s' pts. induction pts as [|po pts IH]; [done|]. cbn in *. by rewrite IH. }
  assert (Hcs : forall s s' (ics : list (nat * Contour float)),
             flat_map (elements_by_tag "polygon")
                      (flat_map (fun ic => [Text s; dom_contour p ic.1 ic.2]) ics
                       ++ [Text s']) = []).
  { intros s s' ics. induction ics as [|[i c] ics IH]; [done|].
    cbn [flat_map app]. rewrite IH. cbn [elements_by_tag dom_contour app].
    rewrite bool_decide_eq_false_2 by done. cbn [app]. rewrite Hpts. done. }
  unfold dom_polygon at 1. cbn [elements_by_tag]. rewrite bool_decide_eq_true_2 by done.
  by rewrite Hcs.
Qed.

Lemma string_concat_cons a (l : list string) :
  String.concat "" (a :: l) = a +:+ String.concat "" l.
Proof. change (a :: l) with ([a] ++ l). by rewrite string_concat_app. Qed.

Lemma concat_lines x ls : String.concat nl (x :: ls) = x +:+ lines_after ls.
Proof.
  revert x. induction ls as [|y ls IH]; intros x.
  - cbn. by rewrite string_app_nil_r.
  - change (String.concat nl (x :: y :: ls)) with (x +:+ nl +:+ String.concat nl (y :: ls)).
    rewrite IH. unfold lines_after. cbn [map]. rewrite string_concat_cons.
    by rewrite !string_app_assoc.
Qed.

Lemma lines_after_app a b : lines_after (a ++ b) = lines_after a +:+ lines_after b.
Proof. unfold lines_after. by rewrite map_app, string_concat_app. Qed.

Lemma lines_after_cons a b : lines_after (a :: b) = nl +:+ a +:+ lines_after b.
Proof.
  unfold lines_after. cbn [map]. by rewrite string_concat_cons, string_app_assoc.
Qed.

Lemma node_xml_children t attrs cs c :
  Demo.node_xml (Element t attrs (cs ++ [c]))
  = "<" +:+ t +:+ String.concat "" (map (fun kv => " " +:+ attr kv.1 kv.2) attrs) +:+ ">"
    +:+ String.concat "" (map Demo.node_xml (cs ++ [c])) +:+ "</" +:+ t +:+ ">".
Proof. by destruct cs. Qed.

Lemma point_text po :
  nl +:+ "    <p " +:+ attr "x" (fmt_g po.1) +:+ " " +:+ attr "y" (fmt_g po.2) +:+ "/>"
  = (nl +:+ "    ") +:+ Demo.node_xml (dom_point po).
Proof.
  unfold dom_point, attr. cbn [Demo.node_xml map String.concat fst snd].
  unfold attr. repeat rewrite string_app_assoc. reflexivity.
Qed.

Lemma points_text pts :
  lines_after (map (fun po => "    <p " +:+ attr "x" (fmt_g po.1) +:+ " " +:+
                              attr "y" (fmt_g po.2) +:+ "/>") pts)
  = String.concat "" (map Demo.node_xml
                          (flat_map (fun po => [Text (nl +:+ "    "); dom_point po]) pts)).
Proof.
  induction pts as [|po pts IH]; [done|].
  cbn [map flat_map app]. rewrite lines_after_cons, !string_concat_cons, <- IH.
  rewrite <- string_app_assoc. rewrite <- !string_app_assoc.
  f_equal. rewrite !string_app_assoc. rewrite point_text.
  cbn [Demo.node_xml]. by rewrite !string_app_assoc.
Qed.

Lemma children_text cs s :
  String.concat "" (map Demo.node_xml (cs ++ [Text s]))
  = String.concat "" (map Demo.node_xml cs) +:+ s.
Proof. by rewrite map_app, string_concat_app. Qed.

Lemma contour_text (p : Polygon float) i c l :
  p !! i = Some c -> xml_contour p i c = Ok l ->
  lines_after l = (nl +:+ "  ") +:+ Demo.node_xml (dom_contour p i c).
Proof.
  intros Hc. unfold xml_contour, isHole, index. unfold Polygon in *. rewrite Hc.
  cbn [mbind result_bind]. intros [= <-].
  unfold dom_contour. rewrite node_xml_children, children_text, <- points_text.
  cbn [app]. rewrite lines_after_cons, lines_after_app, lines_after_cons.
  unfold bbox_attributes, xml_bbox, attr. cbn [app map String.concat fst snd lines_after].
  unfold attr. repeat rewrite string_app_assoc. reflexivity.
Qed.

Lemma contours_text (p : Polygon float) (ics : list (nat * Contour float)) : forall cs,
  Forall (fun ic => p !! ic.1 = Some ic.2) ics ->
  mapR (fun ic => xml_contour p ic.1 ic.2) ics = Ok cs ->
  lines_after (concat cs)
  = String.concat "" (map Demo.node_xml
                          (flat_map (fun ic => [Text (nl +:+ "  "); dom_contour p ic.1 ic.2])
                                    ics)).
Proof.
  induction ics as [|[i c] ics IH]; intros cs Hp; cbn [mapR]; [by intros [= <-]|].
  inversion_clear Hp as [|? ? Hc Hp']. cbn [fst snd] in *.
  destruct (xml_contour p i c) as [l|] eqn:Hl; cbn [mbind result_bind]; [|done].
  destruct (mapR _ ics) as [cs'|] eqn:Hcs; cbn [mbind result_bind]; [|done].
  intros [= <-]. cbn [concat flat_map app map fst snd].
  rewrite lines_after_app, (contour_text _ _ _ _ Hc Hl), (IH cs' Hp' eq_refl).
  rewrite !string_concat_cons. cbn [Demo.node_xml]. by rewrite !string_app_assoc.
Qed.

Lemma polygon_text (p : Polygon float) l :
  xml_polygon p = Ok l -> String.concat nl l = Demo.node_xml (dom_polygon p) +:+ nl.
Proof.
  unfold xml_polygon.
  destruct (mapR _ (imap (fun i c => (i, c)) p)) as [cs|] eqn:Hcs; cbn [mbind result_bind];
    [|done].
  intros [= <-]. cbn [app]. rewrite concat_lines, lines_after_app.
  rewrite (contours_text p (imap (fun i c => (i, c)) p) cs); [|clear|exact Hcs].
  - unfold dom_polygon. rewrite node_xml_children, children_text.
    unfold bbox_attributes, xml_bbox, attr.
    cbn [app map String.concat fst snd lines_after].
    unfold attr. repeat rewrite string_app_assoc. reflexivity.
  - apply Forall_lookup. intros j [i c]. rewrite list_lookup_imap. unfold Polygon in *.
    destruct (p !! j) as [c'|] eqn:Hc; cbn; [|done]. by intros [= <- <-].
Qed.

Lemma read_document_dom (p : Polygon float) :
  Forall (fun n => py_int (fmt_int n) = Some n) (written_counts p) ->
  read_document [dom_polygon p] = (q ← reread p; Ok [q]).
Proof.
  intros Hn. unfold read_document, getElementsByTagName. cbn [flat_map].
  rewrite elements_by_tag_dom. cbn [app mapR].
  rewrite read_polygon_dom by done. by destruct (reread p).
Qed.

(** X23: a polygon written by [writeXML] and read back.  The lines
    written are the text of an element tree, one [contour] element for
    each contour and one [p] element for each point, with the line
    breaks as text nodes; from that tree the reader makes the polygon
    again, contour by contour with its hole flag, each coordinate
    written with ['%g'] and converted by [float()], provided [int()]
    reads back the counts ['%d'] wrote. *)
Theorem xml_roundtrip (p : Polygon float) :
  Forall (fun n => py_int (fmt_int n) = Some n) (written_counts p) ->
  (exists l, xml_polygon p = Ok l /\
             String.concat nl l = Demo.node_xml (dom_polygon p) +:+ nl) /\
  read_document [dom_polygon p] = (q ← reread p; Ok [q]).
Proof.
  intros Hn. split.
  - destruct (xml_polygon_total p) as [l Hl]. exists l. split; [done|].
    by apply polygon_text.
  - by apply read_document_dom.
Qed.

(** X24: [writeXML] and [readXML] composed.  [writeXML(None, [p])]
    returns a new stream whose text is the text of the element tree of
    [p] and a line break; if that text names no file and the parser
    reads it as that tree, [readXML] of the text returns one polygon, [p]
    with its coordinates passed through ['%g'] and [float()]. *)
Theorem writeXML_then_readXML h (v : Polygon float) w :
  polys w !! h = Some v ->
  Forall (fun n => py_int (fmt_int n) = Some n) (written_counts v) ->
  exists text w1,
    writeXML PyNone [h] false w = (Ok (length (streams w)), w1) /\
    streams w1 !! length (streams w) = Some (mkStream text 0) /\
    text = Demo.node_xml (dom_polygon v) +:+ nl /\
    (forall w2, files w2 !! text = None -> parseString text = Some [dom_polygon v] ->
       (readXML (PyStr text) w2).1 = (q ← reread v; Ok [q])).
Proof.
  intros Hv Hn. destruct (xml_polygon_total v) as [l Hl].
  assert (Ht : xml_texts w [h] = Ok [[String.concat nl l]]).
  { unfold xml_texts. cbn [mapR]. unfold Polygon in *. rewrite Hv.
    cbn [of_option mbind result_bind]. by rewrite Hl. }
  pose proof (xml_body_puts (length (streams w)) w [h] _ (made_open w) eq_refl) as Hb.
  rewrite Ht in Hb.
  destruct (made_release w (concat [[String.concat nl l]]) false) as (w1 & Hw1 & Hs & _).
  exists (String.concat nl l), w1. split; [|split; [|split]].
  - unfold writeXML. rewrite (bind_resolved _ _ _ _ _ (resolve_made PyNone w false eq_refl)).
    unfold bindM at 1. cbn [retM]. by rewrite (bind_resolved _ _ _ _ _ Hb).
  - rewrite Hs. by rewrite lookup_app_r, Nat.sub_diag.
  - by apply polygon_text.
  - intros w2 Hfile Hparse. rewrite <- (read_document_dom v Hn).
    apply readXML_parsed.
    exists (length (streams w2)), true,
           (with_streams w2 (streams w2 ++ [mkStream (String.concat nl l) 0])),
           (String.concat nl l).
    split; [|split; [|done]].
    + unfold getReadableObject, open_r. by rewrite Hfile.
    + unfold read. cbn [streams with_streams]. by rewrite lookup_app_r, Nat.sub_diag.
Qed.

End RoundTrip.

(** ** The document of [writeSVG] *)

Lemma quiet_ret {A} (a : A) : quiet (retM a).
Proof. by intros w a' w' [= _ <-]. Qed.

Lemma quiet_lift {A} (r : result A) : quiet (lift r).
Proof. by intros w a' w' [= _ <-]. Qed.

Lemma quiet_bind {A B} (m : M A) (k : A -> M B) :
  quiet m -> (forall a, quiet (k a)) -> quiet (bindM m k).
Proof.
  intros Hm Hk w b w' (a & w1 & Ha & Hb)%bind_Ok_inv.
  rewrite (Hk _ _ _ _ Hb). by eapply Hm.
Qed.

Lemma quiet_get p : quiet (get p).
Proof. intros w a w'. unfold get. destruct (polys w !! p); [|done]. by intros [= _ <-]. Qed.

Lemma quiet_clone p : quiet (clone p).
Proof. intros w a w'. unfold clone. destruct (polys w !! p); [|done]. by intros [= _ <-]. Qed.

Lemma quiet_mutate p g : quiet (mutate p g).
Proof. intros w a w'. unfold mutate. destruct (polys w !! p); [|done]. by intros [= _ <-]. Qed.

Lemma quiet_mapM {A B} (g : A -> M B) xs : (forall x, quiet (g x)) -> quiet (mapM g xs).
Proof.
  intros Hg. induction xs as [|x xs IH]; cbn [mapM]; [apply quiet_ret|].
  apply quiet_bind; [apply Hg|]. intros y. apply quiet_bind; [apply IH|].
  intros ys. apply quiet_ret.
Qed.

Lemma quiet_forM {A} (g : A -> M unit) xs : (forall x, quiet (g x)) -> quiet (forM xs g).
Proof.
  intros Hg. induction xs as [|x xs IH]; cbn [forM]; [apply quiet_ret|].
  apply quiet_bind; [apply Hg|]. intros _. apply IH.
Qed.

Section SvgDocument.
Context `{Engine} `{Runtime}.

Lemma quiet_layout flip polylist : quiet (layout flip polylist).
Proof.
  unfold layout. apply quiet_bind; [apply quiet_mapM; intros; apply quiet_clone|].
  intros pp. apply quiet_bind.
  { destruct flip; [apply quiet_forM; intros; apply quiet_mutate|apply quiet_ret]. }
  intros _. apply quiet_bind.
  { apply quiet_mapM. intros p. apply quiet_bind; [apply quiet_get|].
    intros; apply quiet_ret. }
  intros bbs. repeat (apply quiet_bind; [apply quiet_lift|]; intros ?). apply quiet_ret.
Qed.

Lemma quiet_warp lay width height i : quiet (warp lay width height i).
Proof.
  unfold warp. repeat (apply quiet_bind; [apply quiet_lift|]; intros ?).
  apply quiet_bind; [apply quiet_mutate|]. intros; apply quiet_ret.
Qed.

(** One turn of the loop over the polygons when no label is in use. *)
Lemma svg_polygon_path lay width height lab lc rings s i w st' w' :
  truthy_seq (labels_used lab) = false ->
  svg_polygon lay width height lab lc (rings, s) i w = (Ok st', w') ->
  streams w' = streams w /\
  exists c r1 o r2 sc r3 sw r4 d,
    RingBuffer.__call__ (fill_color rings) = Ok (c, r1) /\
    RingBuffer.__call__ (fill_opacity rings) = Ok (o, r2) /\
    RingBuffer.__call__ (stroke_color rings) = Ok (sc, r3) /\
    RingBuffer.__call__ (stroke_width rings) = Ok (sw, r4) /\
    st' = (mkCyclers r1 r2 r3 r4, s ++ [svg_path c o sc sw d]).
Proof.
  intros Hlab. unfold svg_polygon. rewrite Hlab. cbn [fst snd].
  intros (p & w1 & Hwarp & Hrest)%bind_Ok_inv.
  apply bind_Ok_inv in Hrest as ([c r1] & ? & [= Hc <-] & Hrest).
  apply bind_Ok_inv in Hrest as ([o r2] & ? & [= Ho <-] & Hrest).
  apply bind_Ok_inv in Hrest as ([sc r3] & ? & [= Hsc <-] & Hrest).
  apply bind_Ok_inv in Hrest as ([sw r4] & ? & [= Hsw <-] & Hrest).
  apply bind_Ok_inv in Hrest as (v & ? & Hget & Hrest).
  apply bind_Ok_inv in Hrest as (d & ? & [= _ <-] & Hrest).
  injection Hrest as <- <-.
  split.
  - rewrite (quiet_get _ _ _ _ Hget). by eapply quiet_warp.
  - by exists c, r1, o, r2, sc, r3, sw, r4, d.
Qed.

Lemma cycler_call {A} (seq : list A) k :
  seq <> [] ->
  exists o, cycled seq k = Some o /\
    RingBuffer.__call__ (RingBuffer.mk seq (k mod length seq) (length seq))
    = Ok (o, RingBuffer.mk seq (S k mod length seq) (length seq)).
Proof.
  intros Hne. assert (0 < length seq) by (destruct seq; [done|cbn; lia]).
  destruct (call_in_range seq (k mod length seq)) as (o & Ho & Hc);
    [apply Nat.mod_upper_bound; lia|].
  exists o. split; [done|]. rewrite Hc. do 3 f_equal.
  rewrite Nat.Div0.add_mod_idemp_l. f_equal. lia.
Qed.

Lemma svg_polygons_paths lay width height lab lc (fcs fos scs sws : list string) n :
  truthy_seq (labels_used lab) = false ->
  fcs <> [] -> fos <> [] -> scs <> [] -> sws <> [] ->
  forall k s w rings' s' w',
    svg_polygons lay width height lab lc
      (mkCyclers (RingBuffer.mk fcs (k mod length fcs) (length fcs))
                 (RingBuffer.mk fos (k mod length fos) (length fos))
                 (RingBuffer.mk scs (k mod length scs) (length scs))
                 (RingBuffer.mk sws (k mod length sws) (length sws)), s)
      (seq k n) w = (Ok (rings', s'), w') ->
    streams w' = streams w /\
    exists paths,
      s' = s ++ paths /\ length paths = n /\
      forall i line, paths !! i = Some line ->
        exists c o sc sw d,
          cycled fcs (k + i) = Some c /\ cycled fos (k + i) = Some o /\
          cycled scs (k + i) = Some sc /\ cycled sws (k + i) = Some sw /\
          line = svg_path c o sc sw d.
Proof.
  intros Hlab Hfc Hfo Hsc Hsw. induction n as [|n IH]; intros k s w rings' s' w'.
  - cbn [seq svg_polygons]. intros [= <- <- <-]. split; [done|].
    exists []. by rewrite app_nil_r.
  - cbn [seq svg_polygons]. intros (st1 & w1 & Hp & Hrest)%bind_Ok_inv.
    apply (svg_polygon_path _ _ _ _ _ _ _ _ _ _ _ Hlab) in Hp
      as (Hs1 & c & r1 & o & r2 & sc & r3 & sw & r4 & d & Hc & Ho & Hsc' & Hsw' & ->).
    cbn [fill_color fill_opacity stroke_color stroke_width] in *.
    destruct (cycler_call fcs k Hfc) as (c' & Hcc & Hcall1). rewrite Hcall1 in Hc.
    destruct (cycler_call fos k Hfo) as (o' & Hco & Hcall2). rewrite Hcall2 in Ho.
    destruct (cycler_call scs k Hsc) as (sc'' & Hcs & Hcall3). rewrite Hcall3 in Hsc'.
    destruct (cycler_call sws k Hsw) as (sw'' & Hcw & Hcall4). rewrite Hcall4 in Hsw'.
    injection Hc as <- <-. injection Ho as <- <-.
    injection Hsc' as <- <-. injection Hsw' as <- <-.
    apply IH in Hrest as (Hs2 & paths & -> & Hl & Hpaths).
    split; [congruence|].
    exists (svg_path c' o' sc'' sw'' d :: paths). split; [by rewrite <- app_assoc|].
    split; [cbn; by rewrite Hl|].
    intros [|i] line; cbn [lookup list_lookup].
    + intros [= <-]. rewrite Nat.add_0_r. by exists c', o', sc'', sw'', d.
    + intros Hi. apply Hpaths in Hi. by rewrite <- Nat.add_succ_comm.
Qed.

Lemma svg_head_length width height head :
  svg_head width height = Ok head -> length head = 3.
Proof.
  unfold svg_head.
  destruct (num width) as [w|]; cbn [mbind result_bind]; [|done].
  destruct (of_option FormatError (fmt_d w)) as [wd|]; cbn [mbind result_bind]; [|done].
  destruct (num height) as [h|]; cbn [mbind result_bind]; [|done].
  destruct (of_option FormatError (fmt_d h)) as [hd|]; cbn [mbind result_bind]; [|done].
  by intros [= <-].
Qed.

Lemma seq_or_nonempty {A} (x : option (list A)) fallback :
  fallback <> [] -> seq_or x fallback <> [].
Proof. unfold seq_or. by destruct x as [[|a l]|]. Qed.

(** X18: the document [writeSVG] writes when no label is in use, to a
    destination the resolver makes a stream for: the three lines of the
    head, one [<path>] for each polygon of the list, in order, and
    [</svg>].  The fill colour, fill opacity, stroke colour and stroke
    width of polygon [i] are the elements at [i mod len] of the sequences
    given, or of the defaults where a sequence is not given or empty;
    the stream has been closed if it was opened from a name. *)
Theorem writeSVG_styles ofile polylist width height fc fo sc sw labels lc lcen w cl h w' :
  makes_stream ofile w = Some cl ->
  truthy_seq labels = false ->
  writeSVG ofile polylist width height fc fo sc sw labels lc lcen w = (Ok h, w') ->
  exists head paths,
    streams w' = streams w ++ [mkStream (String.concat nl (head ++ paths ++ ["</svg>"]))
                                        (if cl then 1 else 0)] /\
    length head = 3 /\ length paths = length polylist /\
    forall i line, paths !! i = Some line ->
      exists c o s wd d,
        cycled (seq_or fc default_colors) i = Some c /\
        cycled (seq_or fo ["1.0"]) i = Some o /\
        cycled (seq_or sc ["(0, 0, 0)"]) i = Some s /\
        cycled (seq_or sw ["1.0"]) i = Some wd /\
        line = svg_path c o s wd d.
Proof.
  intros Hr%resolve_made Hlab. unfold writeSVG.
  intros (su & w2 & Hsu & Hrest)%bind_Ok_inv.
  unfold svg_setup in Hsu. rewrite (bind_resolved _ _ _ _ _ Hr) in Hsu.
  apply bind_Ok_inv in Hsu as (lay & w3 & Hlay & Hsu).
  apply bind_Ok_inv in Hsu as ([] & ? & [= _ <-] & Hsu).
  apply bind_Ok_inv in Hsu as (a & ? & [= _ <-] & Hsu).
  apply bind_Ok_inv in Hsu as ([wd ht] & ? & [= _ <-] & Hsu).
  injection Hsu as <- <-.
  pose proof (quiet_layout _ _ _ _ _ Hlay) as Hs3.
  destruct (layout_lengths _ _ _ _ _ Hlay) as (Hpp & _ & _).
  rewrite (bind_lift_ok _ _ _ _ (svg_labels_unused _ _ _ _ Hlab)) in Hrest.
  unfold svg_body in Hrest. cbn [su_lay su_f su_cl su_width su_height] in Hrest.
  apply bind_Ok_inv in Hrest as (head & ? & [= Hhead <-] & Hrest).
  apply bind_Ok_inv in Hrest as (wn & ? & [= _ <-] & Hrest).
  apply bind_Ok_inv in Hrest as (hn & ? & [= _ <-] & Hrest).
  apply bind_Ok_inv in Hrest as ([rings s] & w4 & Hpolys & Hrest).
  unfold RingBuffer.__init__ in Hpolys.
  pose proof (svg_polygons_paths lay wn hn (mkLabels labels "" "") lc
                (seq_or fc default_colors) (seq_or fo ["1.0"])
                (seq_or sc ["(0, 0, 0)"]) (seq_or sw ["1.0"]) (length (pp lay)) Hlab
                ltac:(by apply seq_or_nonempty) ltac:(by apply seq_or_nonempty)
                ltac:(by apply seq_or_nonempty) ltac:(by apply seq_or_nonempty)
                0 head w3 rings s w4) as Hp.
  rewrite !Nat.Div0.mod_0_l in Hp. apply Hp in Hpolys as (Hs4 & paths & -> & Hl & Hpaths).
  clear Hp. exists head, paths.
  assert (Hf : streams w4 !! length (streams w) = Some (mkStream "" 0)).
  { rewrite Hs4, Hs3. cbn [streams with_streams]. by rewrite lookup_app_r, Nat.sub_diag. }
  assert (Hopen : is_open (length (streams w)) w4) by (by eexists).
  rewrite (bind_resolved _ _ _ _ _ (write_put _ _ _ Hopen)) in Hrest.
  assert (Hput : streams (put (length (streams w))
                              (String.concat nl ((head ++ paths) ++ ["</svg>"])) w4)
                 = streams w ++ [mkStream (String.concat nl ((head ++ paths) ++ ["</svg>"]))
                                          0]).
  { rewrite (put_streams _ _ _ _ Hf), Hs4, Hs3. cbn [streams with_streams content closes].
    by rewrite insert_app_r_alt, Nat.sub_diag by done. }
  split; [|split; [|split]].
  - rewrite (app_assoc head paths). destruct cl.
    + apply bind_Ok_inv in Hrest as ([] & w5 & Hclose & [= _ <-]).
      unfold close in Hclose. rewrite Hput in Hclose.
      rewrite lookup_app_r, Nat.sub_diag in Hclose by done.
      cbn [lookup list_lookup] in Hclose. injection Hclose as <-.
      cbn [streams with_streams content closes].
      by rewrite insert_app_r_alt, Nat.sub_diag by done.
    + unfold bindM in Hrest. cbn [retM] in Hrest. by injection Hrest as _ <-.
  - by eapply svg_head_length.
  - by rewrite Hl.
  - intros i line Hi. by apply Hpaths in Hi.
Qed.

End SvgDocument.


(** ** The claims at concrete inputs *)

Section Instances.
Import Demo Examples.
Open Scope nat_scope.

(** The encoding of a square with a hole decodes to it. *)
Lemma decode_encode_roundtrip_witness :
  valid_polygon holed_bits /\
  exists bs, Codec.encodeBinary holed_bits = Ok bs /\ Codec.decodeBinary bs = Ok holed_bits.
Proof.
  assert (Hv : valid_polygon holed_bits).
  { split; [reflexivity|].
    repeat constructor; unfold is_double, one; cbn [length points fst snd]; lia. }
  split; [exact Hv|exact (decode_encode_roundtrip _ Hv)].
Defined.

(** The encoding of a three-point solid contour, cut short by one byte. *)
Lemma decode_truncated_witness :
  Codec.encodeBinary triangle_bits = Ok (take 55 triangle_bytes ++ drop 55 triangle_bytes) /\
  drop 55 triangle_bytes <> [] /\
  Codec.decodeBinary (take 55 triangle_bytes) = Err TruncatedInput.
Proof.
  assert (He : Codec.encodeBinary triangle_bits
               = Ok (take 55 triangle_bytes ++ drop 55 triangle_bytes))
    by (vm_compute; reflexivity).
  assert (Hk : drop 55 triangle_bytes <> []) by (vm_compute; discriminate).
  split; [exact He|]. split; [exact Hk|].
  exact (decode_truncated _ _ _ He Hk).
Defined.

(** Two bytes appended to an encoding. *)
Lemma decode_ignores_trailing_witness :
  Codec.encodeBinary triangle_bits = Ok triangle_bytes /\
  Codec.decodeBinary (triangle_bytes ++ [x00; xff]) = Codec.decodeBinary triangle_bytes /\
  is_ok (Codec.decodeBinary triangle_bytes) = true.
Proof.
  assert (He : Codec.encodeBinary triangle_bits = Ok triangle_bytes)
    by (vm_compute; reflexivity).
  split; [exact He|]. exact (decode_ignores_trailing _ _ [x00; xff] He).
Defined.

(** The fifth call of a cycler over three values. *)
Lemma ring_buffer_cycles_witness :
  ["A"; "B"; "C"] <> [] /\
  exists self o self',
    RingBuffer.after 4 (RingBuffer.__init__ ["A"; "B"; "C"]) = Ok self /\
    RingBuffer.__call__ self = Ok (o, self') /\
    ["A"; "B"; "C"] !! (4 mod 3) = Some o /\
    RingBuffer.s self = ["A"; "B"; "C"] /\ RingBuffer.s self' = ["A"; "B"; "C"].
Proof.
  assert (Hne : ["A"; "B"; "C"] <> ([] : list string)) by discriminate.
  split; [exact Hne|exact (ring_buffer_cycles _ 4 Hne)].
Defined.

(** [writeSVG('out.svg', [point])] opens the file, fails on the extent
    and leaves the file open. *)
Lemma owned_stream_left_open :
  ~ @closed_iff_owned demo_engine runtime
      (WriteSVG [0] None None None None None None None None false)
      (PyStr "out.svg") (world_of [point]).
Proof.
  intros Hc.
  assert (H0 := Hc 0 true (world_with_stream [point]) eq_refl).
  vm_compute in H0. discriminate.
Qed.

(** [writeXML('out.xml', [triangle], True)] returns with the file closed. *)
Lemma streams_scoped_witness :
  @resolve (WriteXML [0] true) (PyStr "out.xml") (world_of [triangle])
  = (Ok (0, true), world_with_stream [triangle]) /\
  closes_of (@run demo_engine runtime (WriteXML [0] true) (PyStr "out.xml")
                  (world_of [triangle])).2 0 = 1.
Proof.
  assert (Hr : @resolve (WriteXML [0] true) (PyStr "out.xml") (world_of [triangle])
               = (Ok (0, true), world_with_stream [triangle])) by reflexivity.
  split; [exact Hr|].
  destruct (@streams_scoped demo_engine runtime _ _ _ _ _ _ Hr) as [H1 _].
  destruct (H1 eq_refl) as [_ H2]. rewrite H2; [reflexivity|vm_compute; reflexivity].
Defined.

(** [writeGnuplotTriangles(f, [triangle])] closes the stream [f] of its
    caller. *)
Example writeGnuplotTriangles_closes_caller_stream :
  closes_of (@writeGnuplotTriangles demo_engine runtime (PyStream 0) [0]
               (world_with_stream [triangle])).2 0 = 1.
Proof. vm_compute. reflexivity. Qed.








End Instances.

(** ** The further properties at concrete inputs *)

Section FurtherInstances.
Import Demo Examples.
Open Scope nat_scope.


(** The encoding of the triangle followed by a byte. *)
Lemma decode_reads_an_encoding_witness :
  Codec.decodeBinary (triangle_bytes ++ [xff]) = Ok triangle_bits /\
  exists enc rest,
    Codec.encodeBinary triangle_bits = Ok enc /\ triangle_bytes ++ [xff] = enc ++ rest.
Proof.
  assert (Hd : Codec.decodeBinary (triangle_bytes ++ [xff]) = Ok triangle_bits)
    by (vm_compute; reflexivity).
  split; [exact Hd|exact (decode_reads_an_encoding _ _ Hd)].
Defined.

(** The triangle: 4 bytes, and 4 + 3 * 16 for its contour. *)
Lemma encodeBinary_length_witness :
  Codec.encodeBinary triangle_bits = Ok triangle_bytes /\ length triangle_bytes = 56.
Proof.
  assert (He : Codec.encodeBinary triangle_bits = Ok triangle_bytes)
    by (vm_compute; reflexivity).
  split; [exact He|exact (encodeBinary_length _ _ He)].
Defined.

(** Four values and three values. *)
Lemma couples_parity_witness :
  (exists r, Codec.__couples [1; 2; 3; 4]%Z = Ok r /\ Codec.__flatten r = [1; 2; 3; 4]%Z) /\
  Codec.__couples [1; 2; 3]%Z = Err IndexError.
Proof.
  split.
  - apply (proj1 (couples_parity [1; 2; 3; 4]%Z)). by exists 2.
  - apply (proj2 (couples_parity [1; 2; 3]%Z)). by exists 1.
Defined.

(** [fill_color=[]]: the tenth polygon gets the second default colour. *)
Lemma style_cycler_total_witness :
  default_colors <> [] /\
  exists self o self',
    RingBuffer.after 9 (RingBuffer.__init__ (seq_or (Some []) default_colors)) = Ok self /\
    RingBuffer.__call__ self = Ok (o, self') /\
    seq_or (Some []) default_colors !! (9 mod length (seq_or (Some []) default_colors))
    = Some o.
Proof.
  assert (Hne : default_colors <> []) by discriminate.
  split; [exact Hne|].
  exact (proj2 (proj2 (style_cycler_total (Some []) default_colors 9)) Hne).
Defined.

(** [writeGnuplot(None, [triangle])]. *)
Lemma writeGnuplot_text_witness :
  makes_stream PyNone (world_of [triangle]) = Some false /\
  exists w',
    @writeGnuplot runtime PyNone [0] (world_of [triangle]) = (Ok 0, w') /\
    streams w' = [mkStream (String.concat "" ["0 0" +:+ nl; "4 0" +:+ nl; "0 2" +:+ nl;
                                              "0 0" +:+ nl +:+ nl]) 0] /\
    polys w' = [triangle].
Proof.
  assert (Hm : makes_stream PyNone (world_of [triangle]) = Some false) by reflexivity.
  split; [exact Hm|].
  exact (@writeGnuplot_text runtime PyNone [0] (world_of [triangle]) false Hm).
Defined.

(** [writeXML('out.xml', [triangle], True)]. *)
Lemma writeXML_text_witness :
  makes_stream (PyStr "out.xml") (world_of [triangle]) = Some true /\
  Forall (fun p => p < length (polys (world_of [triangle]))) [0] /\
  exists tss w',
    @xml_texts demo_engine runtime (world_of [triangle]) [0] = Ok tss /\
    @writeXML demo_engine runtime (PyStr "out.xml") [0] true (world_of [triangle])
    = (Ok 0, w') /\
    streams w' = [mkStream (String.concat "" ([xml_header] ++ concat tss)) 1] /\
    polys w' = [triangle].
Proof.
  assert (Hm : makes_stream (PyStr "out.xml") (world_of [triangle]) = Some true)
    by reflexivity.
  assert (Hv : Forall (fun p => p < length (polys (world_of [triangle]))) [0]).
  { repeat constructor. }
  split; [exact Hm|]. split; [exact Hv|].
  exact (@writeXML_text demo_engine runtime (PyStr "out.xml") [0] true
           (world_of [triangle]) true Hm Hv).
Defined.

(** [writeGnuplotTriangles(f, [triangle])] on a stream of the caller. *)
Lemma writeGnuplotTriangles_closes_twice_witness :
  getWritableObject (PyStream 0) (world_with_stream [triangle])
  = (Ok (0, false), world_with_stream [triangle]) /\
  closes_of (@writeGnuplotTriangles demo_engine runtime (PyStream 0) [0]
               (world_with_stream [triangle])).2 0 = 1.
Proof.
  assert (Hr : getWritableObject (PyStream 0) (world_with_stream [triangle])
               = (Ok (0, false), world_with_stream [triangle])) by reflexivity.
  assert (Hok : is_ok (@writeGnuplotTriangles demo_engine runtime (PyStream 0) [0]
                         (world_with_stream [triangle])).1 = true)
    by (vm_compute; reflexivity).
  split; [exact Hr|].
  exact (@writeGnuplotTriangles_closes_twice demo_engine runtime _ _ _ _ _ _ Hr Hok).
Defined.

(** [writeXML(42, [triangle])]: nothing is written and nothing made. *)
Lemma unresolved_untouched_witness :
  @resolve (WriteXML [0] false) PyOther (world_of [triangle])
  = (Err UnsupportedDestination, world_of [triangle]) /\
  @run demo_engine runtime (WriteXML [0] false) PyOther (world_of [triangle])
  = (Err UnsupportedDestination, world_of [triangle]).
Proof.
  assert (Hr : @resolve (WriteXML [0] false) PyOther (world_of [triangle])
               = (Err UnsupportedDestination, world_of [triangle])) by reflexivity.
  split; [exact Hr|].
  exact (proj1 (@unresolved_untouched demo_engine runtime _ _ _ _ _ Hr)).
Defined.

(** No polygon at all, to a [StringIO]. *)
Lemma empty_polylist_witness :
  getWritableObject PyNone (world_of []) = (Ok (0, false), world_with_stream []) /\
  (@writeGnuplot runtime PyNone [] (world_of [])).1 = Ok 0 /\
  @writeSVG demo_engine runtime PyNone [] None None None None None None None None false
            (world_of [])
  = (Err IndexError, world_with_stream []).
Proof.
  assert (Hr : getWritableObject PyNone (world_of [])
               = (Ok (0, false), world_with_stream [])) by reflexivity.
  destruct (@empty_polylist demo_engine runtime _ _ _ _ _ Hr) as (Hg & _ & Hs & _).
  split; [exact Hr|]. split; [exact Hg|]. apply Hs.
Defined.

(** [width=0]. *)
Lemma writeSVG_zero_size_absent_witness :
  truthy_opt (Some 0%float) = false /\
  @writeSVG demo_engine runtime PyNone [0] (Some 0%float) None None None None None None None
            false (world_of [triangle])
  = @writeSVG demo_engine runtime PyNone [0] None None None None None None None None
              false (world_of [triangle]).
Proof.
  assert (Hz : truthy_opt (Some 0%float) = false) by reflexivity.
  split; [exact Hz|].
  exact (proj1 (@writeSVG_zero_size_absent demo_engine runtime PyNone [0] (Some 0%float)
                  None None None None None None None false (world_of [triangle])) Hz).
Defined.


(** Five polygons and the four default colours. *)
Lemma writePDF_fill_colors_witness :
  exists can w',
    @writePDF demo_engine PyNone [0; 0; 0; 0; 0] None 0%float None (world_of [triangle])
    = (Ok can, w') /\
    fills can = ["red"; "white"; "green"; "white"; "blue"; "white"; "yellow"; "white";
                 "red"; "white"].
Proof.
  destruct (@writePDF demo_engine PyNone [0; 0; 0; 0; 0] None 0%float None
              (world_of [triangle])) as [[can|e] w'] eqn:Hp;
    [|vm_compute in Hp; discriminate].
  exists can, w'. split; [reflexivity|].
  destruct (@writePDF_fill_colors demo_engine _ _ _ _ _ _ _ _ Hp) as (cols & Hf & Hn & Hc).
  rewrite Hf.
  destruct cols as [|c0 [|c1 [|c2 [|c3 [|c4 [|? ?]]]]]]; try discriminate Hn.
  pose proof (Hc 0 _ eq_refl) as H0. pose proof (Hc 1 _ eq_refl) as H1.
  pose proof (Hc 2 _ eq_refl) as H2. pose proof (Hc 3 _ eq_refl) as H3.
  pose proof (Hc 4 _ eq_refl) as H4.
  cbn in H0, H1, H2, H3, H4.
  injection H0 as <-. injection H1 as <-. injection H2 as <-. injection H3 as <-.
  injection H4 as <-. reflexivity.
Defined.

(** A point without [x]. *)
Lemma readXML_mandatory_attributes_witness :
  @py_int runtime "" = None /\ @py_float runtime "" = None /\
  @read_points runtime [Element "p" [("y", "0")] []] [] = Err ValueError.
Proof.
  assert (Hi : @py_int runtime "" = None) by reflexivity.
  assert (Hf : @py_float runtime "" = None) by reflexivity.
  split; [exact Hi|]. split; [exact Hf|].
  apply (proj1 (@readXML_mandatory_attributes runtime Hi Hf)); [reflexivity|by left].
Defined.

(** Four bytes of a count and one more. *)
Lemma unpack_splits_witness :
  (0 <= calcsize FmtI)%Z /\
  is_ok (Codec.__unpack FmtI [x00; x00; x00; x01; xff]) = true.
Proof.
  assert (Hs : (0 <= calcsize FmtI)%Z) by (cbn; lia).
  split; [exact Hs|].
  apply (proj1 (unpack_splits FmtI [x00; x00; x00; x01; xff] Hs)). cbn. lia.
Defined.

(** [labels=[]] with two label coordinates for one polygon. *)
Lemma writeSVG_unlabelled_witness :
  truthy_seq (Some (@nil string)) = false /\
  @writeSVG demo_engine runtime PyNone [0] None None None None None None (Some [])
            (Some [(1, 1); (2, 2)]%float) true (world_of [triangle])
  = @writeSVG demo_engine runtime PyNone [0] None None None None None None None None false
              (world_of [triangle]).
Proof.
  assert (Hl : truthy_seq (Some (@nil string)) = false) by reflexivity.
  split; [exact Hl|].
  exact (@writeSVG_unlabelled demo_engine runtime PyNone [0] None None None None None None
           (Some []) (Some [(1, 1); (2, 2)]%float) true (world_of [triangle]) Hl).
Defined.

(** [writeGnuplotTriangles('out.dat', [triangle])]. *)
Lemma writeGnuplotTriangles_text_witness :
  makes_stream (PyStr "out.dat") (world_of [triangle]) = Some true /\
  Forall (fun p => p < length (polys (world_of [triangle]))) [0] /\
  exists tss w',
    @triangles_texts demo_engine runtime (world_of [triangle]) [0] = Ok tss /\
    @writeGnuplotTriangles demo_engine runtime (PyStr "out.dat") [0] (world_of [triangle])
    = (Ok tt, w') /\
    streams w' = [mkStream (String.concat "" (concat tss)) 2] /\
    polys w' = [triangle].
Proof.
  assert (Hm : makes_stream (PyStr "out.dat") (world_of [triangle]) = Some true)
    by reflexivity.
  assert (Hv : Forall (fun p => p < length (polys (world_of [triangle]))) [0]).
  { repeat constructor. }
  split; [exact Hm|]. split; [exact Hv|].
  exact (@writeGnuplotTriangles_text demo_engine runtime (PyStr "out.dat") [0]
           (world_of [triangle]) true Hm Hv).
Defined.

(** [writeGnuplot(f, [triangle])] returns [f]. *)
Lemma writers_return_stream_witness :
  getWritableObject (PyStream 0) (world_with_stream [triangle])
  = (Ok (0, false), world_with_stream [triangle]) /\
  (@writeGnuplot runtime (PyStream 0) [0] (world_with_stream [triangle])).1 = Ok 0.
Proof.
  assert (Hr : getWritableObject (PyStream 0) (world_with_stream [triangle])
               = (Ok (0, false), world_with_stream [triangle])) by reflexivity.
  split; [exact Hr|].
  destruct (@writeGnuplot runtime (PyStream 0) [0] (world_with_stream [triangle]))
    as [[h|e] w'] eqn:Hg; [|vm_compute in Hg; discriminate].
  cbn [fst]. f_equal.
  exact (proj1 (@writers_return_stream demo_engine runtime _ [0] _ _ _ _ Hr) h w' Hg).
Defined.

(** The square with a hole, from its element tree. *)
Lemma xml_roundtrip_witness :
  Forall (fun n => @py_int runtime (@fmt_int runtime n) = Some n)
         (written_counts holed_square) /\
  @read_document runtime [@dom_polygon demo_engine runtime holed_square]
  = Ok [holed_square].
Proof.
  assert (Hn : Forall (fun n => @py_int runtime (@fmt_int runtime n) = Some n)
                      (written_counts holed_square)).
  { repeat constructor. }
  split; [exact Hn|].
  rewrite (proj2 (@xml_roundtrip demo_engine runtime holed_square Hn)).
  vm_compute. reflexivity.
Defined.

(** [readXML(writeXML(None, [triangle]).getvalue())]. *)
Lemma writeXML_then_readXML_witness :
  polys (world_of [triangle]) !! 0 = Some triangle /\
  Forall (fun n => @py_int Written.runtime (@fmt_int Written.runtime n) = Some n)
         (written_counts triangle) /\
  exists text w1,
    @writeXML demo_engine Written.runtime PyNone [0] false (world_of [triangle])
    = (Ok 0, w1) /\
    streams w1 !! 0 = Some (mkStream text 0) /\
    (@readXML Written.runtime (PyStr text) (world_of [])).1 = Ok [triangle].
Proof.
  assert (Hv : polys (world_of [triangle]) !! 0 = Some triangle) by reflexivity.
  assert (Hn : Forall (fun n => @py_int Written.runtime (@fmt_int Written.runtime n)
                                = Some n) (written_counts triangle)).
  { repeat constructor. }
  split; [exact Hv|]. split; [exact Hn|].
  destruct (@writeXML_then_readXML demo_engine Written.runtime 0 triangle
              (world_of [triangle]) Hv Hn) as (text & w1 & Hw & Hs & Ht & Hread).
  exists text, w1. split; [exact Hw|]. split; [exact Hs|].
  rewrite Hread.
  - vm_compute. reflexivity.
  - apply lookup_empty.
  - rewrite Ht. vm_compute. reflexivity.
Defined.

(** Three polygons and two fill colours. *)
Lemma writeSVG_styles_witness :
  makes_stream PyNone (world_of [triangle]) = Some false /\
  truthy_seq (@None (list string)) = false /\
  exists h w' head paths,
    @writeSVG demo_engine runtime PyNone [0; 0; 0] None None
              (Some ["(255, 0, 0)"; "(0, 0, 255)"]) None None None None None false
              (world_of [triangle]) = (Ok h, w') /\
    streams w' = [mkStream (String.concat nl (head ++ paths ++ ["</svg>"])) 0] /\
    length paths = 3 /\
    exists c o s wd d,
      cycled ["(255, 0, 0)"; "(0, 0, 255)"] 2 = Some c /\ c = "(255, 0, 0)" /\
      paths !! 2 = Some (svg_path c o s wd d).
Proof.
  assert (Hm : makes_stream PyNone (world_of [triangle]) = Some false) by reflexivity.
  assert (Hl : truthy_seq (@None (list string)) = false) by reflexivity.
  split; [exact Hm|]. split; [exact Hl|].
  destruct (@writeSVG demo_engine runtime PyNone [0; 0; 0] None None
              (Some ["(255, 0, 0)"; "(0, 0, 255)"]) None None None None None false
              (world_of [triangle])) as [[h|e] w'] eqn:Hw;
    [|vm_compute in Hw; discriminate].
  destruct (@writeSVG_styles demo_engine runtime _ _ _ _ _ _ _ _ _ _ _ _ _ _ _ Hm Hl Hw)
    as (head & paths & Hs & _ & Hn & Hp).
  exists h, w', head, paths. split; [reflexivity|]. split; [exact Hs|]. split; [exact Hn|].
  destruct paths as [|p0 [|p1 [|p2 [|? ?]]]]; try discriminate Hn.
  destruct (Hp 2 p2 eq_refl) as (c & o & s & wd & d & Hc & _ & _ & _ & ->).
  exists c, o, s, wd, d. split; [exact Hc|]. split; [|reflexivity].
  vm_compute in Hc. by injection Hc as <-.
Defined.

End FurtherInstances.
